(** * Automatic parking system: fuzzy controller, genetic optimizer, hybrid blend

    A shallow embedding of the algorithmic core of the repository
    ([fuzzy_centered.py], [genetic_algorithm.py], [parallel_parking_ga.py],
    [hybrid_system.py], [simulation.py]) and the properties its
    specification states about it.

    Conventions of the embedding.
    - A Python [float] is an exact rational ([Q]); infinities and NaN are
      outside the model.  The properties stated over these definitions are
      ones that rounding does not change: orderings, clipping, exceptions,
      lengths, which branch is taken.  Where rounding decides what a
      function returns, the function is given a second time in [Binary64],
      every operation rounded to the nearest double.
    - A Python [dict] is an insertion-ordered association list with unique
      keys ([dict_set] overwrites in place, as Python does): the code iterates
      over its dicts and the first failing entry decides which exception is
      raised.
    - An exception is a value of [exception]; fallible code returns a
      [result].
    - [math.sqrt], [math.atan2] and the curve generators, which leave the
      rationals, are parameters of the sections that use them.
    - Draws from numpy's global generator are nodes of a tree of draws
      ([Rand]); a property of a randomized method is stated for every
      outcome of the draws that numpy's contract allows. *)

From Stdlib Require Import QArith Qround Qabs Qminmax ZArith List String Bool.
From Stdlib Require Import Arith Lia Lqa.
From Equations Require Import Equations.
Import ListNotations.
Open Scope Q_scope.

Set Implicit Arguments.

(* ===================================================================== *)
(** * Part I.  The embedding *)
(* ===================================================================== *)

(** ** Python values, exceptions, dictionaries *)

Module Py.

Inductive exception : Type :=
| KeyError (key : string)
| ValueError
| IndexError
| ZeroDivisionError
| AttributeError
| TypeError
| OverflowError.

Inductive result (A : Type) : Type :=
| Ok (a : A)
| Raise (e : exception).
Arguments Ok {A} a.
Arguments Raise {A} e.

Definition bind {A B} (r : result A) (f : A -> result B) : result B :=
  match r with
  | Ok a => f a
  | Raise e => Raise e
  end.

Definition raises {A} (r : result A) (e : exception) : Prop := r = Raise e.

Definition returns {A} (r : result A) : bool :=
  match r with Ok _ => true | Raise _ => false end.

(** [d[k]], [k in d], [d[k] = v] on an insertion-ordered dictionary. *)
Definition dict (V : Type) : Type := list (string * V).

Fixpoint dict_get {V} (k : string) (d : dict V) : option V :=
  match d with
  | [] => None
  | (k', v) :: rest => if String.eqb k k' then Some v else dict_get k rest
  end.

Definition dict_mem {V} (k : string) (d : dict V) : bool :=
  match dict_get k d with Some _ => true | None => false end.

Fixpoint dict_set {V} (k : string) (v : V) (d : dict V) : dict V :=
  match d with
  | [] => [(k, v)]
  | (k', v') :: rest =>
      if String.eqb k k' then (k', v) :: rest else (k', v') :: dict_set k v rest
  end.

Definition dict_keys {V} (d : dict V) : list string := map fst d.

(** [d[k]] as an expression: raises [KeyError] on a missing key. *)
Definition dict_item {V} (k : string) (d : dict V) : result V :=
  match dict_get k d with
  | Some v => Ok v
  | None => Raise (KeyError k)
  end.

(** [min(a, b)] and [max(a, b)] keep their first argument on a tie, which is
    what [Qmin] and [Qmax] do. *)
Definition py_min (a b : Q) : Q := Qmin a b.
Definition py_max (a b : Q) : Q := Qmax a b.

(** [int(x)] truncates toward zero. *)
Definition py_int (x : Q) : Z :=
  if Qle_bool 0 x then Qfloor x else Qceiling x.

(** [a / b] on Python floats. *)
Definition py_div (a b : Q) : result Q :=
  if Qeq_bool b 0 then Raise ZeroDivisionError else Ok (a / b).

End Py.

Import Py.

Notation "x <- c ;; k" := (Py.bind c (fun x => k))
  (at level 61, c at next level, right associativity).

(** ** The numpy operations the code uses *)

Module Np.

(** [np.clip(x, lo, hi)] is [minimum(maximum(x, lo), hi)]. *)
Definition clip (x lo hi : Q) : Q := Qmin (Qmax x lo) hi.

Definition sum (xs : list Q) : Q := fold_left Qplus xs 0.

(** Elementwise operation on two arrays of one shape.  Every array of a
    fuzzy variable is built from its universe, so shapes agree. *)
Fixpoint map2 {A B C} (f : A -> B -> C) (xs : list A) (ys : list B) : list C :=
  match xs, ys with
  | x :: xs', y :: ys' => f x y :: map2 f xs' ys'
  | _, _ => []
  end.

(** [np.linspace(start, stop, num)]. *)
Definition linspace (start stop : Q) (num : nat) : list Q :=
  match num with
  | O => []
  | S O => [start]
  | S n =>
      map (fun i => start + inject_Z (Z.of_nat i) * ((stop - start) / inject_Z (Z.of_nat n)))
          (seq 0 num)
  end.

Definition zeros_like (xs : list Q) : list Q := map (fun _ => 0) xs.

(** Index of the first least element from position [i] on, given the best
    so far. *)
Fixpoint argmin_from (xs : list Q) (i best_i : nat) (best : Q) : nat :=
  match xs with
  | [] => best_i
  | x :: rest =>
      if Qlt_le_dec x best then argmin_from rest (S i) i x
      else argmin_from rest (S i) best_i best
  end.

(** [a.argmin()]: [ValueError] on an empty array. *)
Definition argmin (xs : list Q) : result nat :=
  match xs with
  | [] => Raise ValueError
  | x :: rest => Ok (argmin_from rest 1 0 x)
  end.

Fixpoint argmax_from (xs : list Q) (i best_i : nat) (best : Q) : nat :=
  match xs with
  | [] => best_i
  | x :: rest =>
      if Qlt_le_dec best x then argmax_from rest (S i) i x
      else argmax_from rest (S i) best_i best
  end.

(** [np.argmax(xs)]: index of the first greatest element. *)
Definition argmax (xs : list Q) : result nat :=
  match xs with
  | [] => Raise ValueError
  | x :: rest => Ok (argmax_from rest 1 0 x)
  end.

(** [np.mean(xs)] of a non-empty list. *)
Definition mean (xs : list Q) : Q := sum xs / inject_Z (Z.of_nat (List.length xs)).

End Np.

(* --------------------------------------------------------------------- *)
(** ** [fuzzy_centered.py] *)
(* --------------------------------------------------------------------- *)

Module Fuzzy.

Record FuzzyVariable : Type := mkFuzzyVariable {
  name : string;
  min_val : Q;
  max_val : Q;
  resolution : nat;
  universe : list Q;
  terms : dict (list Q)
}.

(** [FuzzyVariable.__init__]. *)
Definition new_FuzzyVariable (nm : string) (lo hi : Q) (res : nat) : FuzzyVariable :=
  {| name := nm; min_val := lo; max_val := hi; resolution := res;
     universe := Np.linspace lo hi res; terms := [] |}.

Definition between (lo x hi : Q) : bool := Qle_bool lo x && Qle_bool x hi.

Definition _triangular_mf (self : FuzzyVariable) (params : list Q) : result (list Q) :=
  match params with
  | [a; b; c] =>
      Ok (map (fun u =>
                 let mf0 := 0 in
                 let mf1 := if between a u b && negb (Qeq_bool b a)
                            then (u - a) / (b - a) else mf0 in
                 let mf2 := if between b u c && negb (Qeq_bool c b)
                            then (c - u) / (c - b) else mf1 in
                 Np.clip mf2 0 1)
              (universe self))
  | _ => Raise ValueError
  end.

Definition _trapezoidal_mf (self : FuzzyVariable) (params : list Q) : result (list Q) :=
  match params with
  | [a; b; c; d] =>
      Ok (map (fun u =>
                 let mf0 := 0 in
                 let mf1 := if between a u b && negb (Qeq_bool b a)
                            then (u - a) / (b - a) else mf0 in
                 let mf2 := if between b u c then 1 else mf1 in
                 let mf3 := if between c u d && negb (Qeq_bool d c)
                            then (d - u) / (d - c) else mf2 in
                 Np.clip mf3 0 1)
              (universe self))
  | _ => Raise ValueError
  end.

(** [add_term].  The class defines no [_gaussian_mf], so the ["gaussmf"]
    branch fails on the attribute lookup. *)
Definition add_term (self : FuzzyVariable) (term_name mf_type : string)
    (params : list Q) : result FuzzyVariable :=
  mf <- (if String.eqb mf_type "trimf" then _triangular_mf self params
         else if String.eqb mf_type "trapmf" then _trapezoidal_mf self params
         else if String.eqb mf_type "gaussmf" then Raise AttributeError
         else Raise ValueError) ;;
  Ok {| name := name self; min_val := min_val self; max_val := max_val self;
        resolution := resolution self; universe := universe self;
        terms := dict_set term_name mf (terms self) |}.

(** [fuzzify]: nearest-sample lookup of every term. *)
Definition fuzzify (self : FuzzyVariable) (crisp_value : Q) : result (dict Q) :=
  let crisp_value := Np.clip crisp_value (min_val self) (max_val self) in
  idx <- Np.argmin (map (fun u => Qabs (u - crisp_value)) (universe self)) ;;
  Ok (map (fun '(term_name, mf) => (term_name, nth idx mf 0)) (terms self)).

Record FuzzyRule : Type := mkFuzzyRule {
  antecedents : dict string;
  consequents : dict string
}.

Record FuzzyInferenceSystem : Type := mkFIS {
  fis_name : string;
  inputs : dict FuzzyVariable;
  outputs : dict FuzzyVariable;
  rules : list FuzzyRule;
  last_input_memberships : dict (dict Q)
}.

Definition new_FuzzyInferenceSystem (nm : string) : FuzzyInferenceSystem :=
  {| fis_name := nm; inputs := []; outputs := []; rules := [];
     last_input_memberships := [] |}.

Definition add_input (self : FuzzyInferenceSystem) (v : FuzzyVariable) :=
  {| fis_name := fis_name self; inputs := dict_set (name v) v (inputs self);
     outputs := outputs self; rules := rules self;
     last_input_memberships := last_input_memberships self |}.

Definition add_output (self : FuzzyInferenceSystem) (v : FuzzyVariable) :=
  {| fis_name := fis_name self; inputs := inputs self;
     outputs := dict_set (name v) v (outputs self); rules := rules self;
     last_input_memberships := last_input_memberships self |}.

Definition add_rule (self : FuzzyInferenceSystem) (r : FuzzyRule) :=
  {| fis_name := fis_name self; inputs := inputs self; outputs := outputs self;
     rules := rules self ++ [r];
     last_input_memberships := last_input_memberships self |}.

(** *** [infer] *)

(** Step 1 of [infer]: the loop over [input_values.items()]. *)
Fixpoint infer_fuzzification (self : FuzzyInferenceSystem)
    (input_values : dict Q) (fuzzified_inputs : dict (dict Q))
    : result (dict (dict Q)) :=
  match input_values with
  | [] => Ok fuzzified_inputs
  | (input_name, input_value) :: rest =>
      input_var <- dict_item input_name (inputs self) ;;
      ms <- fuzzify input_var input_value ;;
      infer_fuzzification self rest (dict_set input_name ms fuzzified_inputs)
  end.

(** The initial aggregate: one array of zeros per output. *)
Definition infer_zero_aggregate (self : FuzzyInferenceSystem) : dict (list Q) :=
  map (fun '(output_name, output_var) => (output_name, Np.zeros_like (universe output_var)))
      (outputs self).

(** The antecedent loop of [infer] (lines 116-120): a clause whose variable
    or term is not found is passed over; there is no [else]. *)
Definition infer_activation (fuzzified_inputs : dict (dict Q)) (rule : FuzzyRule) : Q :=
  fold_left
    (fun activation '(antecedent_var, antecedent_term) =>
       match dict_get antecedent_var fuzzified_inputs with
       | Some ms =>
           match dict_get antecedent_term ms with
           | Some membership => py_min activation membership
           | None => activation
           end
       | None => activation
       end)
    (antecedents rule) 1.

(** The consequent loop of [infer] (lines 123-129). *)
Definition infer_apply_rule (self : FuzzyInferenceSystem) (activation : Q)
    (rule : FuzzyRule) (aggregated : dict (list Q)) : dict (list Q) :=
  fold_left
    (fun aggregated '(consequent_var, consequent_term) =>
       match dict_get consequent_var (outputs self) with
       | Some output_var =>
           match dict_get consequent_term (terms output_var) with
           | Some consequent_mf =>
               let implied_mf := map (fun m => Qmin activation m) consequent_mf in
               match dict_get consequent_var aggregated with
               | Some current =>
                   dict_set consequent_var (Np.map2 Qmax current implied_mf) aggregated
               | None => aggregated
               end
           | None => aggregated
           end
       | None => aggregated
       end)
    (consequents rule) aggregated.

(** Step 2 of [infer]: the loop over the rules. *)
Definition infer_aggregate (self : FuzzyInferenceSystem)
    (fuzzified_inputs : dict (dict Q)) : dict (list Q) :=
  fold_left
    (fun aggregated rule =>
       infer_apply_rule self (infer_activation fuzzified_inputs rule) rule aggregated)
    (rules self) (infer_zero_aggregate self).

(** Step 3 of [infer]: centroid of one output, midpoint when the
    denominator is zero. *)
Definition infer_centroid (output_var : FuzzyVariable) (aggregated_mf : list Q) : Q :=
  let numerator := Np.sum (Np.map2 Qmult (universe output_var) aggregated_mf) in
  let denominator := Np.sum aggregated_mf in
  if negb (Qeq_bool denominator 0) then numerator / denominator
  else (min_val output_var + max_val output_var) / 2.

Fixpoint infer_defuzzify (self : FuzzyInferenceSystem) (aggregated : dict (list Q))
    : result (dict Q) :=
  match aggregated with
  | [] => Ok []
  | (output_name, aggregated_mf) :: rest =>
      output_var <- dict_item output_name (outputs self) ;;
      output_values <- infer_defuzzify self rest ;;
      Ok ((output_name, infer_centroid output_var aggregated_mf) :: output_values)
  end.

Definition set_last_input_memberships (self : FuzzyInferenceSystem)
    (ms : dict (dict Q)) : FuzzyInferenceSystem :=
  {| fis_name := fis_name self; inputs := inputs self; outputs := outputs self;
     rules := rules self; last_input_memberships := ms |}.

(** [infer]: returns the outputs and the object with its
    [last_input_memberships] replaced. *)
Definition infer (self : FuzzyInferenceSystem) (input_values : dict Q)
    : result (dict Q * FuzzyInferenceSystem) :=
  fuzzified_inputs <- infer_fuzzification self input_values [] ;;
  let self' := set_last_input_memberships self fuzzified_inputs in
  let aggregated := infer_aggregate self' fuzzified_inputs in
  output_values <- infer_defuzzify self' aggregated ;;
  Ok (output_values, self').

(** *** [get_active_rules_info] *)

(** The antecedent loop of [get_active_rules_info] (lines 154-161): a clause
    that is not found sets the activation to 0 and leaves the loop. *)
Fixpoint active_rules_activation (memberships : dict (dict Q))
    (clauses : dict string) (activation : Q) : Q :=
  match clauses with
  | [] => activation
  | (antecedent_var, antecedent_term) :: rest =>
      match dict_get antecedent_var memberships with
      | Some ms =>
          match dict_get antecedent_term ms with
          | Some membership =>
              active_rules_activation memberships rest (py_min activation membership)
          | None => 0
          end
      | None => 0
      end
  end.

Definition rule_str (rule : FuzzyRule) : string :=
  let clause := fun '(var, term) => (var ++ "=" ++ term)%string in
  ("SE " ++ String.concat " E " (map clause (antecedents rule))
   ++ " ENTÃO " ++ String.concat " E " (map clause (consequents rule)))%string.

(** [list.sort(key=activation, reverse=True)]: stable, descending. *)
Fixpoint insert_desc (x : string * Q) (sorted : list (string * Q)) : list (string * Q) :=
  match sorted with
  | [] => [x]
  | y :: rest =>
      if Qlt_le_dec (snd x) (snd y) then y :: insert_desc x rest else x :: sorted
  end.

Definition sort_desc (xs : list (string * Q)) : list (string * Q) :=
  fold_right insert_desc [] xs.

Definition get_active_rules_info (self : FuzzyInferenceSystem) : list (string * Q) :=
  let rule_info :=
    flat_map
      (fun rule =>
         let activation :=
           active_rules_activation (last_input_memberships self) (antecedents rule) 1 in
         if Qlt_le_dec 0 activation then [(rule_str rule, activation)] else [])
      (rules self) in
  sort_desc rule_info.

(** *** Notions used to state the properties *)

(** The aggregate [infer] builds for one output, when the inputs fuzzify. *)
Definition aggregate_of (self : FuzzyInferenceSystem) (input_values : dict Q)
    (output_name : string) : option (list Q) :=
  match infer_fuzzification self input_values [] with
  | Ok fuzzified => dict_get output_name (infer_aggregate self fuzzified)
  | Raise _ => None
  end.

(** Every membership array of a variable has the shape of its universe. *)
Definition shapes_agree (v : FuzzyVariable) : Prop :=
  Forall (fun entry => List.length (snd entry) = List.length (universe v)) (terms v).

(** Every sampled membership value of a variable lies between 0 and 1. *)
Definition unit_valued (v : FuzzyVariable) : Prop :=
  Forall (fun entry => Forall (fun m => 0 <= m <= 1) (snd entry)) (terms v).


(** A list of (description, activation) pairs in descending order of
    activation. *)
Fixpoint sorted_desc (xs : list (string * Q)) : Prop :=
  match xs with
  | a :: (b :: _) as rest => snd b <= snd a /\ sorted_desc rest
  | _ => True
  end.

(** Every clause of a rule is found in the fuzzified inputs. *)
Definition clauses_found (fuzzified : dict (dict Q)) (clauses : dict string) : Prop :=
  Forall (fun clause =>
            exists ms membership,
              dict_get (fst clause) fuzzified = Some ms /\
              dict_get (snd clause) ms = Some membership)
         clauses.

(** The value [_triangular_mf] computes at one sample. *)
Definition triangle_at (a b c u : Q) : Q :=
  let mf1 := if between a u b && negb (Qeq_bool b a) then (u - a) / (b - a) else 0 in
  let mf2 := if between b u c && negb (Qeq_bool c b) then (c - u) / (c - b) else mf1 in
  Np.clip mf2 0 1.

(** The value [_trapezoidal_mf] computes at one sample. *)
Definition trapezoid_at (a b c d u : Q) : Q :=
  let mf1 := if between a u b && negb (Qeq_bool b a) then (u - a) / (b - a) else 0 in
  let mf2 := if between b u c then 1 else mf1 in
  let mf3 := if between c u d && negb (Qeq_bool d c) then (d - u) / (d - c) else mf2 in
  Np.clip mf3 0 1.

(** Every registered input has at least one sample. *)
Definition nonempty_universes (self : FuzzyInferenceSystem) : bool :=
  forallb (fun '(_, v) => match universe v with [] => false | _ :: _ => true end)
          (inputs self).

(** Inference as the specification words it: a rule with a clause that is
    not found has activation 0, which is what [get_active_rules_info]
    computes. *)
Definition specified_aggregate (self : FuzzyInferenceSystem)
    (fuzzified_inputs : dict (dict Q)) : dict (list Q) :=
  fold_left
    (fun aggregated rule =>
       infer_apply_rule self
         (active_rules_activation fuzzified_inputs (antecedents rule) 1) rule aggregated)
    (rules self) (infer_zero_aggregate self).

Definition specified_infer (self : FuzzyInferenceSystem) (input_values : dict Q)
    : result (dict Q) :=
  fuzzified_inputs <- infer_fuzzification self input_values [] ;;
  infer_defuzzify self (specified_aggregate self fuzzified_inputs).

End Fuzzy.

(* --------------------------------------------------------------------- *)
(** ** Draws from [np.random] *)
(* --------------------------------------------------------------------- *)

Module Rng.

(** A randomized computation: a tree whose inner nodes are the calls to
    numpy's generator and whose leaves are results or exceptions. *)
Inductive Rand (A : Type) : Type :=
| Ret (a : A)
| Throw (e : exception)
| Uniform (lo hi : Q) (k : Q -> Rand A)
| Random (k : Q -> Rand A)
| Randint (lo hi : Z) (k : Z -> Rand A)
| ChoiceOf (xs : list Z) (k : Z -> Rand A)
| ChoiceP (n : nat) (p : list Q) (k : nat -> Rand A).
Arguments Ret {A} a.
Arguments Throw {A} e.
Arguments Uniform {A} lo hi k.
Arguments Random {A} k.
Arguments Randint {A} lo hi k.
Arguments ChoiceOf {A} xs k.
Arguments ChoiceP {A} n p k.

Fixpoint bind {A B} (t : Rand A) (f : A -> Rand B) : Rand B :=
  match t with
  | Ret a => f a
  | Throw e => Throw e
  | Uniform lo hi k => Uniform lo hi (fun x => bind (k x) f)
  | Random k => Random (fun x => bind (k x) f)
  | Randint lo hi k => Randint lo hi (fun z => bind (k z) f)
  | ChoiceOf xs k => ChoiceOf xs (fun z => bind (k z) f)
  | ChoiceP n p k => ChoiceP n p (fun i => bind (k i) f)
  end.

Definition lift {A} (r : result A) : Rand A :=
  match r with
  | Ok a => Ret a
  | Raise e => Throw e
  end.

(** [np.random.uniform(lo, hi)], [np.random.random()],
    [np.random.randint(lo, hi)], [np.random.choice(xs)] and
    [np.random.choice(n, p=p)] as computations. *)
Definition uniform (lo hi : Q) : Rand Q := Uniform lo hi Ret.
Definition random : Rand Q := Random Ret.
Definition randint (lo hi : Z) : Rand Z := Randint lo hi Ret.
Definition choice_of (xs : list Z) : Rand Z := ChoiceOf xs Ret.
Definition choice_p (n : nat) (p : list Q) : Rand nat := ChoiceP n p Ret.

(** What numpy accepts as [p] for [choice(n, p=p)]: [n] entries, none
    negative, summing to one. *)
Definition valid_probabilities (n : nat) (p : list Q) : Prop :=
  (0 < n)%nat /\ List.length p = n /\ Forall (fun x => 0 <= x) p /\ Np.sum p == 1.

(** [always P t]: whatever numpy draws within its contract, [t] raises
    nothing, numpy rejects none of its calls, and the result satisfies [P]. *)
Fixpoint always {A} (P : A -> Prop) (t : Rand A) : Prop :=
  match t with
  | Ret a => P a
  | Throw _ => False
  | Uniform lo hi k => forall x, Qmin lo hi <= x <= Qmax lo hi -> always P (k x)
  | Random k => forall x, 0 <= x < 1 -> always P (k x)
  | Randint lo hi k => (lo < hi)%Z /\ forall z, (lo <= z < hi)%Z -> always P (k z)
  | ChoiceOf xs k => xs <> [] /\ forall z, In z xs -> always P (k z)
  | ChoiceP n p k => valid_probabilities n p /\ forall i, (i < n)%nat -> always P (k i)
  end.

(** [ensures P t]: whatever numpy draws within its contract, a result that
    [t] returns satisfies [P].  On its own this says nothing about [t]
    returning; it is used next to [always]. *)
Fixpoint ensures {A} (P : A -> Prop) (t : Rand A) : Prop :=
  match t with
  | Ret a => P a
  | Throw _ => True
  | Uniform lo hi k => forall x, Qmin lo hi <= x <= Qmax lo hi -> ensures P (k x)
  | Random k => forall x, 0 <= x < 1 -> ensures P (k x)
  | Randint lo hi k => forall z, (lo <= z < hi)%Z -> ensures P (k z)
  | ChoiceOf xs k => forall z, In z xs -> ensures P (k z)
  | ChoiceP n p k => forall i, (i < n)%nat -> ensures P (k i)
  end.

(** [always_raises e t]: whatever numpy draws within its contract, [t]
    returns nothing and ends by raising [e]; a call that numpy rejects
    raises [ValueError]. *)
Fixpoint always_raises {A} (e : exception) (t : Rand A) : Prop :=
  match t with
  | Ret _ => False
  | Throw e' => e' = e
  | Uniform lo hi k => forall x, Qmin lo hi <= x <= Qmax lo hi -> always_raises e (k x)
  | Random k => forall x, 0 <= x < 1 -> always_raises e (k x)
  | Randint lo hi k =>
      ((lo < hi)%Z -> forall z, (lo <= z < hi)%Z -> always_raises e (k z)) /\
      ((hi <= lo)%Z -> e = ValueError)
  | ChoiceOf xs k =>
      (forall z, In z xs -> always_raises e (k z)) /\ (xs = [] -> e = ValueError)
  | ChoiceP n p k =>
      (valid_probabilities n p -> forall i, (i < n)%nat -> always_raises e (k i)) /\
      (~ valid_probabilities n p -> e = ValueError)
  end.

(** The first call a computation makes to the generator. *)
Inductive first_call : Type :=
| NoCall
| CallUniform (lo hi : Q)
| CallRandom
| CallRandint (lo hi : Z)
| CallChoiceOf (xs : list Z)
| CallChoiceP (n : nat) (p : list Q).

Definition first_draw {A} (t : Rand A) : first_call :=
  match t with
  | Ret _ | Throw _ => NoCall
  | Uniform lo hi _ => CallUniform lo hi
  | Random _ => CallRandom
  | Randint lo hi _ => CallRandint lo hi
  | ChoiceOf xs _ => CallChoiceOf xs
  | ChoiceP n p _ => CallChoiceP n p
  end.

(** Inverse-CDF lookup: the first index whose cumulative weight exceeds [u]. *)
Fixpoint pick (p : list Q) (u : Q) (i : nat) : nat :=
  match p with
  | [] => i
  | w :: rest => if Qlt_le_dec u w then i else pick rest (u - w) (S i)
  end.

Definition valid_probabilities_b (n : nat) (p : list Q) : bool :=
  (0 <? n)%nat && (List.length p =? n)%nat && forallb (Qle_bool 0) p
  && Qeq_bool (Np.sum p) 1.

(** One sampler among those the contract allows: every call consumes one
    number of [us], read as a point of the unit interval. *)
Fixpoint sample {A} (t : Rand A) (us : list Q) : result A :=
  let u := hd 0 us in
  let us' := tl us in
  match t with
  | Ret a => Ok a
  | Throw e => Raise e
  | Uniform lo hi k => sample (k (lo + u * (hi - lo))) us'
  | Random k => sample (k u) us'
  | Randint lo hi k =>
      if (lo <? hi)%Z then sample (k (lo + Qfloor (u * inject_Z (hi - lo)))%Z) us'
      else Raise ValueError
  | ChoiceOf xs k =>
      match xs with
      | [] => Raise ValueError
      | x :: _ =>
          sample (k (nth (Z.to_nat (Qfloor (u * inject_Z (Z.of_nat (List.length xs))))) xs x)) us'
      end
  | ChoiceP n p k =>
      if valid_probabilities_b n p then sample (k (Nat.min (pick p u 0) (n - 1))) us'
      else Raise ValueError
  end.

End Rng.

Import Rng.

Notation "x <~ c ;; k" := (Rng.bind c (fun x => k))
  (at level 61, c at next level, right associativity).
Notation "' pat <~ c ;; k" := (Rng.bind c (fun x => match x with pat => k end))
  (at level 61, pat pattern, c at next level, right associativity).

(* --------------------------------------------------------------------- *)
(** ** [genetic_algorithm.py] *)
(* --------------------------------------------------------------------- *)

Module GA.

Definition pose : Type := (Q * Q * Q)%type.

(** A chromosome is a list of bits; [true] is the source's [1]. *)
Abbreviation chromosome := (list bool).

(** [simulation.Obstacle] and its [get_bounds]. *)
Record Obstacle : Type := mkObstacle {
  obs_x : Q;
  obs_y : Q;
  obs_width : Q;
  obs_height : Q
}.

Definition get_bounds (o : Obstacle) : Q * Q * Q * Q :=
  (obs_x o, obs_y o, obs_x o + obs_width o, obs_y o + obs_height o).

(** The literal [1e-10] of [_roulette_wheel_selection]. *)
Definition tiny : Q := 1 # 10000000000.

(** The optimizer object.  [decode_individual_attr] is the instance
    attribute [_decode_individual] that [_run_single_phase] installs over the
    class method; [None] while the class method is in effect. *)
Record GeneticAlgorithm : Type := mkGA {
  initial_pose : pose;
  final_pose : pose;
  obstacles : list Obstacle;
  vehicle_params : dict Q;
  population_size : nat;
  generations : nat;
  crossover_rate : Q;
  mutation_rate : Q;
  k0_range : Q * Q;
  k1_range : Q * Q;
  precision : Q;
  chromosome_length : nat;
  k0_bits : nat;
  k1_bits : nat;
  vs_bits : nat;
  best_fitness_history : list Q;
  avg_fitness_history : list Q;
  best_individual_history : list chromosome;
  decode_individual_attr : option (chromosome -> result (Q * Q * Z))
}.

Definition set_history (self : GeneticAlgorithm) (best avg : list Q)
    (inds : list chromosome) : GeneticAlgorithm :=
  mkGA (initial_pose self) (final_pose self) (obstacles self) (vehicle_params self)
       (population_size self) (generations self) (crossover_rate self)
       (mutation_rate self) (k0_range self) (k1_range self) (precision self)
       (chromosome_length self) (k0_bits self) (k1_bits self) (vs_bits self)
       best avg inds (decode_individual_attr self).

Definition set_decode_individual (self : GeneticAlgorithm)
    (f : option (chromosome -> result (Q * Q * Z))) : GeneticAlgorithm :=
  mkGA (initial_pose self) (final_pose self) (obstacles self) (vehicle_params self)
       (population_size self) (generations self) (crossover_rate self)
       (mutation_rate self) (k0_range self) (k1_range self) (precision self)
       (chromosome_length self) (k0_bits self) (k1_bits self) (vs_bits self)
       (best_fitness_history self) (avg_fitness_history self)
       (best_individual_history self) f.

Definition set_poses (self : GeneticAlgorithm) (p0 pf : pose) : GeneticAlgorithm :=
  mkGA p0 pf (obstacles self) (vehicle_params self)
       (population_size self) (generations self) (crossover_rate self)
       (mutation_rate self) (k0_range self) (k1_range self) (precision self)
       (chromosome_length self) (k0_bits self) (k1_bits self) (vs_bits self)
       (best_fitness_history self) (avg_fitness_history self)
       (best_individual_history self) (decode_individual_attr self).

(** [np.ceil(np.log2(x))] for [0 < x], computed exactly: the least [b] with
    [x <= 2^b]. *)
Definition ceil_log2 (x : Q) : Z :=
  if Qlt_le_dec 1 x then Z.log2_up (Qceiling x) else (- Z.log2 (Qfloor (/ x)))%Z.

(** [_calculate_bits].  [np.log2] of 0 is [-inf], on which [int] raises
    [OverflowError]; of a negative number it is [nan], on which [int] raises
    [ValueError]. *)
Definition _calculate_bits (min_val max_val precision : Q) : result nat :=
  let range_size := max_val - min_val in
  num_intervals <- py_div range_size precision ;;
  if Qlt_le_dec 0 num_intervals then
    let bits := ceil_log2 num_intervals in
    Ok (Z.to_nat (Z.max bits 8))
  else if Qeq_bool num_intervals 0 then Raise OverflowError
  else Raise ValueError.

(** [GeneticAlgorithm.__init__]. *)
Definition new_GeneticAlgorithm (initial_pose final_pose : pose)
    (obstacles : list Obstacle) (vehicle_params : dict Q)
    (population_size generations : nat) (crossover_rate mutation_rate : Q)
    (k0_range k1_range : Q * Q) (precision : Q) : result GeneticAlgorithm :=
  k0_bits <- _calculate_bits (fst k0_range) (snd k0_range) precision ;;
  k1_bits <- _calculate_bits (fst k1_range) (snd k1_range) precision ;;
  let vs_bits := 1%nat in
  Ok (mkGA initial_pose final_pose obstacles vehicle_params population_size
           generations crossover_rate mutation_rate k0_range k1_range precision
           (k0_bits + k1_bits + vs_bits) k0_bits k1_bits vs_bits [] [] [] None).

(** [format(n, '0{bits}b')] as a list of bits, most significant first: at
    least [bits] digits, more when [n] needs them. *)
Definition format_binary (bits : nat) (n : Z) : list bool :=
  let width := Nat.max bits (S (Z.to_nat (Z.log2 n))) in
  map (fun i => Z.testbit n (Z.of_nat (width - 1 - i))) (seq 0 width).

(** [int(s, 2)] on the digits of [s], most significant first. *)
Fixpoint int_of_bits (acc : Z) (binary : list bool) : Z :=
  match binary with
  | [] => acc
  | b :: rest => int_of_bits (2 * acc + (if b then 1 else 0))%Z rest
  end.

Definition _encode_parameter (value min_val max_val : Q) (bits : nat)
    : result (list bool) :=
  normalized <- py_div (value - min_val) (max_val - min_val) ;;
  let normalized := Np.clip normalized 0 1 in
  let max_int := (Z.shiftl 1 (Z.of_nat bits) - 1)%Z in
  let int_value := py_int (normalized * inject_Z max_int) in
  Ok (format_binary bits int_value).

Definition _decode_parameter (binary : list bool) (min_val max_val : Q) : result Q :=
  match binary with
  | [] => Raise ValueError
  | _ :: _ =>
      let int_value := int_of_bits 0 binary in
      let max_int := (Z.shiftl 1 (Z.of_nat (List.length binary)) - 1)%Z in
      let normalized :=
        if (0 <? max_int)%Z then inject_Z int_value / inject_Z max_int else 0 in
      Ok (min_val + normalized * (max_val - min_val))
  end.

Definition _create_individual (self : GeneticAlgorithm) : Rand chromosome :=
  k0 <~ uniform (fst (k0_range self)) (snd (k0_range self)) ;;
  k1 <~ uniform (fst (k1_range self)) (snd (k1_range self)) ;;
  vs <~ choice_of [(-1)%Z; 1%Z] ;;
  k0_binary <~ lift (_encode_parameter k0 (fst (k0_range self)) (snd (k0_range self))
                                       (k0_bits self)) ;;
  k1_binary <~ lift (_encode_parameter k1 (fst (k1_range self)) (snd (k1_range self))
                                       (k1_bits self)) ;;
  let vs_binary := [Z.eqb vs 1] in
  Ret (k0_binary ++ k1_binary ++ vs_binary).

(** The class method [_decode_individual]. *)
Definition _decode_individual (self : GeneticAlgorithm) (c : chromosome)
    : result (Q * Q * Z) :=
  let k0_binary := firstn (k0_bits self) c in
  let k1_binary := firstn (k1_bits self) (skipn (k0_bits self) c) in
  let vs_binary := skipn (k0_bits self + k1_bits self) c in
  k0 <- _decode_parameter k0_binary (fst (k0_range self)) (snd (k0_range self)) ;;
  k1 <- _decode_parameter k1_binary (fst (k1_range self)) (snd (k1_range self)) ;;
  match vs_binary with
  | [] => Raise IndexError
  | b :: _ => Ok (k0, k1, if b then 1%Z else (-1)%Z)
  end.

(** [self._decode_individual(c)]: the instance attribute when one is set,
    the class method otherwise. *)
Definition call_decode_individual (self : GeneticAlgorithm) (c : chromosome)
    : result (Q * Q * Z) :=
  match decode_individual_attr self with
  | Some f => f c
  | None => _decode_individual self c
  end.

Definition dict_get_default (k : string) (d : dict Q) (default : Q) : Q :=
  match dict_get k d with Some v => v | None => default end.

(** [_check_collision]; the distance to the obstacle's centre that the
    source also computes is never read. *)
Definition _check_collision (self : GeneticAlgorithm) (trajectory : list pose) : bool :=
  let vehicle_length := dict_get_default "length" (vehicle_params self) 50 in
  let vehicle_width := dict_get_default "width" (vehicle_params self) 25 in
  let detection_radius := py_max vehicle_length vehicle_width / 2 in
  existsb
    (fun '(x, y, _) =>
       existsb
         (fun obstacle =>
            let '(obs_x_min, obs_y_min, obs_x_max, obs_y_max) := get_bounds obstacle in
            Qle_bool (obs_x_min - detection_radius) x
            && Qle_bool x (obs_x_max + detection_radius)
            && Qle_bool (obs_y_min - detection_radius) y
            && Qle_bool y (obs_y_max + detection_radius))
         (obstacles self))
    trajectory.

(** [population[i]]. *)
Definition list_item {A} (xs : list A) (i : nat) : result A :=
  match nth_error xs i with
  | Some x => Ok x
  | None => Raise IndexError
  end.

Fixpoint result_map {A B} (f : A -> result B) (xs : list A) : result (list B) :=
  match xs with
  | [] => Ok []
  | x :: rest =>
      y <- f x ;;
      ys <- result_map f rest ;;
      Ok (y :: ys)
  end.

(** [min(xs)]: [ValueError] on an empty list. *)
Definition py_min_list (xs : list Q) : result Q :=
  match xs with
  | [] => Raise ValueError
  | x :: rest => Ok (fold_left Qmin rest x)
  end.

(** [_roulette_wheel_selection]. *)
Definition _roulette_wheel_selection (population : list chromosome)
    (fitness : list Q) : Rand chromosome :=
  min_fitness <~ lift (py_min_list fitness) ;;
  let adjusted_fitness := map (fun f => f - min_fitness + tiny) fitness in
  let total_fitness := Np.sum adjusted_fitness in
  if Qlt_le_dec total_fitness tiny then
    i <~ randint 0 (Z.of_nat (List.length population)) ;;
    lift (list_item population (Z.to_nat i))
  else
    probabilities <~ lift (result_map (fun f => py_div f total_fitness) adjusted_fitness) ;;
    selected_idx <~ choice_p (List.length population) probabilities ;;
    lift (list_item population selected_idx).

Definition _crossover (self : GeneticAlgorithm) (parent1 parent2 : chromosome)
    : Rand (chromosome * chromosome) :=
  r <~ random ;;
  if Qlt_le_dec (crossover_rate self) r then Ret (parent1, parent2)
  else
    crossover_point <~ randint 1 (Z.of_nat (List.length parent1)) ;;
    let cp := Z.to_nat crossover_point in
    let child1 := firstn cp parent1 ++ skipn cp parent2 in
    let child2 := firstn cp parent2 ++ skipn cp parent1 in
    Ret (child1, child2).

Fixpoint mutate_bits (rate : Q) (bits : chromosome) : Rand chromosome :=
  match bits with
  | [] => Ret []
  | b :: rest =>
      r <~ random ;;
      let b' := if Qlt_le_dec r rate then negb b else b in
      rest' <~ mutate_bits rate rest ;;
      Ret (b' :: rest')
  end.

Definition _mutate (self : GeneticAlgorithm) (c : chromosome) : Rand chromosome :=
  mutate_bits (mutation_rate self) c.

(** The result dictionary of [run]. *)
Record GAResult : Type := mkGAResult {
  k0 : Q;
  k1 : Q;
  vs : Z;
  path_length : Q;
  max_steering : Q;
  objective_value : Q;
  has_collision : bool;
  trajectory : list pose;
  fitness_history : list Q;
  avg_fitness_history_r : list Q
}.

Section Optimizer.

(** [self._generate_trajectory(k0, k1, vs)] of the object's class, which
    reads the poses and the vehicle parameters of [self]: the Bezier curve
    of the base class or the polynomial curve of the parking subclass.  Both
    go through [math.cos], [math.sin], [math.atan2] and [math.sqrt]. *)
Variable _generate_trajectory :
  GeneticAlgorithm -> Q -> Q -> Z -> list pose * Q * Q.

Definition _evaluate_fitness (self : GeneticAlgorithm) (c : chromosome) : result Q :=
  d <- call_decode_individual self c ;;
  let '(k0, k1, vs) := d in
  let '(trajectory, path_length, max_steering) := _generate_trajectory self k0 k1 vs in
  let has_collision := _check_collision self trajectory in
  let path_length := if has_collision then 100 * path_length else path_length in
  let fitness := path_length ^ 2 + max_steering ^ 2 in
  Ok (- fitness).

(** The inner [while len(new_population) < self.population_size] loop. *)
Equations? fill_population (self : GeneticAlgorithm) (population : list chromosome)
    (fitness : list Q) (new_population : list chromosome)
    : Rand (list chromosome)
    by wf (population_size self - List.length new_population)%nat lt :=
  fill_population self population fitness new_population
    with lt_dec (List.length new_population) (population_size self) := {
    | left _ =>
        parent1 <~ _roulette_wheel_selection population fitness ;;
        parent2 <~ _roulette_wheel_selection population fitness ;;
        children <~ _crossover self parent1 parent2 ;;
        child1 <~ _mutate self (fst children) ;;
        child2 <~ _mutate self (snd children) ;;
        fill_population self population fitness (new_population ++ [child1; child2])
    | right _ => Ret new_population }.
Proof. rewrite length_app. simpl. lia. Qed.

(** The running best: [best_fitness] is [None] for [float('-inf')]. *)
Definition update_best (population : list chromosome) (fitness : list Q)
    (max_fitness_idx : nat) (best_individual : option chromosome)
    (best_fitness : option Q) : result (option chromosome * Q) :=
  f_max <- list_item fitness max_fitness_idx ;;
  match best_fitness with
  | None =>
      ind <- list_item population max_fitness_idx ;;
      Ok (Some ind, f_max)
  | Some bf =>
      if Qlt_le_dec bf f_max then
        ind <- list_item population max_fitness_idx ;;
        Ok (Some ind, f_max)
      else Ok (best_individual, bf)
  end.

(** The body of [for generation in range(self.generations)], iterated
    [n] times.  The progress line printed every tenth generation decodes the
    best individual again and has no effect on the state. *)
Fixpoint run_generations (n : nat) (self : GeneticAlgorithm)
    (population : list chromosome) (best_individual : option chromosome)
    (best_fitness : option Q)
    : Rand (GeneticAlgorithm * option chromosome) :=
  match n with
  | O => Ret (self, best_individual)
  | S n' =>
      fitness <~ lift (result_map (_evaluate_fitness self) population) ;;
      max_fitness_idx <~ lift (Np.argmax fitness) ;;
      b <~ lift (update_best population fitness max_fitness_idx best_individual
                             best_fitness) ;;
      let '(best_individual, best_fitness) := b in
      let avg_fitness := Np.mean fitness in
      match best_individual with
      | None => Throw AttributeError
      | Some best =>
          let self :=
            set_history self
              (best_fitness_history self ++ [- best_fitness])
              (avg_fitness_history self ++ [- avg_fitness])
              (best_individual_history self ++ [best]) in
          new_population <~ fill_population self population fitness [best] ;;
          let population := firstn (population_size self) new_population in
          run_generations n' self population (Some best) (Some best_fitness)
      end
  end.

Fixpoint create_population (self : GeneticAlgorithm) (n : nat) : Rand (list chromosome) :=
  match n with
  | O => Ret []
  | S n' =>
      ind <~ _create_individual self ;;
      rest <~ create_population self n' ;;
      Ret (ind :: rest)
  end.

(** [GeneticAlgorithm.run].  The result's histories are the object's own
    lists, which [run] extends and never clears. *)
Definition run (self : GeneticAlgorithm) : Rand (GAResult * GeneticAlgorithm) :=
  population <~ create_population self (population_size self) ;;
  st <~ run_generations (generations self) self population None None ;;
  let '(self, best_individual) := st in
  match best_individual with
  | None => Throw TypeError
  | Some best =>
      d <~ lift (call_decode_individual self best) ;;
      let '(k0, k1, vs) := d in
      let '(trajectory, path_length, max_steering) := _generate_trajectory self k0 k1 vs in
      let has_collision := _check_collision self trajectory in
      Ret (mkGAResult k0 k1 vs path_length max_steering
                      (path_length ^ 2 + max_steering ^ 2) has_collision trajectory
                      (best_fitness_history self) (avg_fitness_history self),
           self)
  end.

End Optimizer.

End GA.

(* --------------------------------------------------------------------- *)
(** ** The encoding of [genetic_algorithm.py] on doubles *)
(* --------------------------------------------------------------------- *)

Module Binary64.

(** The exponent of a positive rational: the [e] with [2^e <= q < 2^(e+1)]. *)
Definition exponent (q : Q) : Z :=
  let k := (Z.log2 (Qnum q) - Z.log2 (Zpos (Qden q)))%Z in
  if Qle_bool (Qpower 2 k) q then k else (k - 1)%Z.

(** The nearest integer, the even one of two at equal distance. *)
Definition round_half_even (q : Q) : Z :=
  let f := Qfloor q in
  match Qcompare (q - inject_Z f) (1 # 2) with
  | Lt => f
  | Gt => (f + 1)%Z
  | Eq => if Z.even f then f else (f + 1)%Z
  end.

(** The double nearest to [q] (53 significant bits, ties to even, gradual
    underflow below [2^-1022]).  A magnitude of [2^1024] or more, which a
    double does not hold, is outside the model. *)
Definition fl (q : Q) : Q :=
  if Qeq_bool q 0 then 0
  else
    let e := Z.max (exponent (Qabs q)) (-1022) in
    let ulp := Qpower 2 (e - 52) in
    inject_Z (round_half_even (q / ulp)) * ulp.

(** [a / b] on two floats, and on two [int]s (whose quotient Python rounds
    once). *)
Definition py_div (a b : Q) : result Q :=
  if Qeq_bool b 0 then Raise ZeroDivisionError else Ok (fl (a / b)).

(** [_encode_parameter]: the product [normalized * max_int] first turns the
    [int] into a double. *)
Definition _encode_parameter (value min_val max_val : Q) (bits : nat)
    : result (list bool) :=
  normalized <- py_div (fl (value - min_val)) (fl (max_val - min_val)) ;;
  let normalized := Np.clip normalized 0 1 in
  let max_int := (Z.shiftl 1 (Z.of_nat bits) - 1)%Z in
  let int_value := py_int (fl (normalized * fl (inject_Z max_int))) in
  Ok (GA.format_binary bits int_value).

Definition _decode_parameter (binary : list bool) (min_val max_val : Q) : result Q :=
  match binary with
  | [] => Raise ValueError
  | _ :: _ =>
      let int_value := GA.int_of_bits 0 binary in
      let max_int := (Z.shiftl 1 (Z.of_nat (List.length binary)) - 1)%Z in
      let normalized :=
        if (0 <? max_int)%Z then fl (inject_Z int_value / inject_Z max_int) else 0 in
      Ok (fl (min_val + fl (normalized * fl (max_val - min_val))))
  end.

End Binary64.

(* --------------------------------------------------------------------- *)
(** ** [parallel_parking_ga.py] *)
(* --------------------------------------------------------------------- *)

Module Parking.

Import GA.

(** [GeneticAlgorithmParking]: the optimizer object and the fields its
    subclass adds. *)
Record GeneticAlgorithmParking : Type := mkGAParking {
  base : GeneticAlgorithm;
  use_two_phase : bool;
  _original_initial_pose : pose;
  _original_final_pose : pose
}.

Definition set_base (self : GeneticAlgorithmParking) (b : GeneticAlgorithm) :=
  mkGAParking b (use_two_phase self) (_original_initial_pose self)
              (_original_final_pose self).

Definition new_GeneticAlgorithmParking (b : GeneticAlgorithm) (two_phase : bool) :=
  mkGAParking b two_phase (initial_pose b) (final_pose b).

(** The closure [forced_decode] that [_run_single_phase] builds. *)
Definition forced_decode (original_decode : chromosome -> result (Q * Q * Z))
    (force_direction : Z) : chromosome -> result (Q * Q * Z) :=
  fun c =>
    d <- original_decode c ;;
    let '(k0, k1, _) := d in
    Ok (k0, k1, force_direction).

(** The dictionary [_combine_phases] returns. *)
Record CombinedResult : Type := mkCombined {
  phase1 : GAResult;
  phase2 : GAResult;
  c_trajectory : list pose;
  c_path_length : Q;
  c_max_steering : Q;
  k0_phase1 : Q;
  k1_phase1 : Q;
  k0_phase2 : Q;
  k1_phase2 : Q;
  intermediate_point : option pose;
  c_fitness_history : list Q;
  c_has_collision : bool
}.

Definition _combine_phases (phase1 phase2 : GAResult) : CombinedResult :=
  {| phase1 := phase1;
     phase2 := phase2;
     c_trajectory := trajectory phase1 ++ trajectory phase2;
     c_path_length := path_length phase1 + path_length phase2;
     c_max_steering := py_max (max_steering phase1) (max_steering phase2);
     k0_phase1 := k0 phase1;
     k1_phase1 := k1 phase1;
     k0_phase2 := k0 phase2;
     k1_phase2 := k1 phase2;
     intermediate_point :=
       match trajectory phase1 with
       | [] => None
       | p :: rest => Some (last rest p)
       end;
     c_fitness_history := fitness_history phase1 ++ fitness_history phase2;
     c_has_collision := has_collision phase1 || has_collision phase2 |}.

Section TwoPhase.

Variable _generate_trajectory :
  GeneticAlgorithm -> Q -> Q -> Z -> list pose * Q * Q.

(** [math.sin] and [math.cos] of an angle given in degrees. *)
Variable sin_degrees cos_degrees : Q -> Q.

Definition _calculate_intermediate_point (self : GeneticAlgorithmParking) : result pose :=
  let '(xf, yf, thetaf) := _original_final_pose self in
  B <- dict_item "width" (vehicle_params (base self)) ;;
  A <- dict_item "length" (vehicle_params (base self)) ;;
  let vaga_width := (13 # 10) * B in
  let lateral_offset := vaga_width + B / 2 + 5 in
  let longitudinal_offset := A * (1 # 2) in
  let xi := xf - lateral_offset * sin_degrees thetaf
               + longitudinal_offset * cos_degrees thetaf in
  let yi := yf + lateral_offset * cos_degrees thetaf
               + longitudinal_offset * sin_degrees thetaf in
  Ok (xi, yi, thetaf).

(** [_run_single_phase]: patch the decoder, run the base-class [run] on the
    same object, put the saved decoder back. *)
Definition _run_single_phase (self : GeneticAlgorithmParking)
    (force_direction : option Z) : Rand (GAResult * GeneticAlgorithmParking) :=
  let original_decode := call_decode_individual (base self) in
  let self :=
    match force_direction with
    | Some d =>
        set_base self
          (set_decode_individual (base self) (Some (forced_decode original_decode d)))
    | None => self
    end in
  r <~ GA.run _generate_trajectory (base self) ;;
  let '(result, b) := r in
  let self := set_base self (set_decode_individual b (Some original_decode)) in
  Ret (result, self).

Definition with_histories (r : GAResult) (best avg : list Q) : GAResult :=
  mkGAResult (k0 r) (k1 r) (vs r) (path_length r) (max_steering r)
             (objective_value r) (has_collision r) (trajectory r) best avg.

(** [GeneticAlgorithmParking.run].  Both phases run on one object, so both
    phase results hold that object's history lists: by the time the phases
    are combined, the first result's histories have grown by the second
    phase's entries. *)
Definition run (self : GeneticAlgorithmParking)
    : Rand ((GAResult + CombinedResult) * GeneticAlgorithmParking) :=
  if negb (use_two_phase self) then
    r <~ _run_single_phase self None ;;
    Ret (inl (fst r), snd r)
  else
    intermediate <~ lift (_calculate_intermediate_point self) ;;
    let self := set_base self (set_poses (base self) (initial_pose (base self)) intermediate) in
    r1 <~ _run_single_phase self (Some 1%Z) ;;
    let '(phase1_result, self) := r1 in
    let self := set_base self (set_poses (base self) intermediate (_original_final_pose self)) in
    r2 <~ _run_single_phase self (Some (-1)%Z) ;;
    let '(phase2_result, self) := r2 in
    let self :=
      set_base self
        (set_poses (base self) (_original_initial_pose self) (_original_final_pose self)) in
    let phase1_result :=
      with_histories phase1_result (best_fitness_history (base self))
                     (avg_fitness_history (base self)) in
    Ret (inr (_combine_phases phase1_result phase2_result), self).

End TwoPhase.

End Parking.

(* --------------------------------------------------------------------- *)
(** ** [hybrid_system.py] *)
(* --------------------------------------------------------------------- *)

Module Hybrid.

Import GA.

(** The two [math] functions of this file, with angles in degrees:
    [math.sqrt] and [math.degrees(math.atan2(dy, dx))]. *)
Class FloatMath : Type := {
  math_sqrt : Q -> Q;
  atan2_degrees : Q -> Q -> Q
}.

(** The fields of [simulation.Vehicle] that the controller reads. *)
Record Vehicle : Type := mkVehicle {
  x : Q;
  y : Q;
  angle : Q;
  sensor_front : Q;
  sensor_lateral : Q;
  sensor_angle : Q;
  sensor_depth : Q
}.

Record TrajectoryTracker : Type := mkTracker {
  tr_trajectory : list pose;
  current_index : nat;
  lookahead_distance : Q;
  progress : nat;
  last_velocity : Q;
  last_steering : Q
}.

Definition new_TrajectoryTracker (trajectory : list pose) : TrajectoryTracker :=
  mkTracker trajectory 0 60 0 0 0.

Lemma inject_Z_pred (c : Z) : inject_Z (c - 1) == inject_Z c - 1.
Proof. unfold Z.sub. rewrite inject_Z_plus. unfold Qminus. reflexivity. Qed.

Lemma wrap_above_decreases (a : Q) :
  180 < a -> (Z.to_nat (Qceiling ((a - 360) / 360)) < Z.to_nat (Qceiling (a / 360)))%nat.
Proof.
  intros Ha.
  pose proof (Qceiling_lt ((a - 360) / 360)) as H1.
  pose proof (Qle_ceiling (a / 360)) as H2.
  assert (H3 : (a - 360) / 360 == a / 360 - 1) by field.
  assert (H4 : 0 < a / 360) by (apply Qlt_shift_div_l; lra).
  rewrite inject_Z_pred in H1.
  assert (H5 : inject_Z (Qceiling ((a - 360) / 360)) < inject_Z (Qceiling (a / 360))) by lra.
  assert (H6 : inject_Z 0 < inject_Z (Qceiling (a / 360))) by (change (inject_Z 0) with 0; lra).
  rewrite <- Zlt_Qlt in H5, H6. lia.
Qed.

(** [while angle_error > 180: angle_error -= 360].  Over the rationals the
    loop always ends.  On doubles it ends as long as subtracting 360 changes
    the value, which it does for every magnitude up to [2^53] and far beyond;
    the properties of the wrapped angles are stated for such magnitudes. *)
Equations wrap_above (a : Q) : Q by wf (Z.to_nat (Qceiling (a / 360))) lt :=
  wrap_above a with Qlt_le_dec 180 a := {
    | left _ => wrap_above (a - 360)
    | right _ => a }.
Next Obligation. apply wrap_above_decreases. assumption. Qed.

Lemma wrap_below_decreases (a : Q) :
  a < -180 ->
  (Z.to_nat (Qceiling (- (a + 360) / 360)) < Z.to_nat (Qceiling (- a / 360)))%nat.
Proof.
  intros Ha.
  pose proof (Qceiling_lt (- (a + 360) / 360)) as H1.
  pose proof (Qle_ceiling (- a / 360)) as H2.
  assert (H3 : - (a + 360) / 360 == - a / 360 - 1) by field.
  assert (H4 : 0 < - a / 360) by (apply Qlt_shift_div_l; lra).
  rewrite inject_Z_pred in H1.
  assert (H5 : inject_Z (Qceiling (- (a + 360) / 360)) < inject_Z (Qceiling (- a / 360)))
    by lra.
  assert (H6 : inject_Z 0 < inject_Z (Qceiling (- a / 360)))
    by (change (inject_Z 0) with 0; lra).
  rewrite <- Zlt_Qlt in H5, H6. lia.
Qed.

(** [while angle_error < -180: angle_error += 360], with the same proviso
    on doubles as [wrap_above]. *)
Equations wrap_below (a : Q) : Q by wf (Z.to_nat (Qceiling (- a / 360))) lt :=
  wrap_below a with Qlt_le_dec a (-180) := {
    | left _ => wrap_below (a + 360)
    | right _ => a }.
Next Obligation. apply wrap_below_decreases. assumption. Qed.

(** The two loops in sequence, as both call sites have them. *)
Definition wrap_180 (a : Q) : Q := wrap_below (wrap_above a).

Record TrackingError : Type := mkTrackingError {
  position_error : Q;
  angle_error : Q;
  reference_x : Q;
  reference_y : Q;
  reference_angle : Q
}.

Record HybridParkingSystem : Type := mkHybrid {
  fuzzy_system : Fuzzy.FuzzyInferenceSystem;
  h_initial_pose : pose;
  h_final_pose : pose;
  h_obstacles : list Obstacle;
  h_vehicle_params : dict Q;
  ga_result : option GAResult;
  trajectory_tracker : option TrajectoryTracker;
  ga_optimized : bool
}.

Definition new_HybridParkingSystem (fis : Fuzzy.FuzzyInferenceSystem)
    (initial_pose final_pose : pose) (obstacles : list Obstacle)
    (vehicle_params : dict Q) : HybridParkingSystem :=
  mkHybrid fis initial_pose final_pose obstacles vehicle_params None None false.

Definition set_tracker (self : HybridParkingSystem) (t : TrajectoryTracker) :=
  mkHybrid (fuzzy_system self) (h_initial_pose self) (h_final_pose self)
           (h_obstacles self) (h_vehicle_params self) (ga_result self) (Some t)
           (ga_optimized self).

Definition set_fuzzy_system (self : HybridParkingSystem)
    (fis : Fuzzy.FuzzyInferenceSystem) :=
  mkHybrid fis (h_initial_pose self) (h_final_pose self)
           (h_obstacles self) (h_vehicle_params self) (ga_result self)
           (trajectory_tracker self) (ga_optimized self).

(** The sensor readings handed to the fuzzy engine. *)
Definition fuzzy_inputs (vehicle : Vehicle) : dict Q :=
  [("distancia_frontal"%string, sensor_front vehicle);
   ("distancia_lateral"%string, sensor_lateral vehicle);
   ("angulo_veiculo"%string, sensor_angle vehicle);
   ("profundidade_vaga"%string, sensor_depth vehicle)].

Section Controller.

Context {M : FloatMath}.

(** The [for i in range(search_start, search_end)] loop of
    [get_reference_point]; [min_dist] is [None] for [float('inf')]. *)
Fixpoint closest_in_window (trajectory : list pose) (vehicle_x vehicle_y : Q)
    (window : list nat) (min_dist : option Q) (closest_idx : nat) : nat :=
  match window with
  | [] => closest_idx
  | i :: rest =>
      let '(px, py, _) := nth i trajectory (0, 0, 0) in
      let dist := math_sqrt ((px - vehicle_x) ^ 2 + (py - vehicle_y) ^ 2) in
      let closer :=
        match min_dist with
        | None => true
        | Some m => if Qlt_le_dec dist m then true else false
        end in
      if closer then closest_in_window trajectory vehicle_x vehicle_y rest (Some dist) i
      else closest_in_window trajectory vehicle_x vehicle_y rest min_dist closest_idx
  end.

Definition get_reference_point (self : TrajectoryTracker) (vehicle_x vehicle_y : Q)
    : pose * TrajectoryTracker :=
  match tr_trajectory self with
  | [] => ((vehicle_x, vehicle_y, 0), self)
  | _ :: _ =>
      let n := List.length (tr_trajectory self) in
      let search_start := (progress self - 10)%nat in
      let search_end := Nat.min n (progress self + 50) in
      let closest_idx :=
        closest_in_window (tr_trajectory self) vehicle_x vehicle_y
                          (seq search_start (search_end - search_start))
                          None (progress self) in
      let base_lookahead := Z.max 5 (py_int (lookahead_distance self / 4)) in
      let lookahead_idx :=
        Z.to_nat (Z.min (Z.of_nat closest_idx + base_lookahead) (Z.of_nat n - 1)) in
      let ref := nth lookahead_idx (tr_trajectory self) (0, 0, 0) in
      (ref,
       mkTracker (tr_trajectory self) lookahead_idx (lookahead_distance self)
                 closest_idx (last_velocity self) (last_steering self))
  end.

Definition calculate_tracking_error (self : TrajectoryTracker)
    (vehicle_x vehicle_y vehicle_angle : Q) : TrackingError * TrajectoryTracker :=
  let '((x_ref, y_ref, angle_ref), self) := get_reference_point self vehicle_x vehicle_y in
  let position_error :=
    math_sqrt ((x_ref - vehicle_x) ^ 2 + (y_ref - vehicle_y) ^ 2) in
  let angle_error := angle_ref - vehicle_angle in
  let angle_error := wrap_above angle_error in
  let angle_error := wrap_below angle_error in
  (mkTrackingError position_error angle_error x_ref y_ref angle_ref, self).

Definition _calculate_tracking_control (self : HybridParkingSystem) (vehicle : Vehicle)
    : result (dict Q * HybridParkingSystem) :=
  match trajectory_tracker self with
  | None => Raise AttributeError
  | Some tracker =>
      let '(tracking_error, tracker) :=
        calculate_tracking_error tracker (x vehicle) (y vehicle) (angle vehicle) in
      let angle_error := angle_error tracking_error in
      let ref_x := reference_x tracking_error in
      let ref_y := reference_y tracking_error in
      let ref_angle := reference_angle tracking_error in
      let dx := ref_x - x vehicle in
      let dy := ref_y - y vehicle in
      let dist_to_ref := math_sqrt (dx * dx + dy * dy) in
      let desired_angle :=
        if Qlt_le_dec (1 # 10) dist_to_ref then atan2_degrees dy dx else ref_angle in
      let direction_error := desired_angle - angle vehicle in
      let direction_error := wrap_above direction_error in
      let direction_error := wrap_below direction_error in
      let base_velocity := py_min 25 (py_max 8 (dist_to_ref * (1 # 2))) in
      let angle_error_abs := Qabs angle_error in
      let base_velocity :=
        if Qlt_le_dec 45 angle_error_abs then base_velocity * (4 # 10)
        else if Qlt_le_dec 25 angle_error_abs then base_velocity * (7 # 10)
        else if Qlt_le_dec 10 angle_error_abs then base_velocity * (9 # 10)
        else base_velocity in
      let base_velocity :=
        if Qlt_le_dec dist_to_ref 15 then base_velocity * (6 # 10) else base_velocity in
      let kp_direction := 1 # 2 in
      let kp_angle := 3 # 10 in
      let steering_angle := direction_error * kp_direction + angle_error * kp_angle in
      let steering_angle := Np.clip steering_angle (-40) 40 in
      let alpha := 7 # 10 in
      let steering_angle :=
        alpha * last_steering tracker + (1 - alpha) * steering_angle in
      let tracker :=
        mkTracker (tr_trajectory tracker) (current_index tracker)
                  (lookahead_distance tracker) (progress tracker)
                  (last_velocity tracker) steering_angle in
      match ga_result self with
      | None => Raise TypeError
      | Some res =>
          let base_velocity :=
            if Z.eqb (vs res) (-1) then - Qabs base_velocity else base_velocity in
          let alpha_vel := 6 # 10 in
          let base_velocity :=
            alpha_vel * last_velocity tracker + (1 - alpha_vel) * base_velocity in
          let tracker :=
            mkTracker (tr_trajectory tracker) (current_index tracker)
                      (lookahead_distance tracker) (progress tracker)
                      base_velocity (last_steering tracker) in
          let base_velocity :=
            if Qlt_le_dec (sensor_front vehicle) 25 then base_velocity * (3 # 10)
            else if Qlt_le_dec (sensor_front vehicle) 40 then base_velocity * (6 # 10)
            else base_velocity in
          Ok ([("velocidade"%string, base_velocity);
               ("angulo_direcao"%string, steering_angle)],
              set_tracker self tracker)
      end
  end.

(** [get_fuzzy_control]. *)
Definition get_fuzzy_control (self : HybridParkingSystem) (vehicle : Vehicle)
    (use_tracking : bool) : result (dict Q * HybridParkingSystem) :=
  if negb (ga_optimized self) || negb use_tracking then
    r <- Fuzzy.infer (fuzzy_system self) (fuzzy_inputs vehicle) ;;
    let '(fuzzy_outputs, fis) := r in
    Ok (fuzzy_outputs, set_fuzzy_system self fis)
  else
    t <- _calculate_tracking_control self vehicle ;;
    let '(tracking_control, self) := t in
    r <- Fuzzy.infer (fuzzy_system self) (fuzzy_inputs vehicle) ;;
    let '(fuzzy_outputs, fis) := r in
    let self := set_fuzzy_system self fis in
    if Qlt_le_dec (sensor_front vehicle) 15 then
      fv <- dict_item "velocidade" fuzzy_outputs ;;
      tv <- dict_item "velocidade" tracking_control ;;
      fs <- dict_item "angulo_direcao" fuzzy_outputs ;;
      ts <- dict_item "angulo_direcao" tracking_control ;;
      let final_velocity := fv * (7 # 10) + tv * (3 # 10) in
      let final_steering := fs * (7 # 10) + ts * (3 # 10) in
      Ok ([("velocidade"%string, final_velocity);
           ("angulo_direcao"%string, final_steering)], self)
    else if Qlt_le_dec (sensor_front vehicle) 30 then
      tv <- dict_item "velocidade" tracking_control ;;
      fv <- dict_item "velocidade" fuzzy_outputs ;;
      ts <- dict_item "angulo_direcao" tracking_control ;;
      fs <- dict_item "angulo_direcao" fuzzy_outputs ;;
      let final_velocity := tv * (75 # 100) + fv * (25 # 100) in
      let final_steering := ts * (8 # 10) + fs * (2 # 10) in
      Ok ([("velocidade"%string, final_velocity);
           ("angulo_direcao"%string, final_steering)], self)
    else
      tv <- dict_item "velocidade" tracking_control ;;
      fv <- dict_item "velocidade" fuzzy_outputs ;;
      ts <- dict_item "angulo_direcao" tracking_control ;;
      fs <- dict_item "angulo_direcao" fuzzy_outputs ;;
      let final_velocity := tv * (95 # 100) + fv * (5 # 100) in
      let final_steering := ts * (9 # 10) + fs * (1 # 10) in
      Ok ([("velocidade"%string, final_velocity);
           ("angulo_direcao"%string, final_steering)], self).

Definition get_ga_trajectory (self : HybridParkingSystem) : option (list pose) :=
  match ga_result self with
  | Some r => Some (trajectory r)
  | None => None
  end.

Variable _generate_trajectory :
  GeneticAlgorithm -> Q -> Q -> Z -> list pose * Q * Q.

(** [optimize_trajectory]: a fresh optimizer with the constructor's default
    rates, ranges and precision; its result and a fresh tracker replace the
    stored ones. *)
Definition optimize_trajectory (self : HybridParkingSystem)
    (population_size generations : nat) : Rand (GAResult * HybridParkingSystem) :=
  ga <~ lift (new_GeneticAlgorithm (h_initial_pose self) (h_final_pose self)
                (h_obstacles self) (h_vehicle_params self) population_size
                generations (6 # 10) (4 # 100) (-2, 2) (-2, 2) (1 # 100000000)) ;;
  r <~ GA.run _generate_trajectory ga ;;
  let res := fst r in
  Ret (res,
       mkHybrid (fuzzy_system self) (h_initial_pose self) (h_final_pose self)
                (h_obstacles self) (h_vehicle_params self) (Some res)
                (Some (new_TrajectoryTracker (trajectory res))) true).

Definition reoptimize_trajectory (self : HybridParkingSystem) (new_initial_pose : pose)
    (population_size generations : nat) : Rand (GAResult * HybridParkingSystem) :=
  optimize_trajectory
    (mkHybrid (fuzzy_system self) new_initial_pose (h_final_pose self)
              (h_obstacles self) (h_vehicle_params self) (ga_result self)
              (trajectory_tracker self) (ga_optimized self))
    population_size generations.

End Controller.

End Hybrid.

(* --------------------------------------------------------------------- *)
(** ** [simulation.py] *)
(* --------------------------------------------------------------------- *)

Module Simulation.

(** [simulation.Vehicle]. *)
Record Vehicle : Type := mkVehicle {
  x : Q;
  y : Q;
  angle : Q;
  length : Q;
  width : Q;
  steering_angle : Q;
  velocity : Q;
  max_steering_angle : Q;
  wheelbase : Q;
  trajectory : list (Q * Q);
  max_trajectory_points : nat;
  sensor_front : Q;
  sensor_lateral : Q;
  sensor_angle : Q;
  sensor_depth : Q;
  is_colliding : bool;
  is_parked : bool;
  parking_time : Q
}.

(** [Vehicle.__init__]. *)
Definition new_Vehicle (x y angle length width : Q) : Vehicle :=
  {| x := x; y := y; angle := angle; length := length; width := width;
     steering_angle := 0; velocity := 0; max_steering_angle := 40;
     wheelbase := length * (7 # 10);
     trajectory := [(x, y)]; max_trajectory_points := 500;
     sensor_front := 0; sensor_lateral := 0; sensor_angle := 0; sensor_depth := 0;
     is_colliding := false; is_parked := false; parking_time := 0 |}.

(** [simulation.ParkingSpot]. *)
Record ParkingSpot : Type := mkParkingSpot {
  spot_x : Q;
  spot_y : Q;
  spot_length : Q;
  spot_width : Q;
  x_min : Q;
  x_max : Q;
  y_min : Q;
  y_max : Q
}.

Definition new_ParkingSpot (x y length width : Q) : ParkingSpot :=
  {| spot_x := x; spot_y := y; spot_length := length; spot_width := width;
     x_min := x; x_max := x + length; y_min := y; y_max := y + width |}.

(** [ParkingSpot.is_inside]. *)
Definition is_inside (self : ParkingSpot) (points : list (Q * Q)) (margin : Q) : bool :=
  forallb
    (fun '(px, py) =>
       Qle_bool (x_min self - margin) px && Qle_bool px (x_max self + margin)
       && Qle_bool (y_min self - margin) py && Qle_bool py (y_max self + margin))
    points.

Definition get_target_position (self : ParkingSpot) : Q * Q * Q :=
  (spot_x self + spot_length self / 2, spot_y self + spot_width self / 2, 0).

(** [Obstacle.check_collision], on the obstacle record of the optimizer. *)
Definition check_collision (self : GA.Obstacle) (points : list (Q * Q)) : bool :=
  let '(x_min, y_min, x_max, y_max) := GA.get_bounds self in
  existsb
    (fun '(px, py) =>
       Qle_bool x_min px && Qle_bool px x_max && Qle_bool y_min py && Qle_bool py y_max)
    points.

(** [a % b] on floats for a positive [b], exactly.  On doubles the
    remainder of a negative number next to 0 rounds to [b] itself. *)
Definition py_mod (a b : Q) : Q := a - b * inject_Z (Qfloor (a / b)).

Definition set_position (self : Vehicle) (x y angle : Q) (trajectory : list (Q * Q))
    : Vehicle :=
  mkVehicle x y angle (length self) (width self) (steering_angle self) (velocity self)
            (max_steering_angle self) (wheelbase self) trajectory
            (max_trajectory_points self) (sensor_front self) (sensor_lateral self)
            (sensor_angle self) (sensor_depth self) (is_colliding self) (is_parked self)
            (parking_time self).

Definition set_sensors (self : Vehicle) (front lateral angle depth : Q) (colliding : bool)
    : Vehicle :=
  mkVehicle (x self) (y self) (Simulation.angle self) (length self) (width self)
            (steering_angle self) (velocity self) (max_steering_angle self)
            (wheelbase self) (trajectory self) (max_trajectory_points self)
            front lateral angle depth colliding (is_parked self) (parking_time self).

Definition set_parking (self : Vehicle) (parked : bool) (time : Q) : Vehicle :=
  mkVehicle (x self) (y self) (angle self) (length self) (width self)
            (steering_angle self) (velocity self) (max_steering_angle self)
            (wheelbase self) (trajectory self) (max_trajectory_points self)
            (sensor_front self) (sensor_lateral self) (sensor_angle self)
            (sensor_depth self) (is_colliding self) parked time.

Definition set_control (self : Vehicle) (steering velocity : Q) : Vehicle :=
  mkVehicle (x self) (y self) (angle self) (length self) (width self)
            steering velocity (max_steering_angle self)
            (wheelbase self) (trajectory self) (max_trajectory_points self)
            (sensor_front self) (sensor_lateral self) (sensor_angle self)
            (sensor_depth self) (is_colliding self) (is_parked self) (parking_time self).

(** [ParkingSimulation]. *)
Record ParkingSimulation : Type := mkSimulation {
  fuzzy_system : Fuzzy.FuzzyInferenceSystem;
  sim_width : Q;
  sim_height : Q;
  parking_spot : ParkingSpot;
  obstacles : list GA.Obstacle;
  vehicle : Vehicle;
  time_elapsed : Q;
  control_updates : nat
}.

(** [reset_vehicle]. *)
Definition reset_vehicle (self : ParkingSimulation) (random_position : bool)
    : Rng.Rand ParkingSimulation :=
  Rng.bind
    (if random_position then
       Rng.bind (Rng.uniform 100 400) (fun x =>
       Rng.bind (Rng.uniform 200 400) (fun y =>
       Rng.bind (Rng.uniform (-45) 45) (fun angle =>
       Rng.Ret (x, y, angle))))
     else Rng.Ret (250, 350, -15))
    (fun '(x, y, angle) =>
       Rng.Ret (mkSimulation (fuzzy_system self) (sim_width self) (sim_height self)
                             (parking_spot self) (obstacles self)
                             (new_Vehicle x y angle 50 25) 0 0)).

(** [ParkingSimulation.__init__]: the vehicle is the one [reset_vehicle]
    places without a random position. *)
Definition new_ParkingSimulation (fuzzy_system : Fuzzy.FuzzyInferenceSystem)
    : ParkingSimulation :=
  mkSimulation fuzzy_system 800 600 (new_ParkingSpot 600 250 150 80)
               [GA.mkObstacle 600 170 150 10; GA.mkObstacle 600 410 150 10;
                GA.mkObstacle 750 170 10 250]
               (new_Vehicle 250 350 (-15) 50 25) 0 0.

Section Kinematics.

(** [math.cos], [math.sin], [math.tan], [math.radians] and [math.degrees]. *)
Variable math_cos math_sin math_tan math_radians math_degrees : Q -> Q.

Definition get_corners (self : Vehicle) : list (Q * Q) :=
  let cx := x self in
  let cy := y self in
  let theta := math_radians (angle self) in
  let half_length := length self / 2 in
  let half_width := width self / 2 in
  let local_corners :=
    [(- half_length, - half_width); (half_length, - half_width);
     (half_length, half_width); (- half_length, half_width)] in
  map (fun '(lx, ly) =>
         (cx + lx * math_cos theta - ly * math_sin theta,
          cy + lx * math_sin theta + ly * math_cos theta))
      local_corners.

Definition get_front_center (self : Vehicle) : Q * Q :=
  let theta := math_radians (angle self) in
  let dx := (length self / 2) * math_cos theta in
  let dy := (length self / 2) * math_sin theta in
  (x self + dx, y self + dy).

Definition get_rear_center (self : Vehicle) : Q * Q :=
  let theta := math_radians (angle self) in
  let dx := (length self / 2) * math_cos theta in
  let dy := (length self / 2) * math_sin theta in
  (x self - dx, y self - dy).

(** [update_kinematics]. *)
Definition update_kinematics (self : Vehicle) (dt : Q) : result Vehicle :=
  if Qlt_le_dec (Qabs (velocity self)) (1 # 100) then Ok self
  else
    let theta := math_radians (angle self) in
    let delta := math_radians (steering_angle self) in
    moved <-
      (if Qlt_le_dec (1 # 1000) (Qabs delta) then
         turning_radius <- py_div (wheelbase self) (math_tan delta) ;;
         omega <- py_div (velocity self) turning_radius ;;
         let dx := velocity self * math_cos theta * dt in
         let dy := velocity self * math_sin theta * dt in
         let dtheta := omega * dt in
         Ok (x self + dx, y self + dy, angle self + math_degrees dtheta)
       else
         let dx := velocity self * math_cos theta * dt in
         let dy := velocity self * math_sin theta * dt in
         Ok (x self + dx, y self + dy, angle self)) ;;
    let '(x', y', angle') := moved in
    let angle' := py_mod (angle' + 180) 360 - 180 in
    let trajectory := trajectory self ++ [(x', y')] in
    let trajectory :=
      if (max_trajectory_points self <? List.length trajectory)%nat
      then tl trajectory else trajectory in
    Ok (set_position self x' y' angle' trajectory).

(** [update_sensors]. *)
Definition update_sensors (self : Vehicle) (parking_spot : ParkingSpot)
    (obstacles : list GA.Obstacle) : Vehicle :=
  let front_pos := get_front_center self in
  let target_x := spot_x parking_spot in
  let front := Qabs (target_x - fst front_pos) in
  let parking_center_y := spot_y parking_spot + spot_width parking_spot / 2 in
  let vehicle_center_y := y self in
  let lateral := vehicle_center_y - parking_center_y in
  let vehicle_center_x := x self in
  let depth :=
    if Qle_bool (spot_x parking_spot) vehicle_center_x
    then py_min (vehicle_center_x - spot_x parking_spot) 150
    else 0 in
  let vehicle_corners := get_corners self in
  let colliding :=
    existsb (fun obstacle => check_collision obstacle vehicle_corners) obstacles in
  set_sensors self front lateral (angle self) depth colliding.

(** [check_parked]: the value returned and the vehicle with its parking
    clock and flag. *)
Definition check_parked (self : Vehicle) (parking_spot : ParkingSpot) (dt : Q)
    : bool * Vehicle :=
  let corners := get_corners self in
  let inside_parking := is_inside parking_spot corners 5 in
  let well_aligned := if Qlt_le_dec (Qabs (sensor_angle self)) 5 then true else false in
  let well_centered := if Qlt_le_dec (Qabs (sensor_lateral self)) 10 then true else false in
  let good_front_distance :=
    (if Qlt_le_dec 10 (sensor_front self) then true else false)
    && (if Qlt_le_dec (sensor_front self) 100 then true else false) in
  let almost_stopped := if Qlt_le_dec (Qabs (velocity self)) 10 then true else false in
  if inside_parking && well_aligned && well_centered && good_front_distance
     && almost_stopped then
    let time := parking_time self + dt in
    if Qlt_le_dec 1 time then (true, set_parking self true time)
    else (false, set_parking self (is_parked self) time)
  else (false, set_parking self (is_parked self) 0).

Definition set_vehicle (self : ParkingSimulation) (v : Vehicle) (time : Q)
    (updates : nat) (fis : Fuzzy.FuzzyInferenceSystem) : ParkingSimulation :=
  mkSimulation fis (sim_width self) (sim_height self) (parking_spot self)
               (obstacles self) v time updates.

(** [ParkingSimulation.update]: the value returned and the simulation after
    the step. *)
Definition update (self : ParkingSimulation) (dt : Q)
    : result (bool * ParkingSimulation) :=
  let time := time_elapsed self + dt in
  let v := update_sensors (vehicle self) (parking_spot self) (obstacles self) in
  let '(parked, v) := check_parked v (parking_spot self) dt in
  if parked then Ok (false, set_vehicle self v time (control_updates self) (fuzzy_system self))
  else if is_colliding v then
    Ok (false,
        set_vehicle self (set_control v (steering_angle v) 0) time (control_updates self)
                    (fuzzy_system self))
  else
    let fuzzy_inputs :=
      [("distancia_frontal"%string, sensor_front v);
       ("distancia_lateral"%string, sensor_lateral v);
       ("angulo_veiculo"%string, sensor_angle v);
       ("profundidade_vaga"%string, sensor_depth v)] in
    r <- Fuzzy.infer (fuzzy_system self) fuzzy_inputs ;;
    let '(fuzzy_outputs, fis) := r in
    fuzzy_outputs <-
      (if Qle_bool 60 (sensor_depth v) && Qle_bool (sensor_depth v) 90 then
         let distance_from_center := Qabs (sensor_depth v - 75) in
         if Qle_bool distance_from_center 10 then
           Ok (dict_set "angulo_direcao" 0 (dict_set "velocidade" 0 fuzzy_outputs))
         else
           velocidade <- dict_item "velocidade" fuzzy_outputs ;;
           Ok (dict_set "velocidade" (py_min velocidade 5) fuzzy_outputs)
       else Ok fuzzy_outputs) ;;
    steering <- dict_item "angulo_direcao" fuzzy_outputs ;;
    velocidade <- dict_item "velocidade" fuzzy_outputs ;;
    let v := set_control v steering velocidade in
    let updates := S (control_updates self) in
    v <- update_kinematics v dt ;;
    Ok (if Qlt_le_dec 30 time then false else true, set_vehicle self v time updates fis).

End Kinematics.

End Simulation.

(* --------------------------------------------------------------------- *)
(** ** The controller the repository ships *)
(* --------------------------------------------------------------------- *)

Module Shipped.

Import Fuzzy.

Open Scope string_scope.

(** A run of [add_term] calls on one variable. *)
Fixpoint add_terms (v : FuzzyVariable) (ts : list (string * string * list Q))
    : result FuzzyVariable :=
  match ts with
  | [] => Ok v
  | (term_name, mf_type, params) :: rest =>
      v' <- add_term v term_name mf_type params ;;
      add_terms v' rest
  end.

Definition rule (a c : dict string) : FuzzyRule := mkFuzzyRule a c.

(** [create_centered_parking_system]. *)
Definition create_centered_parking_system : result FuzzyInferenceSystem :=
  let fis := new_FuzzyInferenceSystem "Sistema Estacionamento com Parada Centralizada" in
  dist_frontal <-
    add_terms (new_FuzzyVariable "distancia_frontal" 0 400 400)
      [("muito_perto", "trapmf", [0; 0; 5; 10]);
       ("perto", "trimf", [8; 25; 50]);
       ("medio", "trimf", [40; 100; 180]);
       ("longe", "trimf", [150; 250; 350]);
       ("muito_longe", "trapmf", [320; 380; 400; 400])] ;;
  let fis := add_input fis dist_frontal in
  dist_lateral <-
    add_terms (new_FuzzyVariable "distancia_lateral" (-80) 80 160)
      [("muito_acima", "trapmf", [-80; -80; -40; -20]);
       ("acima", "trimf", [-30; -15; -5]);
       ("centrado", "trimf", [-8; 0; 8]);
       ("abaixo", "trimf", [5; 15; 30]);
       ("muito_abaixo", "trapmf", [20; 40; 80; 80])] ;;
  let fis := add_input fis dist_lateral in
  angulo <-
    add_terms (new_FuzzyVariable "angulo_veiculo" (-90) 90 180)
      [("forte_esquerda", "trapmf", [-90; -90; -60; -30]);
       ("esquerda", "trimf", [-50; -25; -5]);
       ("alinhado", "trimf", [-15; 0; 15]);
       ("direita", "trimf", [5; 25; 50]);
       ("forte_direita", "trapmf", [30; 60; 90; 90])] ;;
  let fis := add_input fis angulo in
  profundidade <-
    add_terms (new_FuzzyVariable "profundidade_vaga" 0 150 150)
      [("entrada", "trapmf", [0; 0; 10; 30]);
       ("inicio", "trimf", [20; 40; 58]);
       ("centro", "trimf", [55; 70; 85]);
       ("fundo", "trimf", [80; 105; 130]);
       ("final", "trapmf", [125; 140; 150; 150])] ;;
  let fis := add_input fis profundidade in
  ang_direcao <-
    add_terms (new_FuzzyVariable "angulo_direcao" (-40) 40 80)
      [("forte_esquerda", "trapmf", [-40; -40; -30; -20]);
       ("esquerda", "trimf", [-25; -15; -5]);
       ("reto", "trimf", [-5; 0; 5]);
       ("direita", "trimf", [5; 15; 25]);
       ("forte_direita", "trapmf", [20; 30; 40; 40])] ;;
  let fis := add_output fis ang_direcao in
  velocidade <-
    add_terms (new_FuzzyVariable "velocidade" 0 100 100)
      [("parado", "trapmf", [0; 0; 1; 3]);
       ("muito_lento", "trimf", [2; 5; 10]);
       ("lento", "trimf", [8; 15; 25]);
       ("medio", "trimf", [20; 35; 55]);
       ("rapido", "trapmf", [50; 70; 100; 100])] ;;
  let fis := add_output fis velocidade in
  let fis := add_rule fis (rule [("profundidade_vaga", "centro")]
                                [("velocidade", "parado"); ("angulo_direcao", "reto")]) in
  let fis := add_rule fis (rule [("profundidade_vaga", "inicio")]
                                [("velocidade", "lento"); ("angulo_direcao", "reto")]) in
  let fis := add_rule fis (rule [("profundidade_vaga", "entrada")]
                                [("velocidade", "lento"); ("angulo_direcao", "reto")]) in
  let fis := add_rule fis (rule [("profundidade_vaga", "fundo")]
                                [("velocidade", "muito_lento"); ("angulo_direcao", "reto")]) in
  let fis := add_rule fis (rule [("profundidade_vaga", "final")]
                                [("velocidade", "parado"); ("angulo_direcao", "reto")]) in
  let fis := add_rule fis (rule [("distancia_frontal", "muito_perto")]
                                [("velocidade", "parado"); ("angulo_direcao", "reto")]) in
  let fis := add_rule fis (rule [("distancia_frontal", "longe")]
                                [("velocidade", "rapido"); ("angulo_direcao", "reto")]) in
  let fis := add_rule fis (rule [("angulo_veiculo", "esquerda")]
                                [("angulo_direcao", "direita"); ("velocidade", "lento")]) in
  let fis := add_rule fis (rule [("angulo_veiculo", "direita")]
                                [("angulo_direcao", "esquerda"); ("velocidade", "lento")]) in
  let fis := add_rule fis (rule [("distancia_lateral", "muito_abaixo")]
                                [("angulo_direcao", "esquerda"); ("velocidade", "lento")]) in
  let fis := add_rule fis (rule [("distancia_lateral", "abaixo")]
                                [("angulo_direcao", "esquerda"); ("velocidade", "lento")]) in
  let fis := add_rule fis (rule [("distancia_lateral", "acima")]
                                [("angulo_direcao", "direita"); ("velocidade", "lento")]) in
  let fis := add_rule fis (rule [("distancia_lateral", "muito_acima")]
                                [("angulo_direcao", "direita"); ("velocidade", "lento")]) in
  Ok fis.

(** The seventh rule: far from the wall, drive fast. *)
Definition rule_longe : FuzzyRule :=
  rule [("distancia_frontal", "longe")]
       [("velocidade", "rapido"); ("angulo_direcao", "reto")].

(** A reading of the depth sensor alone. *)
Definition depth_only : dict Q := [("profundidade_vaga", 70)].

(** The variables of the shipped controller under one rule that names a
    single output (scenario B of the specification). *)
Definition single_rule_system : result FuzzyInferenceSystem :=
  fis <- create_centered_parking_system ;;
  Ok (mkFIS (fis_name fis) (inputs fis) (outputs fis)
            [rule [("profundidade_vaga", "centro")] [("velocidade", "parado")]]
            (last_input_memberships fis)).

Definition from_ok {A} (r : result A) (default : A) : A :=
  match r with Ok a => a | Raise _ => default end.

Definition shipped_system : FuzzyInferenceSystem :=
  from_ok create_centered_parking_system (new_FuzzyInferenceSystem "").

Definition scenario_B_system : FuzzyInferenceSystem :=
  from_ok single_rule_system (new_FuzzyInferenceSystem "").

End Shipped.

(* --------------------------------------------------------------------- *)
(** ** Notions and concrete objects used to state the properties *)
(* --------------------------------------------------------------------- *)

Module Scenario.

Import GA Hybrid.

Open Scope string_scope.

(** The blend of [get_fuzzy_control] in the specification's words. *)
Definition specified_velocity (sensor_front fuzzy tracking : Q) : Q :=
  if Qlt_le_dec sensor_front 15 then (7 # 10) * fuzzy + (3 # 10) * tracking
  else if Qlt_le_dec sensor_front 30 then (75 # 100) * tracking + (25 # 100) * fuzzy
  else (95 # 100) * tracking + (5 # 100) * fuzzy.

Definition specified_steering (sensor_front fuzzy tracking : Q) : Q :=
  if Qlt_le_dec sensor_front 15 then (7 # 10) * fuzzy + (3 # 10) * tracking
  else if Qlt_le_dec sensor_front 30 then (8 # 10) * tracking + (2 # 10) * fuzzy
  else (9 # 10) * tracking + (1 # 10) * fuzzy.

(** A rational stand-in for the two [math] functions: the square root is
    exact on squares of integers, the angle on the axes and the diagonals. *)
Definition coarse_sqrt (q : Q) : Q := inject_Z (Z.sqrt (Qfloor q)).

Definition coarse_atan2_degrees (dy dx : Q) : Q :=
  match dy ?= 0, dx ?= 0 with
  | Eq, Lt => 180
  | Eq, _ => 0
  | Gt, Eq => 90
  | Gt, Gt => 45
  | Gt, Lt => 135
  | Lt, Eq => -90
  | Lt, Gt => -45
  | Lt, Lt => -135
  end.

Definition coarse_math : FloatMath :=
  {| math_sqrt := coarse_sqrt; atan2_degrees := coarse_atan2_degrees |}.

(** The environment of [main_hybrid.py]. *)
Definition obstacles : list Obstacle :=
  [mkObstacle 600 170 150 10; mkObstacle 600 410 150 10; mkObstacle 750 170 10 250].

Definition vehicle_params : dict Q :=
  [("length", 50); ("width", 25); ("wheelbase", 35); ("max_steering", 40)].

Definition initial_pose : pose := (250, 350, -15).
Definition final_pose : pose := (675, 290, 0).

(** The optimizer [optimize_trajectory] constructs, with the population and
    generation counts given. *)
Definition optimizer (population_size generations : nat) : result GeneticAlgorithm :=
  new_GeneticAlgorithm initial_pose final_pose obstacles vehicle_params
    population_size generations (6 # 10) (4 # 100) (-2, 2) (-2, 2) (1 # 100000000).

Definition empty_optimizer : GeneticAlgorithm :=
  mkGA initial_pose final_pose [] [] 0 0 0 0 (0, 0) (0, 0) 0 0 0 0 0 [] [] [] None.

Definition small_optimizer : GeneticAlgorithm :=
  match optimizer 4 3 with Ok ga => ga | Raise _ => empty_optimizer end.

(** An optimizer with two individuals, two generations and a coarse
    precision (8 bits per parameter). *)
Definition coarse_optimizer : GeneticAlgorithm :=
  match new_GeneticAlgorithm initial_pose final_pose obstacles vehicle_params
          2 2 (6 # 10) (4 # 100) (-2, 2) (-2, 2) (1 # 10) with
  | Ok ga => ga
  | Raise _ => empty_optimizer
  end.

(** The same optimizer asked for no generation at all. *)
Definition idle_optimizer : GeneticAlgorithm :=
  match new_GeneticAlgorithm initial_pose final_pose obstacles vehicle_params
          2 0 (6 # 10) (4 # 100) (-2, 2) (-2, 2) (1 # 10) with
  | Ok ga => ga
  | Raise _ => empty_optimizer
  end.

(** The parking optimizer over the same settings, in two-phase mode. *)
Definition parking_optimizer : Parking.GeneticAlgorithmParking :=
  Parking.new_GeneticAlgorithmParking coarse_optimizer true.

(** The same optimizer holding the history of an earlier run that recorded
    the cost 1. *)
Definition reused_optimizer : GeneticAlgorithm :=
  set_history coarse_optimizer [1] [1] [[]].

(** The pose one unit ahead of the initial one, as the target of a first,
    short run. *)
Definition near_pose : pose := (251, 350, -15).

(** A straight path along the x axis, a result that holds it, and a
    controller that has stored both. *)
Definition straight_path : list pose :=
  map (fun i => (600 + 5 * inject_Z (Z.of_nat i), 290, 0)) (seq 0 16).

Definition straight_result : GAResult :=
  mkGAResult 1 1 1 75 0 5625 false straight_path [5625] [5625].

Definition tracking_system : HybridParkingSystem :=
  mkHybrid Shipped.shipped_system initial_pose final_pose obstacles vehicle_params
           (Some straight_result) (Some (new_TrajectoryTracker straight_path)) true.

(** Vehicles on the path, 10 and 50 away from the wall ahead. *)
Definition vehicle_near : Vehicle := mkVehicle 600 290 0 10 0 0 70.
Definition vehicle_far : Vehicle := mkVehicle 600 290 0 50 0 0 0.

(** The uniform fallback of [_roulette_wheel_selection]: the selection
    draws its index with [np.random.randint(len(population))]. *)
Definition falls_back_to_uniform (population : list chromosome) (fitness : list Q)
    : Prop :=
  first_draw (_roulette_wheel_selection population fitness)
  = CallRandint 0 (Z.of_nat (List.length population)).

(** A list of costs that never goes up from one entry to the next. *)
Fixpoint non_increasing (xs : list Q) : Prop :=
  match xs with
  | a :: (b :: _) as rest => b <= a /\ non_increasing rest
  | _ => True
  end.

(** The running best cost, when there is one, in front of the costs
    recorded after it. *)
Definition after_best (best_fitness : option Q) (seg : list Q) : list Q :=
  match best_fitness with
  | Some f => - f :: seg
  | None => seg
  end.

(** What the constructor establishes and [run] relies on: both parameters
    have bits and a range that is not a point, and the decoder in effect
    returns on every chromosome of the optimizer's length. *)
Definition well_formed (self : GeneticAlgorithm) : Prop :=
  (0 < k0_bits self)%nat /\ (0 < k1_bits self)%nat /\
  ~ snd (k0_range self) - fst (k0_range self) == 0 /\
  ~ snd (k1_range self) - fst (k1_range self) == 0 /\
  forall c, List.length c = (k0_bits self + k1_bits self + 1)%nat ->
            exists d, call_decode_individual self c = Ok d.

(** Two states of one optimizer object that differ at most in the three
    history lists. *)
Definition same_settings (self self' : GeneticAlgorithm) : Prop :=
  set_history self (best_fitness_history self') (avg_fitness_history self')
              (best_individual_history self') = self'.

(** A curve generator that reads nothing of the history lists, as both
    generators of the repository do. *)
Definition ignores_history
    (generator : GeneticAlgorithm -> Q -> Q -> Z -> list pose * Q * Q) : Prop :=
  forall self best avg inds k0 k1 vs,
    generator (set_history self best avg inds) k0 k1 vs = generator self k0 k1 vs.

(** The cost [_evaluate_fitness] charges for a curve: the objective with
    the length taken a hundredfold when the curve collides. *)
Definition penalised_cost (has_collision : bool) (path_length max_steering : Q) : Q :=
  (if has_collision then 100 * path_length else path_length) ^ 2 + max_steering ^ 2.

(** A curve generator for the examples: a straight line from pose to pose,
    whose length is the coarse distance. *)
Definition straight_line (self : GeneticAlgorithm) (k0 k1 : Q) (vs : Z)
    : list pose * Q * Q :=
  let '(x0, y0, t0) := GA.initial_pose self in
  let '(xf, yf, tf) := GA.final_pose self in
  ([(x0, y0, t0); (xf, yf, tf)],
   coarse_sqrt ((xf - x0) ^ 2 + (yf - y0) ^ 2), Qabs (k0 - k1)).

(** A one-pose path heading -90 and the tracker that follows it. *)
Definition turn_tracker : TrajectoryTracker := new_TrajectoryTracker [(0, 0, -90)].

(** A controller of one input and one output with few samples, built
    through the same calls as the shipped one. *)
Definition small_controller : Fuzzy.FuzzyInferenceSystem :=
  Shipped.from_ok
    (distancia <-
       Shipped.add_terms (Fuzzy.new_FuzzyVariable "distancia" 0 10 5)
         [("perto", "trimf", [0; 0; 5]); ("longe", "trapmf", [5; 8; 10; 10])] ;;
     velocidade <-
       Shipped.add_terms (Fuzzy.new_FuzzyVariable "velocidade" 0 20 5)
         [("lento", "trimf", [0; 5; 10]); ("rapido", "trimf", [10; 15; 20])] ;;
     let fis := Fuzzy.add_input (Fuzzy.new_FuzzyInferenceSystem "pequeno") distancia in
     let fis := Fuzzy.add_output fis velocidade in
     let fis := Fuzzy.add_rule fis (Shipped.rule [("distancia", "perto")]
                                                 [("velocidade", "lento")]) in
     let fis := Fuzzy.add_rule fis (Shipped.rule [("distancia", "longe")]
                                                 [("velocidade", "rapido")]) in
     Ok fis)
    (Fuzzy.new_FuzzyInferenceSystem "").

Definition near_reading : dict Q := [("distancia", 2)].

(** The same controller with a second registered input that has no samples
    (resolution 0), which [near_reading] does not name. *)
Definition half_sampled_controller : Fuzzy.FuzzyInferenceSystem :=
  Fuzzy.add_input small_controller (Fuzzy.new_FuzzyVariable "angulo" (-90) 90 0).

(** A controller over the four sensor readings with few samples, built
    through the same calls as the shipped one, and a simulation that runs
    it. *)
Definition sensor_controller : Fuzzy.FuzzyInferenceSystem :=
  Shipped.from_ok
    (frontal <-
       Shipped.add_terms (Fuzzy.new_FuzzyVariable "distancia_frontal" 0 400 5)
         [("longe", "trapmf", [100; 300; 400; 400])] ;;
     lateral <-
       Shipped.add_terms (Fuzzy.new_FuzzyVariable "distancia_lateral" (-80) 80 5)
         [("centrado", "trimf", [-40; 0; 40])] ;;
     angulo <-
       Shipped.add_terms (Fuzzy.new_FuzzyVariable "angulo_veiculo" (-90) 90 5)
         [("alinhado", "trimf", [-45; 0; 45])] ;;
     profundidade <-
       Shipped.add_terms (Fuzzy.new_FuzzyVariable "profundidade_vaga" 0 150 4)
         [("entrada", "trapmf", [0; 0; 50; 100])] ;;
     direcao <-
       Shipped.add_terms (Fuzzy.new_FuzzyVariable "angulo_direcao" (-40) 40 5)
         [("reto", "trimf", [-20; 0; 20])] ;;
     velocidade <-
       Shipped.add_terms (Fuzzy.new_FuzzyVariable "velocidade" 0 100 5)
         [("rapido", "trapmf", [50; 75; 100; 100])] ;;
     let fis := Fuzzy.new_FuzzyInferenceSystem "sensores" in
     let fis := Fuzzy.add_input fis frontal in
     let fis := Fuzzy.add_input fis lateral in
     let fis := Fuzzy.add_input fis angulo in
     let fis := Fuzzy.add_input fis profundidade in
     let fis := Fuzzy.add_output fis direcao in
     let fis := Fuzzy.add_output fis velocidade in
     let fis := Fuzzy.add_rule fis (Shipped.rule [("distancia_frontal", "longe")]
                                                 [("velocidade", "rapido");
                                                  ("angulo_direcao", "reto")]) in
     Ok fis)
    (Fuzzy.new_FuzzyInferenceSystem "").

(** Stand-ins for [math.cos], [math.sin], [math.tan], [math.radians] and
    [math.degrees] on a heading along the x axis. *)
Definition level_cos (a : Q) : Q := 1.
Definition level_sin (a : Q) : Q := 0.
Definition small_angle_tan (a : Q) : Q := a.
Definition coarse_radians (a : Q) : Q := a * (314 # 18000).
Definition coarse_degrees (a : Q) : Q := a * (18000 # 314).

(** The simulation of [main.py] over the small engine, with the vehicle
    level in the middle of the parking spot, and the same vehicle driving
    at speed 10 outside the spot. *)
Definition centred_simulation : Simulation.ParkingSimulation :=
  Simulation.mkSimulation sensor_controller 800 600
    (Simulation.new_ParkingSpot 600 250 150 80) obstacles
    (Simulation.new_Vehicle 675 290 0 50 25) 0 0.

Definition cruising_vehicle : Simulation.Vehicle :=
  Simulation.set_control (Simulation.new_Vehicle 250 350 170 50 25) 0 10.

(** A controller that has stored the straight path, over the small fuzzy
    engine. *)
Definition small_tracking_system : HybridParkingSystem :=
  mkHybrid small_controller initial_pose final_pose obstacles vehicle_params
           (Some straight_result) (Some (new_TrajectoryTracker straight_path)) true.

End Scenario.

(* ===================================================================== *)
(** * Part II.  Properties *)
(* ===================================================================== *)

Unset Implicit Arguments.

(** ** Dictionaries and sums *)

Module DictFacts.

Lemma dict_get_set_same {V} (k : string) (v : V) (d : dict V) :
  dict_get k (dict_set k v d) = Some v.
Proof.
  induction d as [| [k' v'] rest IH]; simpl.
  - rewrite String.eqb_refl. reflexivity.
  - destruct (String.eqb k k') eqn:E; simpl; rewrite E; [reflexivity | exact IH].
Qed.

Lemma dict_get_set_other {V} (k k0 : string) (v : V) (d : dict V) :
  k0 <> k -> dict_get k0 (dict_set k v d) = dict_get k0 d.
Proof.
  intros Hne. induction d as [| [k' v'] rest IH]; simpl.
  - destruct (String.eqb k0 k) eqn:E; [apply String.eqb_eq in E; contradiction | reflexivity].
  - destruct (String.eqb k k') eqn:E; simpl.
    + apply String.eqb_eq in E. subst k'.
      destruct (String.eqb k0 k) eqn:E0; [apply String.eqb_eq in E0; contradiction | reflexivity].
    + rewrite IH. reflexivity.
Qed.

Lemma dict_keys_set_present {V} (k : string) (v : V) (d : dict V) :
  dict_get k d <> None -> dict_keys (dict_set k v d) = dict_keys d.
Proof.
  unfold dict_keys. induction d as [| [k' v'] rest IH]; simpl; intros H.
  - contradiction.
  - destruct (String.eqb k k') eqn:E; simpl; [reflexivity |].
    rewrite IH by exact H. reflexivity.
Qed.

Lemma dict_get_in_keys {V} (k : string) (d : dict V) :
  dict_get k d <> None <-> In k (dict_keys d).
Proof.
  unfold dict_keys. induction d as [| [k' v'] rest IH]; simpl.
  - split; [intros H; contradiction | intros []].
  - destruct (String.eqb k k') eqn:E.
    + apply String.eqb_eq in E. subst. split; [left; reflexivity | discriminate].
    + rewrite IH. split; [right; assumption | intros [H | H]; [| exact H]].
      subst. rewrite String.eqb_refl in E. discriminate.
Qed.

End DictFacts.

Module SumFacts.

Lemma fold_sum_shift (xs : list Q) (a : Q) :
  fold_left Qplus xs a == a + fold_left Qplus xs 0.
Proof.
  revert a. induction xs as [| x rest IH]; intros a; simpl.
  - lra.
  - rewrite IH. rewrite (IH (0 + x)). lra.
Qed.

Lemma sum_cons (x : Q) (xs : list Q) : Np.sum (x :: xs) == x + Np.sum xs.
Proof. unfold Np.sum. simpl. rewrite fold_sum_shift. lra. Qed.

Lemma sum_all_zero (xs : list Q) : Forall (fun m => m == 0) xs -> Np.sum xs == 0.
Proof.
  induction 1 as [| x rest Hx _ IH].
  - reflexivity.
  - rewrite sum_cons, Hx, IH. lra.
Qed.

Lemma sum_nonneg (xs : list Q) : Forall (fun m => 0 <= m) xs -> 0 <= Np.sum xs.
Proof.
  induction 1 as [| x rest Hx _ IH].
  - unfold Np.sum; simpl; lra.
  - rewrite sum_cons. lra.
Qed.

Lemma sum_scale (xs : list Q) (c : Q) :
  Np.sum (map (fun x => x * c) xs) == Np.sum xs * c.
Proof.
  induction xs as [| x rest IH].
  - unfold Np.sum; simpl; lra.
  - simpl map. rewrite !sum_cons, IH. lra.
Qed.

Lemma sum_all_equal (xs : list Q) (c : Q) :
  Forall (fun x => x == c) xs ->
  Np.sum xs == inject_Z (Z.of_nat (List.length xs)) * c.
Proof.
  induction 1 as [| x rest Hx _ IH].
  - vm_compute. reflexivity.
  - simpl List.length. rewrite sum_cons, Hx, IH.
    rewrite Nat2Z.inj_succ. unfold Z.succ. rewrite inject_Z_plus.
    change (inject_Z 1) with 1. ring.
Qed.

End SumFacts.

(** ** The fuzzy inference engine *)

Module FuzzyFacts.

Import Fuzzy DictFacts SumFacts.

Lemma infer_apply_rule_keys self activation rule aggregated :
  dict_keys (infer_apply_rule self activation rule aggregated) = dict_keys aggregated.
Proof.
  unfold infer_apply_rule. generalize (consequents rule). intros cs.
  revert aggregated. induction cs as [| [cv ct] rest IH]; intros aggregated; simpl.
  - reflexivity.
  - rewrite IH.
    destruct (dict_get cv (outputs self)) as [ov |]; [| reflexivity].
    destruct (dict_get ct (terms ov)) as [mf |]; [| reflexivity].
    destruct (dict_get cv aggregated) eqn:E; [| reflexivity].
    apply dict_keys_set_present. rewrite E. discriminate.
Qed.

Lemma infer_aggregate_keys self fuzzified :
  dict_keys (infer_aggregate self fuzzified) = dict_keys (outputs self).
Proof.
  unfold infer_aggregate.
  assert (H0 : dict_keys (infer_zero_aggregate self) = dict_keys (outputs self)).
  { unfold infer_zero_aggregate, dict_keys. rewrite map_map.
    apply map_ext. intros [k v]. reflexivity. }
  revert H0. generalize (infer_zero_aggregate self). generalize (rules self).
  intros rs. induction rs as [| r rest IH]; intros agg H0; simpl.
  - exact H0.
  - apply IH. rewrite infer_apply_rule_keys. exact H0.
Qed.

Lemma infer_defuzzify_total self aggregated :
  (forall k, In k (dict_keys aggregated) -> In k (dict_keys (outputs self))) ->
  exists output_values,
    infer_defuzzify self aggregated = Ok output_values /\
    forall k mf v,
      dict_get k aggregated = Some mf ->
      dict_get k (outputs self) = Some v ->
      dict_get k output_values = Some (infer_centroid v mf).
Proof.
  induction aggregated as [| [k0 mf0] rest IH]; intros Hkeys; simpl.
  - exists []. split; [reflexivity | discriminate].
  - assert (Hk0 : In k0 (dict_keys (outputs self))) by (apply Hkeys; left; reflexivity).
    apply dict_get_in_keys in Hk0.
    unfold dict_item. destruct (dict_get k0 (outputs self)) as [v0 |] eqn:E0; [| contradiction].
    destruct IH as [out [Hout Hget]].
    { intros k Hk. apply Hkeys. right. exact Hk. }
    simpl. rewrite Hout. simpl.
    eexists. split; [reflexivity |].
    intros k mf v Hmf Hv. simpl.
    destruct (String.eqb k k0) eqn:E.
    + apply String.eqb_eq in E. subst k0. congruence.
    + apply Hget; assumption.
Qed.

Lemma infer_centroid_zero v mf :
  Forall (fun m => m == 0) mf -> infer_centroid v mf = (min_val v + max_val v) / 2.
Proof.
  intros H. unfold infer_centroid.
  apply sum_all_zero in H. apply Qeq_bool_iff in H. rewrite H. reflexivity.
Qed.

(** C7.  When the inputs fuzzify and the aggregate [infer] builds for an
    output is zero at every sample (no rule fired for it), [infer] returns,
    and its value for that output is the midpoint of the output's domain,
    [(min_val + max_val) / 2]. *)
Theorem infer_midpoint_when_no_rule_fires :
  forall (self : FuzzyInferenceSystem) (input_values : dict Q)
         (output_name : string) (output_var : FuzzyVariable) (aggregated_mf : list Q),
    dict_get output_name (outputs self) = Some output_var ->
    aggregate_of self input_values output_name = Some aggregated_mf ->
    Forall (fun m => m == 0) aggregated_mf ->
    exists output_values self',
      infer self input_values = Ok (output_values, self') /\
      dict_get output_name output_values
      = Some ((min_val output_var + max_val output_var) / 2).
Proof.
  intros self input_values output_name output_var aggregated_mf Hvar Hagg Hzero.
  unfold aggregate_of in Hagg. unfold infer.
  destruct (infer_fuzzification self input_values []) as [fuzzified | e]; [| discriminate].
  simpl.
  destruct (infer_defuzzify_total (set_last_input_memberships self fuzzified)
              (infer_aggregate (set_last_input_memberships self fuzzified) fuzzified))
    as [out [Hout Hget]].
  { intros k Hk. rewrite infer_aggregate_keys in Hk. exact Hk. }
  rewrite Hout. simpl. eexists. eexists. split; [reflexivity |].
  rewrite <- (infer_centroid_zero output_var aggregated_mf Hzero).
  apply Hget; assumption.
Qed.

Lemma dict_set_Forall {V} (P : string * V -> Prop) (k : string) (v : V) (d : dict V) :
  (forall k', P (k', v)) -> Forall P d -> Forall P (dict_set k v d).
Proof.
  intros Hv H. induction H as [| [k0 v0] rest H0 Hrest IH]; simpl.
  - constructor; [apply Hv | constructor].
  - destruct (String.eqb k k0); constructor; try assumption. apply Hv.
Qed.

Lemma new_FuzzyVariable_shapes (nm : string) (lo hi : Q) (res : nat) :
  shapes_agree (new_FuzzyVariable nm lo hi res).
Proof. constructor. Qed.

(** [add_term] keeps every membership array at the shape of the universe,
    which is what the elementwise steps of [infer] rely on. *)
Lemma add_term_shapes (v v' : FuzzyVariable) (term_name mf_type : string)
    (params : list Q) :
  shapes_agree v ->
  add_term v term_name mf_type params = Ok v' ->
  shapes_agree v' /\ universe v' = universe v.
Proof.
  intros Hv. unfold add_term.
  assert (Hlen : forall mf,
             (if String.eqb mf_type "trimf" then _triangular_mf v params
              else if String.eqb mf_type "trapmf" then _trapezoidal_mf v params
              else if String.eqb mf_type "gaussmf" then Raise AttributeError
              else Raise ValueError) = Ok mf ->
             List.length mf = List.length (universe v)).
  { intros mf. unfold _triangular_mf, _trapezoidal_mf.
    destruct (String.eqb mf_type "trimf").
    - destruct params as [| a [| b [| c [| ? ?]]]]; try discriminate.
      intros H. injection H as <-. apply length_map.
    - destruct (String.eqb mf_type "trapmf").
      + destruct params as [| a [| b [| c [| d [| ? ?]]]]]; try discriminate.
        intros H. injection H as <-. apply length_map.
      + destruct (String.eqb mf_type "gaussmf"); discriminate. }
  destruct (if String.eqb mf_type "trimf" then _triangular_mf v params
            else if String.eqb mf_type "trapmf" then _trapezoidal_mf v params
            else if String.eqb mf_type "gaussmf" then Raise AttributeError
            else Raise ValueError) as [mf |]; [| discriminate].
  simpl. intros H. injection H as <-. split; [| reflexivity].
  unfold shapes_agree. simpl. apply dict_set_Forall.
  - intros k'. simpl. apply Hlen. reflexivity.
  - exact Hv.
Qed.

Lemma all_zero_of_forallb (xs : list Q) :
  forallb (fun m => Qeq_bool m 0) xs = true -> Forall (fun m => m == 0) xs.
Proof.
  intros H. apply Forall_forall. intros m Hm.
  rewrite forallb_forall in H. apply Qeq_bool_iff. apply H. exact Hm.
Qed.

Open Scope string_scope.

Lemma infer_midpoint_when_no_rule_fires_witness :
  exists output_var aggregated_mf,
    dict_get "angulo_direcao" (outputs Shipped.scenario_B_system) = Some output_var /\
    aggregate_of Shipped.scenario_B_system Shipped.depth_only "angulo_direcao"
    = Some aggregated_mf /\
    Forall (fun m => m == 0) aggregated_mf /\
    exists output_values self',
      infer Shipped.scenario_B_system Shipped.depth_only = Ok (output_values, self') /\
      dict_get "angulo_direcao" output_values
      = Some ((min_val output_var + max_val output_var) / 2).
Proof.
  eexists. eexists.
  split; [vm_compute; reflexivity |].
  split; [vm_compute; reflexivity |].
  split; [apply all_zero_of_forallb; vm_compute; reflexivity |].
  eapply infer_midpoint_when_no_rule_fires.
  - vm_compute. reflexivity.
  - vm_compute. reflexivity.
  - apply all_zero_of_forallb. vm_compute. reflexivity.
Defined.

End FuzzyFacts.

Module FuzzyErrors.

Import Fuzzy DictFacts.

Lemma fuzzify_total (v : FuzzyVariable) (crisp_value : Q) :
  universe v <> [] -> exists ms, fuzzify v crisp_value = Ok ms.
Proof.
  intros Hne. unfold fuzzify.
  destruct (universe v) as [| u rest]; [contradiction |].
  simpl. eexists. reflexivity.
Qed.

Lemma nonempty_universes_get (self : FuzzyInferenceSystem) (k : string) (v : FuzzyVariable) :
  nonempty_universes self = true ->
  dict_get k (inputs self) = Some v -> universe v <> [].
Proof.
  unfold nonempty_universes. generalize (inputs self). intros d.
  induction d as [| [k' v'] rest IH]; simpl; intros Hall Hget.
  - discriminate.
  - apply andb_prop in Hall. destruct Hall as [Hv Hrest].
    destruct (String.eqb k k').
    + injection Hget as <-. destruct (universe v'); [discriminate | discriminate].
    + apply IH; assumption.
Qed.

Lemma infer_fuzzification_unknown_key (self : FuzzyInferenceSystem) :
  nonempty_universes self = true ->
  forall (input_values : dict Q) (acc : dict (dict Q)),
    (exists k, In k (dict_keys input_values) /\ dict_get k (inputs self) = None) ->
    exists k,
      In k (dict_keys input_values) /\ dict_get k (inputs self) = None /\
      infer_fuzzification self input_values acc = Raise (KeyError k).
Proof.
  intros Hne input_values.
  induction input_values as [| [k0 x0] rest IH]; intros acc [k [Hin Hk]].
  - destruct Hin.
  - simpl. unfold dict_item.
    destruct (dict_get k0 (inputs self)) as [v0 |] eqn:E0.
    + destruct (fuzzify_total v0 x0 (nonempty_universes_get self k0 v0 Hne E0)) as [ms Hms].
      simpl. rewrite Hms. simpl.
      destruct Hin as [Heq | Hin].
      * simpl in Heq. subst k0. congruence.
      * destruct (IH (dict_set k0 ms acc)) as [k' [Hin' [Hk' Hr]]].
        { exists k. split; assumption. }
        exists k'. split; [right; exact Hin' | split; assumption].
    + exists k0. split; [left; reflexivity | split; [exact E0 | reflexivity]].
Qed.

(** C10.  When the input mapping has a key that names no registered input
    variable (and every registered input has samples, so that fuzzifying the
    known keys before it returns), [infer] raises [KeyError] for such a key
    instead of ignoring it. *)
Theorem infer_unknown_input_key_raises :
  forall (self : FuzzyInferenceSystem) (input_values : dict Q),
    nonempty_universes self = true ->
    (exists k, In k (dict_keys input_values) /\ dict_get k (inputs self) = None) ->
    exists k,
      In k (dict_keys input_values) /\ dict_get k (inputs self) = None /\
      infer self input_values = Raise (KeyError k).
Proof.
  intros self input_values Hne Hex.
  destruct (infer_fuzzification_unknown_key self Hne input_values [] Hex)
    as [k [Hin [Hk Hr]]].
  exists k. split; [exact Hin | split; [exact Hk |]].
  unfold infer. rewrite Hr. reflexivity.
Qed.

Open Scope string_scope.

Lemma infer_unknown_input_key_raises_witness :
  exists k,
    In k (dict_keys [("distancia_frontal", 100); ("velocidade_alvo", 3)]) /\
    dict_get k (inputs Shipped.shipped_system) = None /\
    infer Shipped.shipped_system [("distancia_frontal", 100); ("velocidade_alvo", 3)]
    = Raise (KeyError k).
Proof.
  apply (infer_unknown_input_key_raises Shipped.shipped_system
           [("distancia_frontal", 100); ("velocidade_alvo", 3)]).
  - vm_compute. reflexivity.
  - exists "velocidade_alvo". split; [right; left; reflexivity | vm_compute; reflexivity].
Defined.

(** The defect behind C1, in general: a rule none of whose antecedent
    variables was fuzzified keeps the initial activation 1 in [infer], and
    has activation 0 in [get_active_rules_info]. *)
Lemma infer_activation_unknown_variables (fuzzified : dict (dict Q)) (r : FuzzyRule) :
  Forall (fun '(var, _) => dict_get var fuzzified = None) (antecedents r) ->
  infer_activation fuzzified r = 1.
Proof.
  unfold infer_activation. generalize (antecedents r). intros cs H.
  induction H as [| [var term] rest Hv _ IH]; simpl.
  - reflexivity.
  - rewrite Hv. exact IH.
Qed.

Lemma active_rules_activation_unknown_variable (memberships : dict (dict Q))
    (var term : string) (rest : dict string) (activation : Q) :
  dict_get var memberships = None ->
  active_rules_activation memberships ((var, term) :: rest) activation = 0.
Proof. intros H. simpl. rewrite H. reflexivity. Qed.

(** C1.  On the shipped controller, [infer] with a reading of the depth
    sensor alone: the rule on [distancia_frontal], whose variable was not
    fuzzified, has activation 1 in [infer] and 0 in
    [get_active_rules_info]; it raises nothing, and it contributes to the
    aggregates: the inferred speed is above 65, where inference as specified
    gives a speed below 1. *)
Theorem infer_applies_rule_with_unknown_antecedent :
  exists sys outs sys' v v_spec outs_spec,
    Shipped.create_centered_parking_system = Ok sys /\
    In Shipped.rule_longe (rules sys) /\
    infer sys Shipped.depth_only = Ok (outs, sys') /\
    dict_get "distancia_frontal" (last_input_memberships sys') = None /\
    infer_activation (last_input_memberships sys') Shipped.rule_longe = 1 /\
    active_rules_activation (last_input_memberships sys')
      (antecedents Shipped.rule_longe) 1 = 0 /\
    List.length (get_active_rules_info sys') = 1%nat /\
    dict_get "velocidade" outs = Some v /\ 65 < v /\
    specified_infer sys Shipped.depth_only = Ok outs_spec /\
    dict_get "velocidade" outs_spec = Some v_spec /\ v_spec < 1.
Proof.
  do 6 eexists.
  split; [vm_compute; reflexivity |].
  split; [vm_compute; tauto |].
  split; [vm_compute; reflexivity |].
  split; [vm_compute; reflexivity |].
  split; [vm_compute; reflexivity |].
  split; [vm_compute; reflexivity |].
  split; [vm_compute; reflexivity |].
  split; [vm_compute; reflexivity |].
  split; [vm_compute; reflexivity |].
  split; [vm_compute; reflexivity |].
  split; [vm_compute; reflexivity |].
  vm_compute; reflexivity.
Qed.

End FuzzyErrors.

(** ** The two-phase optimizer *)

Module ParkingFacts.

Import GA Parking.

(** C4.  The combination of two phase results: the trajectory is the first
    phase's followed by the second's, the path length is the sum, the peak
    steering is the greater of the two, and the collision flag is the
    disjunction. *)
Theorem combine_phases_fields :
  forall (phase1 phase2 : GAResult),
    let combined := _combine_phases phase1 phase2 in
    c_trajectory combined = trajectory phase1 ++ trajectory phase2 /\
    c_path_length combined = path_length phase1 + path_length phase2 /\
    (max_steering phase1 <= c_max_steering combined /\
     max_steering phase2 <= c_max_steering combined /\
     (c_max_steering combined = max_steering phase1 \/
      c_max_steering combined = max_steering phase2)) /\
    c_has_collision combined = (has_collision phase1 || has_collision phase2)%bool.
Proof.
  intros p1 p2. simpl.
  split; [reflexivity |]. split; [reflexivity |]. split; [| reflexivity].
  unfold py_max.
  split; [apply Q.le_max_l |]. split; [apply Q.le_max_r |].
  unfold Qmax, GenericMinMax.gmax.
  destruct (max_steering p1 ?= max_steering p2); auto.
Qed.

Lemma decode_parameter_total (binary : list bool) (min_val max_val : Q) :
  binary <> [] -> exists v, _decode_parameter binary min_val max_val = Ok v.
Proof.
  destruct binary as [| b rest]; intros H; [contradiction |].
  simpl. eexists. reflexivity.
Qed.

Lemma firstn_nonempty {A} (n : nat) (xs : list A) :
  (0 < n)%nat -> xs <> [] -> firstn n xs <> [].
Proof.
  destruct n; [lia |]. destruct xs; [contradiction |]. simpl. discriminate.
Qed.

Lemma decode_individual_split (self : GeneticAlgorithm) (body : list bool) (b : bool) :
  (0 < k0_bits self)%nat -> (0 < k1_bits self)%nat ->
  List.length body = (k0_bits self + k1_bits self)%nat ->
  exists k0 k1,
    _decode_parameter (firstn (k0_bits self) body)
                      (fst (k0_range self)) (snd (k0_range self)) = Ok k0 /\
    _decode_parameter (firstn (k1_bits self) (skipn (k0_bits self) body))
                      (fst (k1_range self)) (snd (k1_range self)) = Ok k1 /\
    _decode_individual self (body ++ [b]) = Ok (k0, k1, if b then 1%Z else (-1)%Z).
Proof.
  intros H0 H1 Hlen.
  assert (Hb0 : firstn (k0_bits self) body <> []).
  { apply firstn_nonempty; [exact H0 |]. destruct body; [simpl in Hlen; lia | discriminate]. }
  assert (Hb1 : firstn (k1_bits self) (skipn (k0_bits self) body) <> []).
  { apply firstn_nonempty; [exact H1 |].
    intros E. apply (f_equal (@List.length bool)) in E.
    rewrite length_skipn in E. simpl in E. lia. }
  destruct (decode_parameter_total _ (fst (k0_range self)) (snd (k0_range self)) Hb0)
    as [v0 Hv0].
  destruct (decode_parameter_total _ (fst (k1_range self)) (snd (k1_range self)) Hb1)
    as [v1 Hv1].
  exists v0, v1. split; [exact Hv0 |]. split; [exact Hv1 |].
  unfold _decode_individual.
  rewrite firstn_app.
  replace (k0_bits self - List.length body)%nat with 0%nat by lia.
  simpl firstn at 2. rewrite app_nil_r. rewrite Hv0. simpl.
  rewrite skipn_app.
  replace (k0_bits self - List.length body)%nat with 0%nat by lia.
  simpl skipn at 2.
  rewrite firstn_app.
  replace (k1_bits self - List.length (skipn (k0_bits self) body))%nat with 0%nat
    by (rewrite length_skipn; lia).
  simpl firstn at 2. rewrite app_nil_r. rewrite Hv1. simpl.
  rewrite skipn_app.
  replace (k0_bits self + k1_bits self - List.length body)%nat with 0%nat by lia.
  rewrite skipn_all2 by lia. simpl. reflexivity.
Qed.

(** C9.  While [_run_single_phase] has its forced decoder installed over
    the decoder of the class, every chromosome (a body of [k0_bits + k1_bits] bits
    and a direction bit) decodes to the forced direction whatever its
    direction bit is, with the [k0] and [k1] the class method decodes. *)
Theorem forced_decode_pins_direction :
  forall (self : GeneticAlgorithm) (body : list bool) (b b' : bool) (d : Z),
    (0 < k0_bits self)%nat -> (0 < k1_bits self)%nat ->
    List.length body = (k0_bits self + k1_bits self)%nat ->
    (forall c, call_decode_individual self c = _decode_individual self c) ->
    let patched :=
      set_decode_individual self (Some (forced_decode (call_decode_individual self) d)) in
    exists k0 k1,
      _decode_individual self (body ++ [b]) = Ok (k0, k1, if b then 1%Z else (-1)%Z) /\
      call_decode_individual patched (body ++ [b]) = Ok (k0, k1, d) /\
      call_decode_individual patched (body ++ [b']) = Ok (k0, k1, d).
Proof.
  intros self body b b' d H0 H1 Hlen Hattr patched.
  destruct (decode_individual_split self body b H0 H1 Hlen) as [k0 [k1 [E0 [E1 Eb]]]].
  destruct (decode_individual_split self body b' H0 H1 Hlen) as [k0' [k1' [E0' [E1' Eb']]]].
  assert (k0' = k0) by congruence. assert (k1' = k1) by congruence. subst k0' k1'.
  exists k0, k1. split; [exact Eb |].
  unfold patched. unfold call_decode_individual at 1 3. simpl.
  unfold forced_decode. rewrite !Hattr, Eb, Eb'. simpl. split; reflexivity.
Qed.

Lemma forced_decode_pins_direction_witness :
  let self := Scenario.small_optimizer in
  let body := repeat true 58 in
  let patched :=
    set_decode_individual self (Some (forced_decode (call_decode_individual self) 1)) in
  exists k0 k1,
    _decode_individual self (body ++ [false]) = Ok (k0, k1, (-1)%Z) /\
    call_decode_individual patched (body ++ [false]) = Ok (k0, k1, 1%Z) /\
    call_decode_individual patched (body ++ [true]) = Ok (k0, k1, 1%Z).
Proof.
  apply (forced_decode_pins_direction Scenario.small_optimizer (repeat true 58)
           false true 1%Z).
  - vm_compute. lia.
  - vm_compute. lia.
  - reflexivity.
  - intros c. reflexivity.
Defined.

End ParkingFacts.

(** ** The tracking controller and the hybrid blend *)

Module HybridFacts.

Import GA Hybrid.

Lemma wrap_above_spec (a : Q) :
  wrap_above a <= 180 /\
  (a <= 180 -> wrap_above a = a) /\
  (180 < a -> -180 < wrap_above a).
Proof.
  funelim (wrap_above a).
  - destruct H as [IH1 [IH2 IH3]].
    split; [exact IH1 |]. split; [intros; lra |]. intros _.
    destruct (Qlt_le_dec 180 (a - 360)) as [Hgt | Hle].
    + apply IH3. exact Hgt.
    + rewrite (IH2 Hle). lra.
  - split; [assumption |]. split; [reflexivity | intros; lra].
Qed.

Lemma wrap_below_spec (a : Q) :
  -180 <= wrap_below a /\
  (-180 <= a -> wrap_below a = a) /\
  (a < -180 -> wrap_below a < 180).
Proof.
  funelim (wrap_below a).
  - destruct H as [IH1 [IH2 IH3]].
    split; [exact IH1 |]. split; [intros; lra |]. intros _.
    destruct (Qlt_le_dec (a + 360) (-180)) as [Hlt | Hge].
    + apply IH3. exact Hlt.
    + rewrite (IH2 Hge). lra.
  - split; [assumption |]. split; [reflexivity | intros; lra].
Qed.

Lemma wrap_180_range (a : Q) : -180 <= wrap_180 a <= 180.
Proof.
  unfold wrap_180.
  destruct (wrap_above_spec a) as [Hle [_ _]].
  destruct (wrap_below_spec (wrap_above a)) as [Hge [Hid Hlt]].
  split; [exact Hge |].
  destruct (Qlt_le_dec (wrap_above a) (-180)) as [H | H].
  - apply Qlt_le_weak. apply Hlt. exact H.
  - rewrite (Hid H). exact Hle.
Qed.

(** C5.  For a reference heading and a vehicle heading that differ by at
    most [2^53], the [angle_error] that [calculate_tracking_error] returns
    lies in the closed interval from -180 to 180, whatever the stored path
    and the vehicle position are. *)
Theorem tracking_angle_error_range :
  forall (M : FloatMath) (self : TrajectoryTracker) (vehicle_x vehicle_y vehicle_angle : Q),
    Qabs (snd (fst (get_reference_point self vehicle_x vehicle_y)) - vehicle_angle)
    <= inject_Z (2 ^ 53) ->
    -180 <= angle_error (fst (calculate_tracking_error self vehicle_x vehicle_y vehicle_angle))
    <= 180.
Proof.
  intros M self vx vy va _. unfold calculate_tracking_error.
  destruct (get_reference_point self vx vy) as [[[x_ref y_ref] angle_ref] self'].
  simpl. apply (wrap_180_range (angle_ref - va)).
Qed.

Lemma tracking_angle_error_range_witness :
  -180 <= angle_error
            (fst (@calculate_tracking_error Scenario.coarse_math
                    Scenario.turn_tracker 0 0 90))
  <= 180.
Proof.
  apply (tracking_angle_error_range Scenario.coarse_math Scenario.turn_tracker 0 0 90).
  vm_compute. discriminate.
Defined.

(** Why the bound on the magnitude: on doubles, subtracting 360 from 1e20
    gives 1e20 again, so [while angle_error > 180: angle_error -= 360] never
    ends there. *)
Lemma wrap_step_stalls_at_1e20 :
  Binary64.fl (inject_Z (10 ^ 20) - 360) == inject_Z (10 ^ 20).
Proof. vm_compute. reflexivity. Qed.

(** C5 as stated fails at the lower end: with a reference heading of -90
    and a vehicle heading of 90 the error is -180, outside the half-open
    interval. *)
Lemma tracking_angle_error_minus_180 :
  ~ (-180 < angle_error
              (fst (@calculate_tracking_error Scenario.coarse_math
                      Scenario.turn_tracker 0 0 90))
     /\ angle_error
          (fst (@calculate_tracking_error Scenario.coarse_math
                  Scenario.turn_tracker 0 0 90)) <= 180).
Proof.
  assert (E : angle_error
                (fst (@calculate_tracking_error Scenario.coarse_math
                        Scenario.turn_tracker 0 0 90)) == -180).
  { vm_compute. reflexivity. }
  rewrite E. intros [H _]. lra.
Qed.

Open Scope string_scope.

Lemma tracking_control_keys (M : FloatMath) (self self1 : HybridParkingSystem)
    (vehicle : Vehicle) (tracking : dict Q) :
  _calculate_tracking_control self vehicle = Ok (tracking, self1) ->
  exists tv ts, tracking = [("velocidade", tv); ("angulo_direcao", ts)].
Proof.
  unfold _calculate_tracking_control.
  destruct (trajectory_tracker self) as [tracker |]; [| discriminate].
  destruct (calculate_tracking_error tracker (x vehicle) (y vehicle) (angle vehicle))
    as [tracking_error tracker'].
  destruct (ga_result self) as [res |]; [| discriminate].
  intros H. injection H as H _. subst tracking. eexists. eexists. reflexivity.
Qed.

(** C8.  Without an optimized path, or with tracking disabled,
    [get_fuzzy_control] returns what the fuzzy engine infers from the sensor
    readings.  With both, when the tracking control and the inference
    return, it returns the blend selected by the forward sensor distance:
    below 15, 0.7 fuzzy + 0.3 tracking for speed and steering; below 30,
    0.75 tracking + 0.25 fuzzy for speed and 0.8 tracking + 0.2 fuzzy for
    steering; otherwise 0.95 tracking + 0.05 fuzzy for speed and
    0.9 tracking + 0.1 fuzzy for steering. *)
Theorem hybrid_control_blend :
  forall (M : FloatMath) (self : HybridParkingSystem) (vehicle : Vehicle)
         (use_tracking : bool),
    (ga_optimized self = false \/ use_tracking = false ->
     get_fuzzy_control self vehicle use_tracking
     = (r <- Fuzzy.infer (fuzzy_system self) (fuzzy_inputs vehicle) ;;
        Ok (fst r, set_fuzzy_system self (snd r)))) /\
    (ga_optimized self = true -> use_tracking = true ->
     forall tracking self1 fuzzy fis fv fs,
       _calculate_tracking_control self vehicle = Ok (tracking, self1) ->
       Fuzzy.infer (fuzzy_system self1) (fuzzy_inputs vehicle) = Ok (fuzzy, fis) ->
       dict_get "velocidade" fuzzy = Some fv ->
       dict_get "angulo_direcao" fuzzy = Some fs ->
       exists tv ts final_velocity final_steering,
         dict_get "velocidade" tracking = Some tv /\
         dict_get "angulo_direcao" tracking = Some ts /\
         get_fuzzy_control self vehicle use_tracking
         = Ok ([("velocidade", final_velocity); ("angulo_direcao", final_steering)],
               set_fuzzy_system self1 fis) /\
         final_velocity == Scenario.specified_velocity (sensor_front vehicle) fv tv /\
         final_steering == Scenario.specified_steering (sensor_front vehicle) fs ts).
Proof.
  intros M self vehicle use_tracking. split.
  - intros Hoff. unfold get_fuzzy_control.
    assert (E : (negb (ga_optimized self) || negb use_tracking)%bool = true).
    { destruct Hoff as [H | H]; rewrite H; simpl; [reflexivity | apply orb_true_r]. }
    rewrite E.
    destruct (Fuzzy.infer (fuzzy_system self) (fuzzy_inputs vehicle)) as [[o f] | e];
      reflexivity.
  - intros Hopt Htrack tracking self1 fuzzy fis fv fs Htc Hinf Hfv Hfs.
    destruct (tracking_control_keys M self self1 vehicle tracking Htc) as [tv [ts Hkeys]].
    exists tv, ts.
    unfold get_fuzzy_control. rewrite Hopt, Htrack. simpl negb. simpl orb. cbv iota.
    rewrite Htc. simpl Py.bind. rewrite Hinf. simpl Py.bind.
    unfold Scenario.specified_velocity, Scenario.specified_steering.
    unfold dict_item. rewrite Hfv, Hfs. subst tracking. simpl dict_get.
    destruct (Qlt_le_dec (sensor_front vehicle) 15);
      [| destruct (Qlt_le_dec (sensor_front vehicle) 30)];
      simpl; eexists; eexists;
      (split; [reflexivity |]); (split; [reflexivity |]); (split; [reflexivity |]);
      split; ring.
Qed.

Lemma hybrid_control_blend_witness :
  exists tracking self1 fuzzy fis fv fs,
    @_calculate_tracking_control Scenario.coarse_math Scenario.tracking_system
      Scenario.vehicle_near = Ok (tracking, self1) /\
    Fuzzy.infer (fuzzy_system self1) (fuzzy_inputs Scenario.vehicle_near) = Ok (fuzzy, fis) /\
    dict_get "velocidade" fuzzy = Some fv /\
    dict_get "angulo_direcao" fuzzy = Some fs /\
    exists tv ts final_velocity final_steering,
      dict_get "velocidade" tracking = Some tv /\
      dict_get "angulo_direcao" tracking = Some ts /\
      @get_fuzzy_control Scenario.coarse_math Scenario.tracking_system
        Scenario.vehicle_near true
      = Ok ([("velocidade", final_velocity); ("angulo_direcao", final_steering)],
            set_fuzzy_system self1 fis) /\
      final_velocity == (7 # 10) * fv + (3 # 10) * tv /\
      final_steering == (7 # 10) * fs + (3 # 10) * ts.
Proof.
  do 6 eexists.
  split; [vm_compute; reflexivity |].
  split; [vm_compute; reflexivity |].
  split; [vm_compute; reflexivity |].
  split; [vm_compute; reflexivity |].
  eapply (proj2 (hybrid_control_blend Scenario.coarse_math Scenario.tracking_system
                   Scenario.vehicle_near true) eq_refl eq_refl).
  - vm_compute. reflexivity.
  - vm_compute. reflexivity.
  - vm_compute. reflexivity.
  - vm_compute. reflexivity.
Defined.

End HybridFacts.

(** ** Encoding of the curve parameters *)

Module EncodingFacts.

Import GA.

Lemma int_of_bits_msb (w : nat) :
  forall (n acc : Z),
    int_of_bits acc (map (fun i => Z.testbit n (Z.of_nat (w - 1 - i))) (seq 0 w))
    = (acc * 2 ^ Z.of_nat w + n mod 2 ^ Z.of_nat w)%Z.
Proof.
  induction w as [| w IH]; intros n acc.
  - simpl. rewrite Z.mod_1_r. lia.
  - rewrite <- cons_seq, <- seq_shift, map_cons, map_map.
    cbn [int_of_bits].
    replace (S w - 1 - 0)%nat with w by lia.
    rewrite (map_ext (fun i => Z.testbit n (Z.of_nat (S w - 1 - S i)))
                     (fun i => Z.testbit n (Z.of_nat (w - 1 - i))))
      by (intros i; f_equal; f_equal; lia).
    rewrite IH.
    assert (Hb : (if Z.testbit n (Z.of_nat w) then 1 else 0)%Z
                 = ((n / 2 ^ Z.of_nat w) mod 2)%Z).
    { rewrite <- Z.testbit_spec' by lia. destruct (Z.testbit n (Z.of_nat w)); reflexivity. }
    rewrite Hb.
    rewrite Nat2Z.inj_succ, Z.pow_succ_r by lia.
    rewrite (Z.mul_comm 2 (2 ^ Z.of_nat w)).
    rewrite (Z.rem_mul_r n (2 ^ Z.of_nat w) 2) by lia.
    ring.
Qed.

Lemma format_binary_width (bits : nat) (n : Z) :
  (0 < bits)%nat -> (0 <= n < 2 ^ Z.of_nat bits)%Z ->
  Nat.max bits (S (Z.to_nat (Z.log2 n))) = bits.
Proof.
  intros Hb [Hn0 Hn].
  assert (Z.log2 n < Z.of_nat bits)%Z.
  { destruct (Z.eq_dec n 0) as [-> | Hne]; [simpl; lia |].
    apply Z.log2_lt_pow2; lia. }
  pose proof (Z.log2_nonneg n). lia.
Qed.

Lemma format_binary_length (bits : nat) (n : Z) :
  (0 < bits)%nat -> (0 <= n < 2 ^ Z.of_nat bits)%Z ->
  List.length (format_binary bits n) = bits.
Proof.
  intros Hb Hn. unfold format_binary.
  rewrite (format_binary_width bits n Hb Hn).
  rewrite length_map, length_seq. reflexivity.
Qed.

Lemma int_of_format_binary (bits : nat) (n : Z) :
  (0 < bits)%nat -> (0 <= n < 2 ^ Z.of_nat bits)%Z ->
  int_of_bits 0 (format_binary bits n) = n.
Proof.
  intros Hb Hn. unfold format_binary.
  rewrite (format_binary_width bits n Hb Hn).
  rewrite int_of_bits_msb. rewrite Z.mod_small by exact Hn. lia.
Qed.

Lemma inject_Z_pos (z : Z) : (0 < z)%Z -> 0 < inject_Z z.
Proof. intros H. change 0 with (inject_Z 0). rewrite <- Zlt_Qlt. exact H. Qed.

(** [ceil_log2] is the ceiling of the binary logarithm: above 1 it is the
    least exponent whose power of two reaches [x]; up to 1 it is not
    positive. *)
Lemma ceil_log2_spec (x : Q) :
  (1 < x ->
   inject_Z (2 ^ (ceil_log2 x - 1)) < x /\ x <= inject_Z (2 ^ ceil_log2 x)) /\
  (0 < x <= 1 -> (ceil_log2 x <= 0)%Z).
Proof.
  unfold ceil_log2. split.
  - intros Hx. destruct (Qlt_le_dec 1 x) as [_ | Hle]; [| lra].
    pose proof (Qle_ceiling x) as Hc. pose proof (Qceiling_lt x) as Hc'.
    rewrite Hybrid.inject_Z_pred in Hc'.
    assert (Hc1 : (1 < Qceiling x)%Z).
    { rewrite Zlt_Qlt. change (inject_Z 1) with 1. lra. }
    pose proof (Z.log2_up_spec (Qceiling x) Hc1) as [Hlo Hup].
    rewrite <- Z.sub_1_r in Hlo.
    split.
    + assert (Hz : (2 ^ (Z.log2_up (Qceiling x) - 1) <= Qceiling x - 1)%Z) by lia.
      rewrite Zle_Qle, Hybrid.inject_Z_pred in Hz. lra.
    + rewrite Zle_Qle in Hup. lra.
  - intros [H0 H1]. destruct (Qlt_le_dec 1 x) as [Hgt | _]; [lra |].
    pose proof (Z.log2_nonneg (Qfloor (/ x))). lia.
Qed.

(** What [_calculate_bits] returns: at least 8, and enough for one level
    per [precision] step of the range. *)
Lemma calculate_bits_spec (min_val max_val precision : Q) (bits : nat) :
  _calculate_bits min_val max_val precision = Ok bits ->
  (8 <= bits)%nat /\
  0 < (max_val - min_val) / precision /\
  (max_val - min_val) / precision <= inject_Z (2 ^ Z.of_nat bits).
Proof.
  unfold _calculate_bits, py_div.
  destruct (Qeq_bool precision 0); [discriminate |]. simpl.
  destruct (Qlt_le_dec 0 ((max_val - min_val) / precision)) as [Hpos | _];
    [| destruct (Qeq_bool _ 0); discriminate].
  intros H. injection H as Hbits.
  set (q := (max_val - min_val) / precision) in *.
  assert (H8 : (8 <= Z.max (ceil_log2 q) 8)%Z) by lia.
  split; [lia |]. split; [exact Hpos |].
  rewrite <- Hbits. rewrite Z2Nat.id by lia.
  unfold ceil_log2. destruct (Qlt_le_dec 1 q) as [Hgt | Hle].
  - pose proof (Qle_ceiling q) as Hc.
    assert (Hc1 : (1 < Qceiling q)%Z).
    { rewrite Zlt_Qlt. change (inject_Z 1) with 1. lra. }
    pose proof (Z.log2_up_spec (Qceiling q) Hc1) as [_ Hup].
    assert (Hmono : (2 ^ Z.log2_up (Qceiling q) <= 2 ^ Z.max (Z.log2_up (Qceiling q)) 8)%Z).
    { apply Z.pow_le_mono_r; lia. }
    assert (Hz : (Qceiling q <= 2 ^ Z.max (Z.log2_up (Qceiling q)) 8)%Z) by lia.
    rewrite Zle_Qle in Hz. lra.
  - assert (Hone : (1 <= 2 ^ Z.max (- Z.log2 (Qfloor (/ q))) 8)%Z).
    { change 1%Z with (2 ^ 0)%Z at 1. apply Z.pow_le_mono_r; lia. }
    rewrite Zle_Qle in Hone. change (inject_Z 1) with 1 in Hone. lra.
Qed.

Lemma clip_unit_interval (x : Q) : 0 <= x <= 1 -> Np.clip x 0 1 = x.
Proof.
  intros [H0 H1]. unfold Np.clip, Qmin, Qmax, GenericMinMax.gmin, GenericMinMax.gmax.
  destruct (x ?= 0) eqn:E0.
  - destruct (x ?= 1) eqn:E1; [reflexivity | reflexivity |].
    apply Qgt_alt in E1. lra.
  - apply Qlt_alt in E0. lra.
  - destruct (x ?= 1) eqn:E1; [reflexivity | reflexivity |].
    apply Qgt_alt in E1. lra.
Qed.

Lemma py_int_nonneg (x : Q) : 0 <= x -> py_int x = Qfloor x.
Proof.
  intros H. unfold py_int. apply Qle_bool_iff in H. rewrite H. reflexivity.
Qed.

Lemma decode_parameter_nonempty (binary : list bool) (min_val max_val : Q) :
  binary <> [] ->
  _decode_parameter binary min_val max_val
  = Ok (min_val
        + (if (0 <? Z.shiftl 1 (Z.of_nat (List.length binary)) - 1)%Z
           then inject_Z (int_of_bits 0 binary)
                / inject_Z (Z.shiftl 1 (Z.of_nat (List.length binary)) - 1)
           else 0) * (max_val - min_val)).
Proof. destruct binary; [contradiction | reflexivity]. Qed.

(** The round trip over the rationals.  For a bit width that
    [_calculate_bits] produces from a range and a precision, and a value
    inside the range, encoding returns, decoding the code returns, and the
    decoded value is within twice the precision of the value: the
    quantisation itself is sound at every width, and what breaks it on
    doubles is rounding alone. *)
Lemma encode_decode_within_twice_precision :
  forall (v min_val max_val precision : Q) (bits : nat),
    _calculate_bits min_val max_val precision = Ok bits ->
    min_val <= v <= max_val ->
    exists binary decoded,
      _encode_parameter v min_val max_val bits = Ok binary /\
      _decode_parameter binary min_val max_val = Ok decoded /\
      Qabs (decoded - v) <= 2 * precision.
Proof.
  intros v lo hi p bits Hbits [Hlo Hhi].
  destruct (calculate_bits_spec lo hi p bits Hbits) as [H8 [Hpos Hcap]].
  assert (Hr : 0 < hi - lo).
  { destruct (Qlt_le_dec 0 (hi - lo)) as [H | H]; [exact H |].
    assert (E : hi - lo == 0) by lra.
    rewrite E in Hpos. unfold Qdiv in Hpos. rewrite Qmult_0_l in Hpos. lra. }
  assert (Hp : 0 < p).
  { destruct (Qlt_le_dec 0 p) as [H | H]; [exact H |].
    exfalso. destruct (Qeq_dec p 0) as [E | E].
    - rewrite E in Hpos. unfold Qdiv, Qinv in Hpos. simpl in Hpos.
      rewrite Qmult_0_r in Hpos. lra.
    - assert (Hneg : p < 0) by lra.
      assert (Hq : (hi - lo) / p * p == hi - lo) by (field; exact E).
      set (x := (hi - lo) / p) in *.
      assert (Hc : x * p <= 0) by nra.
      lra. }
  set (M := (Z.shiftl 1 (Z.of_nat bits) - 1)%Z).
  assert (HM : M = (2 ^ Z.of_nat bits - 1)%Z).
  { unfold M. rewrite Z.shiftl_1_l. reflexivity. }
  assert (Hpow : (2 ^ 8 <= 2 ^ Z.of_nat bits)%Z) by (apply Z.pow_le_mono_r; lia).
  assert (HM1 : (1 <= M)%Z) by (change (2 ^ 8)%Z with 256%Z in Hpow; lia).
  assert (HMq : 1 <= inject_Z M).
  { change 1 with (inject_Z 1). rewrite <- Zle_Qle. exact HM1. }
  set (n := (v - lo) / (hi - lo)).
  assert (Hn : 0 <= n <= 1).
  { unfold n. split.
    - apply Qle_shift_div_l; lra.
    - apply Qle_shift_div_r; lra. }
  set (I := Qfloor (n * inject_Z M)).
  assert (HI0 : (0 <= I)%Z).
  { assert (H : (Qfloor (inject_Z 0) <= Qfloor (n * inject_Z M))%Z).
    { apply Qfloor_resp_le. change (inject_Z 0) with 0.
      apply Qmult_le_0_compat; lra. }
    rewrite Qfloor_Z in H. exact H. }
  assert (HIM : (I <= M)%Z).
  { assert (H : (Qfloor (n * inject_Z M) <= Qfloor (inject_Z M))%Z).
    { apply Qfloor_resp_le. nra. }
    rewrite Qfloor_Z in H. exact H. }
  assert (HIbits : (0 <= I < 2 ^ Z.of_nat bits)%Z) by lia.
  assert (Hbits0 : (0 < bits)%nat) by lia.
  exists (format_binary bits I).
  exists (lo + inject_Z I / inject_Z M * (hi - lo)).
  split; [| split].
  - unfold _encode_parameter, py_div.
    assert (Hne : Qeq_bool (hi - lo) 0 = false).
    { destruct (Qeq_bool (hi - lo) 0) eqn:E; [| reflexivity].
      apply Qeq_bool_iff in E. lra. }
    rewrite Hne. simpl Py.bind. fold n. rewrite (clip_unit_interval n Hn).
    fold M. rewrite py_int_nonneg by (apply Qmult_le_0_compat; lra).
    reflexivity.
  - pose proof (format_binary_length bits I Hbits0 HIbits) as Hlen.
    rewrite decode_parameter_nonempty
      by (intros E; rewrite E in Hlen; simpl in Hlen; lia).
    rewrite Hlen. fold M.
    rewrite (int_of_format_binary bits I Hbits0 HIbits).
    assert (HMpos : (0 <? M)%Z = true) by (apply Z.ltb_lt; lia).
    rewrite HMpos. reflexivity.
  - pose proof (Qfloor_le (n * inject_Z M)) as Hfl.
    pose proof (Qlt_floor (n * inject_Z M)) as Hfu.
    fold I in Hfl, Hfu. rewrite inject_Z_plus in Hfu. change (inject_Z 1) with 1 in Hfu.
    assert (HMpos : 0 < inject_Z M) by lra.
    assert (Hv : v == lo + n * (hi - lo)).
    { unfold n. field. lra. }
    assert (Hcap' : hi - lo <= p * (inject_Z M + 1)).
    { assert (E : inject_Z (2 ^ Z.of_nat bits) == inject_Z M + 1).
      { rewrite HM, Hybrid.inject_Z_pred. lra. }
      rewrite E in Hcap.
      assert (Hq : (hi - lo) / p * p == hi - lo) by (field; lra).
      rewrite <- Hq. rewrite (Qmult_comm p).
      apply Qmult_le_compat_r; lra. }
    set (Iq := inject_Z I) in *. set (Mq := inject_Z M) in *.
    assert (Hfrac_lo : Iq / Mq <= n).
    { apply Qle_shift_div_r; lra. }
    assert (Hfrac_hi : n - 1 / Mq <= Iq / Mq).
    { assert (E : n - 1 / Mq == (n * Mq - 1) / Mq) by (field; lra).
      rewrite E. apply Qle_shift_div_l; [lra |].
      assert (E2 : (n * Mq - 1) / Mq * Mq == n * Mq - 1) by (field; lra). lra. }
    assert (Hstep : (hi - lo) * (1 / Mq) <= 2 * p).
    { assert (E : (hi - lo) * (1 / Mq) == (hi - lo) / Mq) by (field; lra).
      rewrite E. apply Qle_shift_div_r; [lra |].
      assert (p * (Mq + 1) <= 2 * p * Mq) by nra. lra. }
    rewrite Hv.
    assert (Ed : lo + Iq / Mq * (hi - lo) - (lo + n * (hi - lo))
                 == - ((n - Iq / Mq) * (hi - lo))) by ring.
    rewrite Ed. rewrite Qabs_opp.
    assert (Hd0 : 0 <= (n - Iq / Mq) * (hi - lo)) by (apply Qmult_le_0_compat; lra).
    rewrite Qabs_pos by exact Hd0.
    assert (Hd1 : (n - Iq / Mq) * (hi - lo) <= (1 / Mq) * (hi - lo)).
    { apply Qmult_le_compat_r; lra. }
    lra.
Qed.

Lemma encode_decode_within_twice_precision_witness :
  exists binary decoded,
    _encode_parameter (1 # 3) (-2) 2 29 = Ok binary /\
    _decode_parameter binary (-2) 2 = Ok decoded /\
    Qabs (decoded - (1 # 3)) <= 2 * (1 # 100000000).
Proof.
  apply (encode_decode_within_twice_precision (1 # 3) (-2) 2 (1 # 100000000) 29).
  - vm_compute. reflexivity.
  - split; vm_compute; discriminate.
Defined.

(** C3.  On doubles the round trip fails at a width the constructor itself
    picks.  For the range from 0 to 1e8 at the default precision of 1e-8,
    [_calculate_bits] gives 54 bits.  [max_int = 2^54 - 1] is not a double:
    the product [normalized * max_int] takes it as [2^54], so the upper end
    of the range is encoded in 55 digits, one more than the width, and that
    code decodes to 5e7, the middle of the range. *)
Theorem encode_parameter_overflows_width :
  _calculate_bits 0 100000000 (1 # 100000000) = Ok 54%nat /\
  Binary64.fl (inject_Z (Z.shiftl 1 54 - 1)) == inject_Z (Z.shiftl 1 54) /\
  exists binary decoded,
    Binary64._encode_parameter 100000000 0 100000000 54 = Ok binary /\
    List.length binary = 55%nat /\
    Binary64._decode_parameter binary 0 100000000 = Ok decoded /\
    decoded == 50000000 /\
    ~ Qabs (decoded - 100000000) <= 2 * (1 # 100000000).
Proof.
  split; [vm_compute; reflexivity |].
  split; [vm_compute; reflexivity |].
  eexists. eexists.
  split; [vm_compute; reflexivity |].
  split; [vm_compute; reflexivity |].
  split; [vm_compute; reflexivity |].
  split; [vm_compute; reflexivity |].
  intros H. vm_compute in H. apply H. reflexivity.
Qed.

(** At the default range and precision (29 bits) the same two functions on
    doubles recover the upper end of the range exactly. *)
Lemma encode_parameter_default_width :
  exists binary decoded,
    Binary64._encode_parameter 2 (-2) 2 29 = Ok binary /\
    List.length binary = 29%nat /\
    Binary64._decode_parameter binary (-2) 2 = Ok decoded /\
    decoded == 2.
Proof.
  eexists. eexists. split; [vm_compute; reflexivity |].
  split; [vm_compute; reflexivity |].
  split; vm_compute; reflexivity.
Qed.

End EncodingFacts.

(** ** Randomized computations *)

Module RngFacts.

Import Rng.

Lemma always_mono {A} (P R : A -> Prop) (t : Rand A) :
  (forall a, P a -> R a) -> always P t -> always R t.
Proof.
  intros HPR. induction t as [a | e | lo hi k IH | k IH | lo hi k IH | xs k IH | n p k IH];
    simpl; intros H.
  - apply HPR. exact H.
  - exact H.
  - intros x Hx. apply IH. apply H. exact Hx.
  - intros x Hx. apply IH. apply H. exact Hx.
  - destruct H as [Hr H]. split; [exact Hr |]. intros z Hz. apply IH. apply H. exact Hz.
  - destruct H as [Hr H]. split; [exact Hr |]. intros z Hz. apply IH. apply H. exact Hz.
  - destruct H as [Hr H]. split; [exact Hr |]. intros i Hi. apply IH. apply H. exact Hi.
Qed.

Lemma always_bind {A B} (P : B -> Prop) (t : Rand A) (f : A -> Rand B) :
  always (fun a => always P (f a)) t -> always P (Rng.bind t f).
Proof.
  induction t as [a | e | lo hi k IH | k IH | lo hi k IH | xs k IH | n p k IH];
    simpl; intros H.
  - exact H.
  - exact H.
  - intros x Hx. apply IH. apply H. exact Hx.
  - intros x Hx. apply IH. apply H. exact Hx.
  - destruct H as [Hr H]. split; [exact Hr |]. intros z Hz. apply IH. apply H. exact Hz.
  - destruct H as [Hr H]. split; [exact Hr |]. intros z Hz. apply IH. apply H. exact Hz.
  - destruct H as [Hr H]. split; [exact Hr |]. intros i Hi. apply IH. apply H. exact Hi.
Qed.

(** Sequencing, with the intermediate property named. *)
Lemma always_seq {A B} (R : A -> Prop) (P : B -> Prop) (t : Rand A) (f : A -> Rand B) :
  always R t -> (forall a, R a -> always P (f a)) -> always P (Rng.bind t f).
Proof.
  intros Ht Hf. apply always_bind. apply (always_mono R); assumption.
Qed.

Lemma always_lift {A} (P : A -> Prop) (r : result A) (a : A) :
  r = Ok a -> P a -> always P (lift r).
Proof. intros -> H. exact H. Qed.

Lemma valid_probabilities_reflect (n : nat) (p : list Q) :
  valid_probabilities n p -> valid_probabilities_b n p = true.
Proof.
  intros [Hn [Hlen [Hpos Hsum]]]. unfold valid_probabilities_b.
  apply andb_true_intro. split; [apply andb_true_intro; split;
                                 [apply andb_true_intro; split |] |].
  - apply Nat.ltb_lt. exact Hn.
  - apply Nat.eqb_eq. exact Hlen.
  - apply forallb_forall. intros x Hx. apply Qle_bool_iff.
    rewrite Forall_forall in Hpos. apply Hpos. exact Hx.
  - apply Qeq_bool_iff. exact Hsum.
Qed.

Lemma unit_head (us : list Q) :
  Forall (fun u => 0 <= u < 1) us -> 0 <= hd 0 us < 1 /\ Forall (fun u => 0 <= u < 1) (tl us).
Proof.
  intros H. destruct H as [| u rest Hu Hrest]; simpl.
  - split; [lra | constructor].
  - split; assumption.
Qed.

(** [always] speaks about [sample]: fed with points of the unit interval,
    the sampler stays within numpy's contract, so a computation that always
    returns a result with [P] does so under it. *)
Lemma sample_sound {A} (P : A -> Prop) (t : Rand A) :
  always P t ->
  forall us, Forall (fun u => 0 <= u < 1) us -> exists a, sample t us = Ok a /\ P a.
Proof.
  induction t as [a | e | lo hi k IH | k IH | lo hi k IH | xs k IH | n p k IH];
    cbn [sample always]; intros H us Hus;
    destruct (unit_head us Hus) as [Hu Htl].
  - exists a. split; [reflexivity | exact H].
  - contradiction.
  - apply IH; [| exact Htl]. apply H.
    pose proof (Q.le_min_l lo hi). pose proof (Q.le_min_r lo hi).
    pose proof (Q.le_max_l lo hi). pose proof (Q.le_max_r lo hi).
    set (u := hd 0 us) in *. set (m := Qmin lo hi) in *. set (M := Qmax lo hi) in *.
    split; nra.
  - apply IH; [| exact Htl]. apply H. exact Hu.
  - destruct H as [Hr H].
    assert (E : (lo <? hi)%Z = true) by (apply Z.ltb_lt; exact Hr). rewrite E.
    apply IH; [| exact Htl]. apply H.
    set (u := hd 0 us) in *.
    assert (Hw : 0 < inject_Z (hi - lo)).
    { change 0 with (inject_Z 0). rewrite <- Zlt_Qlt. lia. }
    assert (H0 : (Qfloor (inject_Z 0) <= Qfloor (u * inject_Z (hi - lo)))%Z).
    { apply Qfloor_resp_le. change (inject_Z 0) with 0. apply Qmult_le_0_compat; lra. }
    rewrite Qfloor_Z in H0.
    assert (H1 : (Qfloor (u * inject_Z (hi - lo)) < hi - lo)%Z).
    { rewrite Zlt_Qlt. pose proof (Qfloor_le (u * inject_Z (hi - lo))). nra. }
    lia.
  - destruct H as [Hne H]. destruct xs as [| x rest]; [contradiction |].
    apply IH; [| exact Htl]. apply H.
    destruct (nth_in_or_default
                (Z.to_nat (Qfloor (hd 0 us * inject_Z (Z.of_nat (List.length (x :: rest))))))
                (x :: rest) x) as [Hin | Hd].
    + exact Hin.
    + rewrite Hd. left. reflexivity.
  - destruct H as [Hv H]. rewrite (valid_probabilities_reflect n p Hv).
    apply IH; [| exact Htl]. apply H.
    destruct Hv as [Hn _]. lia.
Qed.

End RngFacts.

(** ** Selection *)

Module SelectionFacts.

Import GA Rng RngFacts SumFacts.

Lemma fold_min_le (xs : list Q) :
  forall a, fold_left Qmin xs a <= a /\ Forall (fun x => fold_left Qmin xs a <= x) xs.
Proof.
  induction xs as [| x rest IH]; intros a; simpl.
  - split; [lra | constructor].
  - destruct (IH (Qmin a x)) as [H1 H2].
    pose proof (Q.le_min_l a x). pose proof (Q.le_min_r a x).
    split; [lra |]. constructor; [lra | exact H2].
Qed.

Lemma py_min_list_le (xs : list Q) :
  xs <> [] -> exists m, py_min_list xs = Ok m /\ Forall (fun x => m <= x) xs.
Proof.
  destruct xs as [| x rest]; intros H; [contradiction |].
  simpl. eexists. split; [reflexivity |].
  destruct (fold_min_le rest x) as [H1 H2]. constructor; assumption.
Qed.

Lemma tiny_pos : 0 < tiny.
Proof. reflexivity. Qed.

Lemma sum_ge_first (xs : list Q) (c : Q) :
  xs <> [] -> 0 <= c -> Forall (fun x => c <= x) xs -> c <= Np.sum xs.
Proof.
  destruct xs as [| x rest]; intros Hne Hc H; [contradiction |].
  inversion H as [| ? ? Hx Hrest]; subst.
  rewrite sum_cons.
  assert (0 <= Np.sum rest).
  { apply sum_nonneg. eapply Forall_impl; [| exact Hrest]. simpl. intros; lra. }
  lra.
Qed.

Lemma result_map_div (xs : list Q) (total : Q) :
  ~ total == 0 ->
  result_map (fun f => py_div f total) xs = Ok (map (fun f => f / total) xs).
Proof.
  intros Hne. induction xs as [| x rest IH]; simpl.
  - reflexivity.
  - unfold py_div at 1.
    destruct (Qeq_bool total 0) eqn:E; [apply Qeq_bool_iff in E; contradiction |].
    simpl. rewrite IH. reflexivity.
Qed.

(** With a non-empty fitness list the adjusted total is at least [1e-10]:
    the selection never takes the uniform branch, and what it hands to
    [np.random.choice] is a probability vector. *)
Lemma roulette_is_proportional (population : list chromosome) (fitness : list Q) :
  fitness <> [] -> List.length fitness = List.length population ->
  exists min_fitness total probabilities,
    py_min_list fitness = Ok min_fitness /\
    total = Np.sum (map (fun f => f - min_fitness + tiny) fitness) /\
    tiny <= total /\
    probabilities = map (fun f => f / total) (map (fun f => f - min_fitness + tiny) fitness) /\
    valid_probabilities (List.length population) probabilities /\
    _roulette_wheel_selection population fitness
    = ChoiceP (List.length population) probabilities
              (fun i => lift (list_item population i)).
Proof.
  intros Hne Hlen.
  destruct (py_min_list_le fitness Hne) as [m [Hm Hle]].
  set (adjusted := map (fun f => f - m + tiny) fitness).
  assert (Hadj : Forall (fun x => tiny <= x) adjusted).
  { unfold adjusted. apply Forall_map. eapply Forall_impl; [| exact Hle].
    simpl. intros a Ha. lra. }
  assert (Hadj_ne : adjusted <> []).
  { unfold adjusted. destruct fitness; [contradiction | discriminate]. }
  pose proof tiny_pos as Htiny.
  assert (Htotal : tiny <= Np.sum adjusted).
  { apply sum_ge_first; [exact Hadj_ne | lra | exact Hadj]. }
  assert (Hnz : ~ Np.sum adjusted == 0) by lra.
  exists m, (Np.sum adjusted), (map (fun f => f / Np.sum adjusted) adjusted).
  split; [exact Hm |]. split; [reflexivity |]. split; [exact Htotal |].
  split; [reflexivity |]. split.
  - unfold valid_probabilities. split; [| split; [| split]].
    + rewrite <- Hlen. destruct fitness; [contradiction | simpl; lia].
    + unfold adjusted. rewrite !length_map. exact Hlen.
    + apply Forall_map. eapply Forall_impl; [| exact Hadj].
      simpl. intros a Ha. apply Qle_shift_div_l; lra.
    + unfold Qdiv. rewrite (sum_scale adjusted (/ Np.sum adjusted)).
      field. exact Hnz.
  - unfold _roulette_wheel_selection. rewrite Hm. simpl Rng.bind.
    fold adjusted.
    destruct (Qlt_le_dec (Np.sum adjusted) tiny) as [Hlt | _]; [lra |].
    rewrite (result_map_div adjusted (Np.sum adjusted) Hnz). reflexivity.
Qed.

Lemma list_item_lt {A} (xs : list A) (i : nat) :
  (i < List.length xs)%nat -> exists x, list_item xs i = Ok x /\ In x xs.
Proof.
  intros Hi. unfold list_item.
  destruct (nth_error xs i) as [x |] eqn:E.
  - exists x. split; [reflexivity |]. eapply nth_error_In. exact E.
  - apply nth_error_None in E. lia.
Qed.

Lemma roulette_always (population : list chromosome) (fitness : list Q) :
  fitness <> [] -> List.length fitness = List.length population ->
  always (fun c => In c population) (_roulette_wheel_selection population fitness).
Proof.
  intros Hne Hlen.
  destruct (roulette_is_proportional population fitness Hne Hlen)
    as [m [total [probs [_ [_ [_ [_ [Hvalid Heq]]]]]]]].
  rewrite Heq. simpl. split; [exact Hvalid |].
  intros i Hi. destruct (list_item_lt population i Hi) as [c [Hc Hin]].
  rewrite Hc. simpl. exact Hin.
Qed.

(** C6.  When every individual of a non-empty population has the same
    fitness, the adjusted total is the population size times [1e-10], which
    is not below the threshold: the selection does not take the uniform
    branch.  It divides by that positive total, and draws the index with
    [np.random.choice] under probabilities that are all one over the
    population size. *)
Theorem roulette_equal_fitness_is_uniform :
  forall (population : list chromosome) (fitness : list Q) (f0 : Q),
    population <> [] ->
    List.length fitness = List.length population ->
    Forall (fun f => f == f0) fitness ->
    exists probabilities,
      _roulette_wheel_selection population fitness
      = ChoiceP (List.length population) probabilities
                (fun i => lift (list_item population i)) /\
      valid_probabilities (List.length population) probabilities /\
      Forall (fun p => p == 1 / inject_Z (Z.of_nat (List.length population)))
             probabilities /\
      always (fun c => In c population) (_roulette_wheel_selection population fitness).
Proof.
  intros population fitness f0 Hpop Hlen Hall.
  assert (Hne : fitness <> []).
  { destruct fitness; [| discriminate]. destruct population; [contradiction | discriminate]. }
  destruct (roulette_is_proportional population fitness Hne Hlen)
    as [m [total [probs [Hm [Htotal [Hge [Hprobs [Hvalid Heq]]]]]]]].
  exists probs. split; [exact Heq |]. split; [exact Hvalid |].
  split; [| apply roulette_always; assumption].
  assert (Hm0 : m == f0).
  { destruct fitness as [| f rest]; [contradiction |].
    destruct (fold_min_le rest f) as [H1 H2].
    simpl in Hm. injection Hm as Hm. subst m.
    inversion Hall as [| ? ? Hf Hrest]; subst.
    assert (Hge0 : f0 <= fold_left Qmin rest f).
    { clear - Hf Hrest. revert f Hf. induction Hrest as [| x r Hx _ IH]; intros f Hf; simpl.
      - lra.
      - apply IH. unfold Qmin, GenericMinMax.gmin. destruct (f ?= x); lra. }
    lra. }
  assert (Hadj : Forall (fun x => x == tiny) (map (fun f => f - m + tiny) fitness)).
  { apply Forall_map. eapply Forall_impl; [| exact Hall]. simpl. intros a Ha. lra. }
  assert (Hsum : total == inject_Z (Z.of_nat (List.length population)) * tiny).
  { rewrite Htotal, <- Hlen.
    rewrite (sum_all_equal _ tiny Hadj). rewrite length_map. reflexivity. }
  assert (Hn : 0 < inject_Z (Z.of_nat (List.length population))).
  { apply EncodingFacts.inject_Z_pos. destruct population; [contradiction | simpl; lia]. }
  pose proof tiny_pos as Htiny.
  rewrite Hprobs. apply Forall_map. eapply Forall_impl; [| exact Hadj].
  simpl. intros a Ha. rewrite Ha, Hsum. field. split; lra.
Qed.

Lemma roulette_equal_fitness_is_uniform_witness :
  exists probabilities,
    _roulette_wheel_selection [[true; false]; [false; true]] [-5; -5]
    = ChoiceP 2 probabilities
              (fun i => lift (list_item [[true; false]; [false; true]] i)) /\
    valid_probabilities 2 probabilities /\
    Forall (fun p => p == 1 / inject_Z 2) probabilities /\
    always (fun c => In c [[true; false]; [false; true]])
           (_roulette_wheel_selection [[true; false]; [false; true]] [-5; -5]).
Proof.
  apply (roulette_equal_fitness_is_uniform [[true; false]; [false; true]] [-5; -5] (-5)).
  - discriminate.
  - reflexivity.
  - repeat constructor.
Defined.

(** C6 as stated fails: with two individuals of equal fitness the selection
    does not draw its index with [np.random.randint]. *)
Lemma roulette_equal_fitness_no_fallback :
  ~ Scenario.falls_back_to_uniform [[true; false]; [false; true]] [-5; -5].
Proof. unfold Scenario.falls_back_to_uniform. vm_compute. discriminate. Qed.

End SelectionFacts.

(** ** The generational loop *)

Module RunFacts.

Import GA Rng RngFacts SelectionFacts EncodingFacts Scenario.

Local Open Scope list_scope.
Local Open Scope Q_scope.

(** The length of the optimizer's chromosomes. *)
Local Abbreviation width self := (k0_bits self + k1_bits self + 1)%nat.

Lemma clip_in_unit_interval (x : Q) : 0 <= Np.clip x 0 1 <= 1.
Proof.
  unfold Np.clip. split.
  - apply Q.min_glb; [apply Q.le_max_r | lra].
  - apply Q.le_min_r.
Qed.

Lemma quantize_range (n : Q) (bits : nat) :
  0 <= n <= 1 -> (0 < bits)%nat ->
  (0 <= py_int (n * inject_Z (Z.shiftl 1 (Z.of_nat bits) - 1)) < 2 ^ Z.of_nat bits)%Z.
Proof.
  intros Hn Hb. rewrite Z.shiftl_1_l.
  set (M := (2 ^ Z.of_nat bits - 1)%Z).
  assert (Hpow : (2 ^ 1 <= 2 ^ Z.of_nat bits)%Z) by (apply Z.pow_le_mono_r; lia).
  assert (HM1 : (1 <= M)%Z) by (change (2 ^ 1)%Z with 2%Z in Hpow; unfold M; lia).
  assert (HMq : 1 <= inject_Z M).
  { change 1 with (inject_Z 1). rewrite <- Zle_Qle. exact HM1. }
  rewrite py_int_nonneg by (apply Qmult_le_0_compat; lra).
  assert (H0 : (Qfloor (inject_Z 0) <= Qfloor (n * inject_Z M))%Z).
  { apply Qfloor_resp_le. change (inject_Z 0) with 0. apply Qmult_le_0_compat; lra. }
  assert (H1 : (Qfloor (n * inject_Z M) <= Qfloor (inject_Z M))%Z).
  { apply Qfloor_resp_le. nra. }
  rewrite Qfloor_Z in H0, H1. subst M. lia.
Qed.

Lemma encode_parameter_total (v min_val max_val : Q) (bits : nat) :
  ~ max_val - min_val == 0 -> (0 < bits)%nat ->
  exists binary,
    _encode_parameter v min_val max_val bits = Ok binary /\ List.length binary = bits.
Proof.
  intros Hr Hb. unfold _encode_parameter, py_div.
  destruct (Qeq_bool (max_val - min_val) 0) eqn:E; [apply Qeq_bool_iff in E; contradiction |].
  simpl Py.bind. eexists. split; [reflexivity |].
  apply format_binary_length; [exact Hb |].
  apply quantize_range; [apply clip_in_unit_interval | exact Hb].
Qed.

Lemma create_individual_always (self : GeneticAlgorithm) :
  well_formed self ->
  always (fun c => List.length c = width self) (_create_individual self).
Proof.
  intros [Hb0 [Hb1 [Hr0 [Hr1 _]]]]. unfold _create_individual, uniform, choice_of.
  simpl. intros k0 _ k1 _. split; [discriminate |]. intros vs _.
  destruct (encode_parameter_total k0 _ _ (k0_bits self) Hr0 Hb0) as [b0 [E0 L0]].
  destruct (encode_parameter_total k1 _ _ (k1_bits self) Hr1 Hb1) as [b1 [E1 L1]].
  rewrite E0. simpl. rewrite E1. simpl.
  rewrite !length_app. simpl. lia.
Qed.

Lemma create_population_always (self : GeneticAlgorithm) (n : nat) :
  well_formed self ->
  always (fun pop => List.length pop = n /\
                     Forall (fun c => List.length c = width self) pop)
         (create_population self n).
Proof.
  intros Hwf. induction n as [| n IH]; cbn [create_population].
  - simpl. split; [reflexivity | constructor].
  - apply (always_seq (fun c => List.length c = width self));
      [apply create_individual_always; exact Hwf |].
    intros c Hc.
    apply (always_seq (fun pop => List.length pop = n /\
                                  Forall (fun c => List.length c = width self) pop));
      [exact IH |].
    intros pop [Hlen Hall]. simpl. split; [lia | constructor; assumption].
Qed.

Lemma crossover_always (self : GeneticAlgorithm) (parent1 parent2 : chromosome) (L : nat) :
  List.length parent1 = L -> List.length parent2 = L -> (2 <= L)%nat ->
  always (fun ch => List.length (fst ch) = L /\ List.length (snd ch) = L)
         (_crossover self parent1 parent2).
Proof.
  intros L1 L2 HL. unfold _crossover, random, randint. simpl. intros r _.
  destruct (Qlt_le_dec (crossover_rate self) r); simpl.
  - split; assumption.
  - split; [lia |]. intros z Hz.
    rewrite !length_app, !length_firstn, !length_skipn. lia.
Qed.

Lemma mutate_always (rate : Q) (c : chromosome) :
  always (fun c' => List.length c' = List.length c) (mutate_bits rate c).
Proof.
  induction c as [| b rest IH]; cbn [mutate_bits].
  - reflexivity.
  - unfold random. cbn [Rng.bind]. intros r _. apply (always_seq (fun c' => List.length c' = List.length rest));
      [exact IH |].
    intros rest' Hrest. simpl. lia.
Qed.

Lemma fill_population_always (self : GeneticAlgorithm) (population : list chromosome)
    (fitness : list Q) (new_population : list chromosome) (L : nat) :
  (2 <= L)%nat ->
  fitness <> [] -> List.length fitness = List.length population ->
  Forall (fun c => List.length c = L) population ->
  Forall (fun c => List.length c = L) new_population ->
  always (fun np => Forall (fun c => List.length c = L) np /\
                    (population_size self <= List.length np)%nat /\
                    (List.length new_population <= List.length np)%nat)
         (fill_population self population fitness new_population).
Proof.
  intros HL Hne Hlen Hpop.
  funelim (fill_population self population fitness new_population); intros Hnew.
  - assert (Hsel : always (fun c => List.length c = L)
                          (_roulette_wheel_selection population fitness)).
    { apply (always_mono (fun c => In c population));
        [| apply roulette_always; assumption].
      intros c Hc. rewrite Forall_forall in Hpop. apply Hpop. exact Hc. }
    apply (always_seq (fun c => List.length c = L)); [exact Hsel |].
    intros parent1 Hp1.
    apply (always_seq (fun c => List.length c = L)); [exact Hsel |].
    intros parent2 Hp2.
    apply (always_seq (fun ch => List.length (fst ch) = L /\ List.length (snd ch) = L));
      [apply crossover_always; assumption |].
    intros children [Hc1 Hc2].
    apply (always_seq (fun c => List.length c = L)).
    { unfold _mutate. rewrite <- Hc1. apply mutate_always. }
    intros child1 Hm1.
    apply (always_seq (fun c => List.length c = L)).
    { unfold _mutate. rewrite <- Hc2. apply mutate_always. }
    intros child2 Hm2.
    assert (Hnew' : Forall (fun c => List.length c = L) (new_population ++ [child1; child2])).
    { apply Forall_app. split; [exact Hnew |]. repeat constructor; assumption. }
    eapply always_mono;
      [| apply (H parent1 parent2 children child1 child2 L HL Hne Hlen Hpop Hnew')].
    intros np [Hall [Hsize Hgrow]]. split; [exact Hall |]. split; [exact Hsize |].
    rewrite length_app in Hgrow. simpl in Hgrow. lia.
  - simpl. split; [exact Hnew |]. split; lia.
Qed.

Lemma result_map_total {A B} (f : A -> result B) (xs : list A) :
  Forall (fun x => exists y, f x = Ok y) xs ->
  exists ys, result_map f xs = Ok ys /\ List.length ys = List.length xs.
Proof.
  induction 1 as [| x rest [y Hy] _ [ys [Hys Hlen]]]; simpl.
  - exists []. split; reflexivity.
  - rewrite Hy. simpl. rewrite Hys. simpl. exists (y :: ys). split; [reflexivity |].
    simpl. lia.
Qed.

Lemma argmax_from_lt (xs : list Q) :
  forall i best_i best, (best_i < i)%nat ->
    (Np.argmax_from xs i best_i best < i + List.length xs)%nat.
Proof.
  induction xs as [| x rest IH]; intros i best_i best Hlt; simpl.
  - lia.
  - destruct (Qlt_le_dec best x).
    + specialize (IH (S i) i x). lia.
    + specialize (IH (S i) best_i best). lia.
Qed.

Lemma argmax_total (xs : list Q) :
  xs <> [] -> exists i, Np.argmax xs = Ok i /\ (i < List.length xs)%nat.
Proof.
  destruct xs as [| x rest]; intros H; [contradiction |].
  simpl. eexists. split; [reflexivity |].
  pose proof (argmax_from_lt rest 1 0 x). lia.
Qed.

Lemma Forall_firstn_len {A} (P : A -> Prop) (n : nat) (xs : list A) :
  Forall P xs -> Forall P (firstn n xs).
Proof.
  intros H. revert n. induction H as [| x rest Hx _ IH]; intros n.
  - rewrite firstn_nil. constructor.
  - destruct n; simpl; [constructor |]. constructor; [exact Hx | apply IH].
Qed.

Lemma non_increasing_nth (xs : list Q) :
  non_increasing xs ->
  forall i, (S i < List.length xs)%nat -> nth (S i) xs 0 <= nth i xs 0.
Proof.
  induction xs as [| a rest IH]; intros H i Hi.
  - simpl in Hi. lia.
  - destruct rest as [| b rest'].
    + simpl in Hi. lia.
    + destruct H as [Hba Hrest]. destruct i as [| i].
      * simpl. exact Hba.
      * change (nth (S i) (b :: rest') 0 <= nth i (b :: rest') 0).
        apply IH; [exact Hrest | simpl in Hi |- *; lia].
Qed.

Section WithGenerator.

Variable _generate_trajectory : GeneticAlgorithm -> Q -> Q -> Z -> list pose * Q * Q.

Lemma evaluate_fitness_total (self : GeneticAlgorithm) (c : chromosome) :
  (exists d, call_decode_individual self c = Ok d) ->
  exists f, _evaluate_fitness _generate_trajectory self c = Ok f.
Proof.
  intros [[[k0 k1] vs] Hd]. unfold _evaluate_fitness. rewrite Hd. simpl.
  destruct (_generate_trajectory self k0 k1 vs) as [[trajectory path_length] max_steering].
  eexists. reflexivity.
Qed.

Lemma update_best_spec (population : list chromosome) (fitness : list Q) (idx : nat)
    (best_individual : option chromosome) (best_fitness : option Q) (L : nat) :
  (idx < List.length fitness)%nat ->
  List.length fitness = List.length population ->
  Forall (fun c => List.length c = L) population ->
  (forall f, best_fitness = Some f ->
             exists b, best_individual = Some b /\ List.length b = L) ->
  exists best f',
    update_best population fitness idx best_individual best_fitness
    = Ok (Some best, f') /\
    List.length best = L /\
    (forall f, best_fitness = Some f -> f <= f').
Proof.
  intros Hidx Hlen Hpop Hbest. unfold update_best.
  destruct (list_item_lt fitness idx Hidx) as [f_max [Hf _]].
  assert (Hidx' : (idx < List.length population)%nat) by lia.
  destruct (list_item_lt population idx Hidx') as [ind [Hind Hin]].
  assert (Hindlen : List.length ind = L).
  { rewrite Forall_forall in Hpop. apply Hpop. exact Hin. }
  rewrite Hf. simpl Py.bind.
  destruct best_fitness as [bf |].
  - destruct (Qlt_le_dec bf f_max) as [Hlt | Hge].
    + rewrite Hind. simpl. exists ind, f_max. split; [reflexivity |].
      split; [exact Hindlen |]. intros f E. injection E as <-. lra.
    + destruct (Hbest bf eq_refl) as [b [Eb Lb]]. subst best_individual.
      exists b, bf. split; [reflexivity |]. split; [exact Lb |].
      intros f E. injection E as <-. lra.
  - rewrite Hind. simpl. exists ind, f_max. split; [reflexivity |].
    split; [exact Hindlen |]. intros f E. discriminate.
Qed.

(** The loop invariant: after [n] more generations the object is still well
    formed, its history has grown by [n] costs that never go up, starting
    no higher than the running best, and a best individual of the right
    length is held. *)
Lemma run_generations_always (n : nat) :
  forall (self : GeneticAlgorithm) (population : list chromosome)
         (best_individual : option chromosome) (best_fitness : option Q),
    well_formed self ->
    (1 <= population_size self)%nat ->
    population <> [] ->
    Forall (fun c => List.length c = width self) population ->
    (forall f, best_fitness = Some f ->
               exists b, best_individual = Some b /\ List.length b = width self) ->
    always
      (fun st =>
         well_formed (fst st) /\
         (exists seg,
             best_fitness_history (fst st) = best_fitness_history self ++ seg /\
             List.length seg = n /\
             non_increasing (after_best best_fitness seg)) /\
         ((0 < n)%nat \/
          (exists b, best_individual = Some b /\ List.length b = width self) ->
          exists b, snd st = Some b /\ List.length b = width (fst st)))
      (run_generations _generate_trajectory n self population best_individual best_fitness).
Proof.
  induction n as [| n IH]; intros self population best_individual best_fitness
                                  Hwf Hsize Hne Hpop Hbest; cbn [run_generations].
  - simpl. split; [exact Hwf |]. split.
    + exists []. rewrite app_nil_r. split; [reflexivity |]. split; [reflexivity |].
      destruct best_fitness; simpl; exact I.
    + intros [H | H]; [lia | exact H].
  - destruct Hwf as [Hb0 [Hb1 [Hr0 [Hr1 Hdec]]]].
    assert (Hwf : well_formed self) by (repeat split; assumption).
    destruct (result_map_total (_evaluate_fitness _generate_trajectory self) population)
      as [fitness [Hfit Hfitlen]].
    { eapply Forall_impl; [| exact Hpop]. intros c Hc.
      apply evaluate_fitness_total. apply Hdec. exact Hc. }
    rewrite Hfit. cbn [lift Rng.bind].
    assert (Hfne : fitness <> []).
    { destruct fitness; [| discriminate]. destruct population; [contradiction | discriminate]. }
    destruct (argmax_total fitness Hfne) as [idx [Hidx Hlt]].
    rewrite Hidx. cbn [lift Rng.bind].
    destruct (update_best_spec population fitness idx best_individual best_fitness
                (width self) Hlt Hfitlen Hpop Hbest) as [best [f' [Hup [Hbl Hf']]]].
    rewrite Hup. cbn [lift Rng.bind].
    set (self1 := set_history self (best_fitness_history self ++ [- f'])
                    (avg_fitness_history self ++ [- Np.mean fitness])
                    (best_individual_history self ++ [best])).
    assert (Hwf1 : well_formed self1) by exact Hwf.
    apply (always_seq
             (fun np => Forall (fun c => List.length c = width self) np /\
                        (population_size self1 <= List.length np)%nat /\
                        (List.length [best] <= List.length np)%nat)).
    { apply fill_population_always; try assumption.
      - lia.
      - repeat constructor. exact Hbl. }
    intros np [Hnp [Hnps Hnpl]].
    eapply always_mono;
      [| apply (IH self1 (firstn (population_size self1) np) (Some best) (Some f') Hwf1 Hsize)].
    + intros [self' bi'] [Hwf' [[seg [Hhist [Hseglen Hsorted]]] Hbi]].
      cbn [fst snd] in *.
      split; [exact Hwf' |]. split.
      * exists (- f' :: seg). split.
        { rewrite Hhist. unfold self1. cbn [best_fitness_history set_history].
          rewrite <- app_assoc. reflexivity. }
        split; [simpl; lia |].
        destruct best_fitness as [f |]; [| exact Hsorted].
        split; [| exact Hsorted].
        specialize (Hf' f eq_refl). lra.
      * intros _. apply Hbi. right. exists best. split; [reflexivity | exact Hbl].
    + intros E. apply (f_equal (@List.length _)) in E.
      rewrite length_firstn in E. simpl in E, Hnpl.
      change (population_size self1) with (population_size self) in E. lia.
    + apply Forall_firstn_len. exact Hnp.
    + intros f E. injection E as <-. exists best. split; [reflexivity | exact Hbl].
Qed.

(** What one call of [run] does to the history, whatever is drawn: it
    returns, and the object's [best_fitness_history], which the result holds
    as [fitness_history], has grown by one cost per generation, none above
    the one before it. *)
Lemma run_history_segment (self : GeneticAlgorithm) :
  well_formed self ->
  (1 <= population_size self)%nat ->
  (1 <= generations self)%nat ->
  always
    (fun out =>
       exists seg,
         best_fitness_history (snd out) = best_fitness_history self ++ seg /\
         fitness_history (fst out) = best_fitness_history (snd out) /\
         List.length seg = generations self /\
         non_increasing seg)
    (run _generate_trajectory self).
Proof.
  intros Hwf Hsize Hgen. unfold run.
  apply (always_seq
           (fun pop => List.length pop = population_size self /\
                       Forall (fun c => List.length c = width self) pop));
    [apply create_population_always; exact Hwf |].
  intros population [Hlen Hpop].
  assert (Hne : population <> []).
  { intros E. rewrite E in Hlen. simpl in Hlen. lia. }
  eapply always_seq.
  - apply (run_generations_always (generations self) self population None None
             Hwf Hsize Hne Hpop).
    intros f E. discriminate.
  - intros [self' bi'] [Hwf' [[seg [Hhist [Hseglen Hsorted]]] Hbi]].
    cbn [fst snd] in *.
    destruct Hbi as [best [Ebest Lbest]]; [left; lia |].
    subst bi'.
    destruct Hwf' as [_ [_ [_ [_ Hdec]]]].
    destruct (Hdec best Lbest) as [[[k0 k1] vs] Hd].
    rewrite Hd. cbn [lift Rng.bind].
    destruct (_generate_trajectory self' k0 k1 vs) as [[trajectory path_length] max_steering].
    simpl. exists seg. split; [exact Hhist |]. split; [reflexivity |].
    split; [exact Hseglen | exact Hsorted].
Qed.

(** C2.  For every run of the optimizer on a well-formed object with at
    least one individual and one generation, whatever is drawn: the run
    returns; it has appended one best cost per generation to the object's
    [best_fitness_history], which is the list the result holds as
    [fitness_history]; and from each generation to the next the recorded
    best cost does not go up. *)
Theorem run_best_fitness_history_non_increasing :
  forall (self : GeneticAlgorithm),
    well_formed self ->
    (1 <= population_size self)%nat ->
    (1 <= generations self)%nat ->
    always
      (fun out =>
         exists seg,
           best_fitness_history (snd out) = best_fitness_history self ++ seg /\
           fitness_history (fst out) = best_fitness_history (snd out) /\
           List.length seg = generations self /\
           forall i, (S i < generations self)%nat -> nth (S i) seg 0 <= nth i seg 0)
      (run _generate_trajectory self).
Proof.
  intros self Hwf Hsize Hgen.
  eapply always_mono; [| apply (run_history_segment self Hwf Hsize Hgen)].
  intros out [seg [Hhist [Hres [Hlen Hsorted]]]].
  exists seg. split; [exact Hhist |]. split; [exact Hres |]. split; [exact Hlen |].
  intros i Hi. apply (non_increasing_nth seg Hsorted). lia.
Qed.

(** On a freshly constructed object the history is exactly the run's own
    entries. *)
Lemma run_fresh_history_non_increasing (self : GeneticAlgorithm) :
  well_formed self ->
  (1 <= population_size self)%nat ->
  (1 <= generations self)%nat ->
  best_fitness_history self = [] ->
  always
    (fun out =>
       List.length (fitness_history (fst out)) = generations self /\
       non_increasing (fitness_history (fst out)))
    (run _generate_trajectory self).
Proof.
  intros Hwf Hsize Hgen Hfresh.
  eapply always_mono; [| apply (run_history_segment self Hwf Hsize Hgen)].
  intros out [seg [Hhist [Hres [Hlen Hsorted]]]].
  rewrite Hres, Hhist, Hfresh. simpl. split; assumption.
Qed.

(** [run] does not clear the history: on an object that has run before, the
    earlier entries stay in front of the new ones. *)
Lemma run_keeps_earlier_history (self : GeneticAlgorithm) (earlier : list Q) :
  well_formed self ->
  (1 <= population_size self)%nat ->
  (1 <= generations self)%nat ->
  best_fitness_history self = earlier ->
  always
    (fun out =>
       firstn (List.length earlier) (fitness_history (fst out)) = earlier /\
       List.length (fitness_history (fst out))
       = (List.length earlier + generations self)%nat)
    (run _generate_trajectory self).
Proof.
  intros Hwf Hsize Hgen Hearlier.
  eapply always_mono; [| apply (run_history_segment self Hwf Hsize Hgen)].
  intros [res self'] [seg [Hhist [Hres [Hlen _]]]]. cbn [fst snd] in *.
  rewrite Hres, Hhist, Hearlier. split.
  - rewrite firstn_app, Nat.sub_diag, firstn_all. simpl. apply app_nil_r.
  - rewrite length_app. lia.
Qed.

End WithGenerator.

Lemma class_decoder_returns (self : GeneticAlgorithm) :
  decode_individual_attr self = None ->
  (0 < k0_bits self)%nat -> (0 < k1_bits self)%nat ->
  forall c, List.length c = width self ->
            exists d, call_decode_individual self c = Ok d.
Proof.
  intros Hattr H0 H1 c Hc.
  assert (Hne : c <> []) by (intros E; rewrite E in Hc; simpl in Hc; lia).
  destruct (exists_last Hne) as [body [b E]]. subst c.
  rewrite length_app in Hc. simpl in Hc.
  destruct (ParkingFacts.decode_individual_split self body b H0 H1) as [k0 [k1 [_ [_ Hd]]]];
    [lia |].
  unfold call_decode_individual. rewrite Hattr. eexists. exact Hd.
Qed.

(** The constructor builds well-formed optimizers. *)
Lemma constructor_well_formed (initial_pose final_pose : pose)
    (obstacles : list Obstacle) (vehicle_params : dict Q)
    (population_size generations : nat) (crossover_rate mutation_rate : Q)
    (k0_range k1_range : Q * Q) (precision : Q) (self : GeneticAlgorithm) :
  new_GeneticAlgorithm initial_pose final_pose obstacles vehicle_params population_size
    generations crossover_rate mutation_rate k0_range k1_range precision = Ok self ->
  well_formed self /\ best_fitness_history self = [].
Proof.
  unfold new_GeneticAlgorithm.
  destruct (_calculate_bits (fst k0_range) (snd k0_range) precision) as [b0 |] eqn:E0;
    [| discriminate].
  destruct (_calculate_bits (fst k1_range) (snd k1_range) precision) as [b1 |] eqn:E1;
    [| discriminate].
  simpl. intros H. injection H as <-.
  destruct (calculate_bits_spec _ _ _ _ E0) as [H80 [Hp0 _]].
  destruct (calculate_bits_spec _ _ _ _ E1) as [H81 [Hp1 _]].
  split; [| reflexivity].
  assert (Hnz : forall r : Q * Q, 0 < (snd r - fst r) / precision -> ~ snd r - fst r == 0).
  { intros r Hpos E. rewrite E in Hpos. unfold Qdiv in Hpos.
    rewrite Qmult_0_l in Hpos. lra. }
  unfold well_formed. simpl.
  split; [lia |]. split; [lia |].
  split; [apply Hnz; exact Hp0 |]. split; [apply Hnz; exact Hp1 |].
  apply (class_decoder_returns
           (mkGA initial_pose final_pose obstacles vehicle_params population_size
                 generations crossover_rate mutation_rate k0_range k1_range precision
                 (b0 + b1 + 1) b0 b1 1 [] [] [] None)); simpl; [reflexivity | lia | lia].
Qed.

(** The decoder that a forced phase installs keeps the object well formed. *)
Lemma forced_decoder_well_formed (self : GeneticAlgorithm) (d : Z) :
  well_formed self ->
  well_formed
    (set_decode_individual self
       (Some (Parking.forced_decode (call_decode_individual self) d))).
Proof.
  intros [H0 [H1 [Hr0 [Hr1 Hdec]]]].
  unfold well_formed. simpl.
  split; [exact H0 |]. split; [exact H1 |]. split; [exact Hr0 |]. split; [exact Hr1 |].
  intros c Hc. destruct (Hdec c Hc) as [[[k0 k1] vs] Hd].
  unfold call_decode_individual at 1. simpl. unfold Parking.forced_decode.
  rewrite Hd. simpl. eexists. reflexivity.
Qed.

Lemma run_best_fitness_history_non_increasing_witness :
  always
    (fun out =>
       exists seg,
         best_fitness_history (snd out) = best_fitness_history small_optimizer ++ seg /\
         fitness_history (fst out) = best_fitness_history (snd out) /\
         List.length seg = generations small_optimizer /\
         forall i, (S i < generations small_optimizer)%nat ->
                   nth (S i) seg 0 <= nth i seg 0)
    (run straight_line small_optimizer).
Proof.
  apply (run_best_fitness_history_non_increasing straight_line small_optimizer).
  - apply (constructor_well_formed initial_pose final_pose obstacles vehicle_params
             4 3 (6 # 10) (4 # 100) (-2, 2) (-2, 2) (1 # 100000000)).
    vm_compute. reflexivity.
  - vm_compute. lia.
  - vm_compute. lia.
Defined.

(** A second run on one object, as the second phase of the parking
    optimizer is: with every draw at the low end of its range, the history
    that held the cost 1 comes back as 1 followed by the two costs of the
    new run. *)
Lemma run_on_reused_object :
  exists res self',
    sample (run straight_line reused_optimizer) [] = Ok (res, self') /\
    map Qred (fitness_history res) = [1; 184041; 184041] /\
    best_fitness_history self' = fitness_history res.
Proof.
  eexists. eexists. split; [vm_compute; reflexivity |].
  split; vm_compute; reflexivity.
Qed.

(** C2 as stated, over the whole [best_fitness_history], fails on the second
    run of one object.  An optimizer is built for the short way to
    [near_pose] and run; then, as the parking optimizer does between its two
    phases, the poses of the object are replaced and it is run again, with
    every draw at the low end of its range.  The first run's entries stay at
    the front of the list and the first entry of the second run is above
    them. *)
Lemma run_history_rises_on_second_run :
  exists self0 res1 self1 res2 self2,
    new_GeneticAlgorithm initial_pose near_pose obstacles vehicle_params
      2 2 (6 # 10) (4 # 100) (-2, 2) (-2, 2) (1 # 10) = Ok self0 /\
    sample (run straight_line self0) [] = Ok (res1, self1) /\
    sample (run straight_line (set_poses self1 initial_pose final_pose)) []
    = Ok (res2, self2) /\
    fitness_history res2 = best_fitness_history self2 /\
    map Qred (best_fitness_history self2) = [1; 1; 184041; 184041] /\
    ~ (forall i, (S i < List.length (best_fitness_history self2))%nat ->
                 nth (S i) (best_fitness_history self2) 0
                 <= nth i (best_fitness_history self2) 0).
Proof.
  eexists. eexists. eexists. eexists. eexists.
  split; [vm_compute; reflexivity |].
  split; [vm_compute; reflexivity |].
  split; [vm_compute; reflexivity |].
  split; [vm_compute; reflexivity |].
  split; [vm_compute; reflexivity |].
  intros Hmono. specialize (Hmono 1%nat).
  vm_compute in Hmono. apply Hmono; [repeat constructor | reflexivity].
Qed.

End RunFacts.

(** ** Membership functions and fuzzification *)

Module MembershipFacts.

Import Fuzzy DictFacts SumFacts.

Local Open Scope list_scope.
Local Open Scope Q_scope.

Lemma clip_unit (x : Q) : 0 <= Np.clip x 0 1 <= 1.
Proof.
  unfold Np.clip. split.
  - apply Q.min_glb; [apply Q.le_max_r | lra].
  - apply Q.le_min_r.
Qed.





Lemma triangular_mf_samples (v : FuzzyVariable) (a b c : Q) :
  _triangular_mf v [a; b; c] = Ok (map (triangle_at a b c) (universe v)).
Proof. reflexivity. Qed.

Lemma trapezoidal_mf_samples (v : FuzzyVariable) (a b c d : Q) :
  _trapezoidal_mf v [a; b; c; d] = Ok (map (trapezoid_at a b c d) (universe v)).
Proof. reflexivity. Qed.









Lemma triangle_at_unit (a b c u : Q) : 0 <= triangle_at a b c u <= 1.
Proof. apply clip_unit. Qed.

Lemma trapezoid_at_unit (a b c d u : Q) : 0 <= trapezoid_at a b c d u <= 1.
Proof. apply clip_unit. Qed.

Lemma dict_get_set_cases {V} (k k0 : string) (v : V) (d : dict V) :
  dict_get k0 (dict_set k v d) = if String.eqb k0 k then Some v else dict_get k0 d.
Proof.
  destruct (String.eqb k0 k) eqn:E.
  - apply String.eqb_eq in E. subst. apply dict_get_set_same.
  - apply dict_get_set_other. intros H. subst. rewrite String.eqb_refl in E. discriminate.
Qed.

Lemma add_term_keeps_unit_valued (v v' : FuzzyVariable) (term_name mf_type : string)
    (params : list Q) :
  unit_valued v -> add_term v term_name mf_type params = Ok v' -> unit_valued v'.
Proof.
  intros Hv. unfold add_term.
  destruct (String.eqb mf_type "trimf").
  - destruct params as [| a [| b [| c [| ? ?]]]]; try discriminate.
    rewrite triangular_mf_samples. simpl. intros H. injection H as <-.
    unfold unit_valued. cbn [terms]. apply FuzzyFacts.dict_set_Forall; [| exact Hv].
    intros k. cbn [snd]. apply Forall_map. apply Forall_forall.
    intros u _. apply triangle_at_unit.
  - destruct (String.eqb mf_type "trapmf").
    + destruct params as [| a [| b [| c [| d [| ? ?]]]]]; try discriminate.
      rewrite trapezoidal_mf_samples. simpl. intros H. injection H as <-.
      unfold unit_valued. cbn [terms]. apply FuzzyFacts.dict_set_Forall; [| exact Hv].
      intros k. cbn [snd]. apply Forall_map. apply Forall_forall.
      intros u _. apply trapezoid_at_unit.
    + destruct (String.eqb mf_type "gaussmf"); discriminate.
Qed.



(** X4.  [add_term] with a kind the class does not implement raises and builds
    nothing: [AttributeError] for ["gaussmf"], whose method is missing,
    [ValueError] for any other name. *)
Theorem add_term_unsupported_kind :
  forall (v : FuzzyVariable) (term_name mf_type : string) (params : list Q),
    mf_type <> "trimf"%string -> mf_type <> "trapmf"%string ->
    add_term v term_name mf_type params
    = Raise (if String.eqb mf_type "gaussmf" then AttributeError else ValueError).
Proof.
  intros v term_name mf_type params H1 H2. unfold add_term.
  destruct (String.eqb mf_type "trimf") eqn:E1;
    [apply String.eqb_eq in E1; contradiction |].
  destruct (String.eqb mf_type "trapmf") eqn:E2;
    [apply String.eqb_eq in E2; contradiction |].
  destruct (String.eqb mf_type "gaussmf"); reflexivity.
Qed.

Lemma add_term_unsupported_kind_witness :
  add_term (new_FuzzyVariable "x" 0 10 11) "bell" "gaussmf" [5; 2] = Raise AttributeError /\
  add_term (new_FuzzyVariable "x" 0 10 11) "s" "sigmf" [5; 2] = Raise ValueError.
Proof.
  split.
  - apply (add_term_unsupported_kind (new_FuzzyVariable "x" 0 10 11) "bell" "gaussmf" [5; 2]);
      discriminate.
  - apply (add_term_unsupported_kind (new_FuzzyVariable "x" 0 10 11) "s" "sigmf" [5; 2]);
      discriminate.
Defined.

End MembershipFacts.

(** ** Fuzzification and inference *)

Module InferenceFacts.

Import Fuzzy DictFacts SumFacts FuzzyFacts FuzzyErrors MembershipFacts.

Local Open Scope list_scope.
Local Open Scope Q_scope.

(** [argmin_from] over what follows a prefix keeps the first least element
    of the whole list. *)
Lemma argmin_from_first_least (xs : list Q) :
  forall (pre : list Q) (best_i : nat) (best : Q),
    (best_i < List.length pre)%nat ->
    nth best_i pre 0 = best ->
    Forall (fun x => best <= x) pre ->
    (forall j, (j < best_i)%nat -> best < nth j pre 0) ->
    let r := Np.argmin_from xs (List.length pre) best_i best in
    (r < List.length (pre ++ xs))%nat /\
    Forall (fun x => nth r (pre ++ xs) 0 <= x) (pre ++ xs) /\
    (forall j, (j < r)%nat -> nth r (pre ++ xs) 0 < nth j (pre ++ xs) 0).
Proof.
  induction xs as [| x rest IH]; intros pre best_i best Hbi Hnth Hle Hfirst; simpl.
  - rewrite app_nil_r. rewrite Hnth. split; [exact Hbi |]. split; assumption.
  - assert (Hlen : List.length (pre ++ [x]) = S (List.length pre))
      by (rewrite length_app; simpl; lia).
    replace (pre ++ x :: rest) with ((pre ++ [x]) ++ rest)
      by (rewrite <- app_assoc; reflexivity).
    destruct (Qlt_le_dec x best) as [Hlt | Hge].
    + rewrite <- Hlen. apply IH.
      * rewrite Hlen. lia.
      * rewrite app_nth2 by lia. rewrite Nat.sub_diag. reflexivity.
      * apply Forall_app. split.
        -- eapply Forall_impl; [| exact Hle]. simpl. intros a Ha. lra.
        -- constructor; [lra | constructor].
      * intros j Hj. rewrite app_nth1 by lia.
        assert (Hin : In (nth j pre 0) pre) by (apply nth_In; lia).
        rewrite Forall_forall in Hle. specialize (Hle _ Hin). lra.
    + rewrite <- Hlen. apply IH.
      * rewrite Hlen. lia.
      * rewrite app_nth1 by lia. exact Hnth.
      * apply Forall_app. split; [exact Hle | constructor; [exact Hge | constructor]].
      * intros j Hj. rewrite app_nth1 by lia. apply Hfirst. exact Hj.
Qed.

Lemma argmin_first_least (xs : list Q) :
  xs <> [] ->
  exists r,
    Np.argmin xs = Ok r /\ (r < List.length xs)%nat /\
    Forall (fun x => nth r xs 0 <= x) xs /\
    (forall j, (j < r)%nat -> nth r xs 0 < nth j xs 0).
Proof.
  destruct xs as [| x rest]; intros H; [contradiction |].
  exists (Np.argmin_from rest 1 0 x). split; [reflexivity |].
  apply (argmin_from_first_least rest [x] 0%nat x).
  - simpl. lia.
  - reflexivity.
  - constructor; [lra | constructor].
  - intros j Hj. lia.
Qed.

(** X5.  [fuzzify] reads every term at one and the same sample.  On an empty
    universe it raises [ValueError].  Otherwise it returns one value per
    term, in the order of the terms: the entry of the term's array at one
    index into the universe, and when the clipped reading is itself a sample
    that index holds a sample equal to it. *)
Theorem fuzzify_reads_one_sample :
  forall (v : FuzzyVariable) (crisp_value : Q),
    let clipped := Np.clip crisp_value (min_val v) (max_val v) in
    (universe v = [] -> fuzzify v crisp_value = Raise ValueError) /\
    (universe v <> [] ->
     exists idx,
       (idx < List.length (universe v))%nat /\
       fuzzify v crisp_value
       = Ok (map (fun entry => (fst entry, nth idx (snd entry) 0)) (terms v)) /\
       ((exists u, In u (universe v) /\ u == clipped) ->
        nth idx (universe v) 0 == clipped)).
Proof.
  intros v crisp_value clipped. unfold fuzzify. fold clipped. split.
  - intros E. rewrite E. reflexivity.
  - intros Hne.
    set (dist := map (fun u => Qabs (u - clipped)) (universe v)).
    assert (Hd : dist <> []).
    { unfold dist. destruct (universe v); [contradiction | discriminate]. }
    destruct (argmin_first_least dist Hd) as [r [Hr [Hlt [Hleast _]]]].
    assert (Hlen : List.length dist = List.length (universe v)) by apply length_map.
    assert (Hnth : nth r dist 0 = Qabs (nth r (universe v) 0 - clipped)).
    { unfold dist.
      rewrite (nth_indep _ 0 (Qabs (0 - clipped)))
        by (rewrite length_map; lia).
      exact (map_nth (fun u => Qabs (u - clipped)) (universe v) 0 r). }
    exists r. split; [lia |]. split.
    + rewrite Hr. simpl. f_equal. apply map_ext. intros [t mf]. reflexivity.
    + intros [u [Hu Hhit]].
      rewrite Forall_forall in Hleast.
      assert (Hle : nth r dist 0 <= Qabs (u - clipped)).
      { apply Hleast. unfold dist. apply in_map_iff. exists u.
        split; [reflexivity | exact Hu]. }
      rewrite Hnth in Hle.
      assert (Hzero : Qabs (u - clipped) == 0).
      { assert (E : u - clipped == 0) by lra. rewrite E. reflexivity. }
      rewrite Hzero in Hle.
      pose proof (Qabs_nonneg (nth r (universe v) 0 - clipped)) as Hge.
      set (d := nth r (universe v) 0 - clipped) in *.
      assert (Habs : Qabs d <= 0) by lra.
      apply Qabs_Qle_condition in Habs. unfold d in Habs. lra.
Qed.

(** X6.  The values [fuzzify] returns lie between 0 and 1 when the arrays of
    the variable do. *)
Theorem fuzzify_unit_values :
  forall (v : FuzzyVariable) (crisp_value : Q) (ms : dict Q),
    unit_valued v ->
    fuzzify v crisp_value = Ok ms ->
    dict_keys ms = dict_keys (terms v) /\
    Forall (fun entry => 0 <= snd entry <= 1) ms.
Proof.
  intros v crisp_value ms Hunit. unfold fuzzify.
  destruct (Np.argmin _) as [idx |]; [| discriminate].
  simpl. intros H. injection H as <-. split.
  - unfold dict_keys. rewrite map_map. apply map_ext. intros [t mf]. reflexivity.
  - apply Forall_map. unfold unit_valued in Hunit.
    eapply Forall_impl; [| exact Hunit]. intros [t mf] Hmf. simpl in *.
    destruct (nth_in_or_default idx mf 0) as [Hin | Hd].
    + rewrite Forall_forall in Hmf. apply Hmf. exact Hin.
    + rewrite Hd. lra.
Qed.

Lemma fuzzify_unit_values_witness :
  exists v ms,
    add_term (new_FuzzyVariable "x" 0 10 11) "mid" "trimf" [0; 5; 10] = Ok v /\
    unit_valued v /\
    fuzzify v 7 = Ok ms /\
    dict_keys ms = ["mid"%string] /\
    Forall (fun entry => 0 <= snd entry <= 1) ms.
Proof.
  eexists. eexists. split; [reflexivity |].
  assert (Hu : unit_valued (new_FuzzyVariable "x" 0 10 11)) by constructor.
  pose proof (add_term_keeps_unit_valued _ _ "mid" "trimf" [0; 5; 10] Hu eq_refl) as Hu'.
  split; [exact Hu' |]. split; [reflexivity |].
  exact (fuzzify_unit_values _ 7 _ Hu' eq_refl).
Defined.

Lemma fuzzification_total (self : FuzzyInferenceSystem) :
  forall (input_values : dict Q) (acc : dict (dict Q)),
    (forall k, In k (dict_keys input_values) ->
               exists v, dict_get k (inputs self) = Some v /\ universe v <> []) ->
    exists fuzzified,
      infer_fuzzification self input_values acc = Ok fuzzified /\
      forall k, dict_get k fuzzified <> None <->
                In k (dict_keys input_values) \/ dict_get k acc <> None.
Proof.
  intros input_values.
  induction input_values as [| [k0 x0] rest IH]; intros acc Hknown.
  - exists acc. split; [reflexivity |]. intros k. simpl. tauto.
  - simpl. unfold dict_item.
    destruct (Hknown k0) as [v0 [E0 Hne]]; [left; reflexivity |].
    rewrite E0.
    destruct (fuzzify_total v0 x0 Hne) as [ms Hms].
    simpl. rewrite Hms. simpl.
    destruct (IH (dict_set k0 ms acc)) as [f [Hf Hkeys]].
    { intros k Hk. apply Hknown. right. exact Hk. }
    exists f. split; [exact Hf |]. intros k. rewrite Hkeys.
    rewrite MembershipFacts.dict_get_set_cases.
    destruct (String.eqb k k0) eqn:E.
    + apply String.eqb_eq in E. subst k0. split; [intros _; left; left; reflexivity |].
      intros _. right. discriminate.
    + split.
      * intros [H | H]; [left; right; exact H | right; exact H].
      * intros [[H | H] | H]; [| left; exact H | right; exact H].
        simpl in H. subst k0. rewrite String.eqb_refl in E. discriminate.
Qed.

Lemma defuzzify_keys (self : FuzzyInferenceSystem) (aggregated : dict (list Q)) :
  forall out, infer_defuzzify self aggregated = Ok out ->
              dict_keys out = dict_keys aggregated.
Proof.
  induction aggregated as [| [k mf] rest IH]; simpl; intros out H.
  - injection H as <-. reflexivity.
  - destruct (dict_item k (outputs self)) as [v |]; [| discriminate]. simpl in H.
    destruct (infer_defuzzify self rest) as [out' |]; [| discriminate]. simpl in H.
    injection H as <-. unfold dict_keys in *. simpl. f_equal. apply IH. reflexivity.
Qed.

(** X7.  [infer] does not raise when every key of the input mapping names a
    registered input that has at least one sample; inputs the mapping does
    not name are not looked at.  It returns one value per registered output,
    in their order, leaves the variables and the rules as they were, and
    records memberships for exactly the keys it was given. *)
Theorem infer_returns_on_registered_inputs :
  forall (self : FuzzyInferenceSystem) (input_values : dict Q),
    (forall k, In k (dict_keys input_values) ->
               exists v, dict_get k (inputs self) = Some v /\ universe v <> []) ->
    exists output_values self',
      infer self input_values = Ok (output_values, self') /\
      dict_keys output_values = dict_keys (outputs self) /\
      inputs self' = inputs self /\ outputs self' = outputs self /\
      rules self' = rules self /\
      forall k, dict_get k (last_input_memberships self') <> None <->
                In k (dict_keys input_values).
Proof.
  intros self input_values Hknown. unfold infer.
  destruct (fuzzification_total self input_values [] Hknown) as [f [Hf Hkeys]].
  rewrite Hf. simpl.
  destruct (infer_defuzzify_total (set_last_input_memberships self f)
              (infer_aggregate (set_last_input_memberships self f) f))
    as [out [Hout _]].
  { intros k Hk. rewrite infer_aggregate_keys in Hk. exact Hk. }
  rewrite Hout. simpl. eexists. eexists. split; [reflexivity |].
  split.
  - rewrite (defuzzify_keys _ _ out Hout). rewrite infer_aggregate_keys. reflexivity.
  - repeat (split; [reflexivity |]). simpl. intros k. rewrite Hkeys. simpl.
    split; [intros [H | H]; [exact H | contradiction] | intros H; left; exact H].
Qed.

Lemma infer_returns_on_registered_inputs_witness :
  exists output_values self',
    infer Scenario.half_sampled_controller Scenario.near_reading = Ok (output_values, self') /\
    dict_keys output_values = ["velocidade"%string].
Proof.
  destruct (infer_returns_on_registered_inputs
              Scenario.half_sampled_controller Scenario.near_reading)
    as [out [self' [H [Hk _]]]].
  - intros k [Hk | []]. subst k. eexists. split; [reflexivity |]. discriminate.
  - exists out, self'. split; [exact H |]. rewrite Hk. reflexivity.
Defined.




Lemma active_fold_agree (memberships : dict (dict Q)) (clauses : dict string) :
  clauses_found memberships clauses ->
  forall activation,
    active_rules_activation memberships clauses activation
    = fold_left
        (fun activation '(antecedent_var, antecedent_term) =>
           match dict_get antecedent_var memberships with
           | Some ms =>
               match dict_get antecedent_term ms with
               | Some membership => py_min activation membership
               | None => activation
               end
           | None => activation
           end)
        clauses activation.
Proof.
  unfold clauses_found. induction 1 as [| [var term] rest Hhead _ IH]; intros activation.
  - reflexivity.
  - destruct Hhead as [ms [membership [Hms Hmem]]]. simpl in Hms, Hmem. simpl.
    rewrite Hms, Hmem. apply IH.
Qed.

Lemma active_missing_zero (memberships : dict (dict Q)) (clauses : dict string) :
  ~ clauses_found memberships clauses ->
  forall activation, active_rules_activation memberships clauses activation = 0.
Proof.
  unfold clauses_found. induction clauses as [| [var term] rest IH]; intros Hnot activation.
  - exfalso. apply Hnot. constructor.
  - simpl. destruct (dict_get var memberships) as [ms |] eqn:Hms; [| reflexivity].
    destruct (dict_get term ms) as [membership |] eqn:Hmem; [| reflexivity].
    apply IH. intros Hrest. apply Hnot. constructor; [| exact Hrest].
    exists ms, membership. split; assumption.
Qed.

Lemma clauses_found_dec (memberships : dict (dict Q)) (clauses : dict string) :
  clauses_found memberships clauses \/ ~ clauses_found memberships clauses.
Proof.
  unfold clauses_found. induction clauses as [| [var term] rest IH].
  - left. constructor.
  - destruct (dict_get var memberships) as [ms |] eqn:Hms.
    + destruct (dict_get term ms) as [membership |] eqn:Hmem.
      * destruct IH as [IH | IH].
        -- left. constructor; [exists ms, membership; split; assumption | exact IH].
        -- right. intros H. inversion H; subst. contradiction.
      * right. intros H. inversion H as [| ? ? [ms' [m' [H1 H2]]] _]; subst.
        simpl in H1, H2. rewrite Hms in H1. injection H1 as <-. congruence.
    + right. intros H. inversion H as [| ? ? [ms' [m' [H1 H2]]] _]; subst.
      simpl in H1. congruence.
Qed.

(** X10.  The strength [get_active_rules_info] computes for a rule against the
    strength [infer] uses: equal when every clause of the rule is found in
    the recorded memberships, 0 as soon as one is missing; so a strength
    above 0 is always the one [infer] used. *)
Theorem active_rules_activation_agrees :
  forall (memberships : dict (dict Q)) (rule : FuzzyRule),
    (clauses_found memberships (antecedents rule) ->
     active_rules_activation memberships (antecedents rule) 1
     = infer_activation memberships rule) /\
    (~ clauses_found memberships (antecedents rule) ->
     active_rules_activation memberships (antecedents rule) 1 = 0) /\
    (0 < active_rules_activation memberships (antecedents rule) 1 ->
     active_rules_activation memberships (antecedents rule) 1
     = infer_activation memberships rule).
Proof.
  intros memberships rule.
  split; [intros H; apply (active_fold_agree memberships (antecedents rule) H 1) |].
  split; [intros H; apply (active_missing_zero memberships (antecedents rule) H 1) |].
  intros Hpos.
  destruct (clauses_found_dec memberships (antecedents rule)) as [H | H].
  - apply (active_fold_agree memberships (antecedents rule) H 1).
  - rewrite (active_missing_zero memberships (antecedents rule) H 1) in Hpos.
    exfalso. revert Hpos. apply Qlt_irrefl.
Qed.

Lemma active_rules_activation_agrees_witness :
  active_rules_activation [("distancia", [("perto", 1 # 2)])]%string
    (antecedents (Shipped.rule [("distancia", "perto")]%string [])) 1
  = infer_activation [("distancia", [("perto", 1 # 2)])]%string
      (Shipped.rule [("distancia", "perto")]%string []) /\
  active_rules_activation [("distancia", [("perto", 1 # 2)])]%string
    (antecedents (Shipped.rule [("distancia", "perto"); ("angulo", "reto")]%string [])) 1
  = 0.
Proof.
  split.
  - apply (proj1 (active_rules_activation_agrees
                    [("distancia", [("perto", 1 # 2)])]%string
                    (Shipped.rule [("distancia", "perto")]%string []))).
    constructor; [| constructor]. exists [("perto", 1 # 2)]%string, (1 # 2).
    split; reflexivity.
  - apply (proj1 (proj2 (active_rules_activation_agrees
                           [("distancia", [("perto", 1 # 2)])]%string
                           (Shipped.rule [("distancia", "perto"); ("angulo", "reto")]%string
                                         [])))).
    intros H. inversion H as [| ? ? _ Hrest]; subst.
    inversion Hrest as [| ? ? [ms [m [H1 _]]] _]; subst. discriminate.
Defined.

Lemma insert_desc_sorted (x : string * Q) (xs : list (string * Q)) :
  sorted_desc xs -> sorted_desc (insert_desc x xs).
Proof.
  induction xs as [| y rest IH]; intros Hs.
  - exact I.
  - simpl. destruct (Qlt_le_dec (snd x) (snd y)) as [Hlt | Hle].
    + destruct rest as [| z rest'].
      * simpl. split; [lra | exact I].
      * destruct Hs as [Hzy Hrest]. specialize (IH Hrest).
        simpl in IH |- *. destruct (Qlt_le_dec (snd x) (snd z)).
        -- split; [exact Hzy | exact IH].
        -- split; [lra | exact IH].
    + split; [exact Hle | exact Hs].
Qed.

Lemma insert_desc_in (x e : string * Q) (xs : list (string * Q)) :
  In e (insert_desc x xs) <-> e = x \/ In e xs.
Proof.
  induction xs as [| y rest IH]; simpl.
  - split; [intros [H | []]; left; symmetry; exact H | intros [H | []]; left; symmetry; exact H].
  - destruct (Qlt_le_dec (snd x) (snd y)); simpl.
    + rewrite IH. split; [intros [H | [H | H]] | intros [H | [H | H]]]; auto.
    + split; [intros [H | H]; [left; symmetry; exact H | right; exact H]
             | intros [H | H]; [left; symmetry; exact H | right; exact H]].
Qed.

Lemma sort_desc_sorted (xs : list (string * Q)) : sorted_desc (sort_desc xs).
Proof.
  induction xs as [| x rest IH]; [exact I |]. simpl. apply insert_desc_sorted. exact IH.
Qed.

Lemma sort_desc_in (e : string * Q) (xs : list (string * Q)) :
  In e (sort_desc xs) <-> In e xs.
Proof.
  induction xs as [| x rest IH]; simpl; [tauto |].
  rewrite insert_desc_in, IH. split; intros [H | H]; auto.
Qed.

Lemma insert_desc_length (x : string * Q) (xs : list (string * Q)) :
  List.length (insert_desc x xs) = S (List.length xs).
Proof.
  induction xs as [| y rest IH]; simpl; [reflexivity |].
  destruct (Qlt_le_dec (snd x) (snd y)); simpl; [rewrite IH |]; reflexivity.
Qed.

Lemma sort_desc_length (xs : list (string * Q)) :
  List.length (sort_desc xs) = List.length xs.
Proof.
  induction xs as [| x rest IH]; simpl; [reflexivity |].
  rewrite insert_desc_length, IH. reflexivity.
Qed.

Lemma active_le_start (memberships : dict (dict Q)) (clauses : dict string) :
  forall activation,
    0 <= activation ->
    active_rules_activation memberships clauses activation <= activation.
Proof.
  induction clauses as [| [var term] rest IH]; intros activation Hpos; simpl.
  - lra.
  - destruct (dict_get var memberships) as [ms |]; [| exact Hpos].
    destruct (dict_get term ms) as [membership |]; [| exact Hpos].
    unfold py_min.
    destruct (Qlt_le_dec (Qmin activation membership) 0) as [Hneg | Hnn].
    + assert (H0 : active_rules_activation memberships rest (Qmin activation membership)
                   <= 0 \/ 0 < active_rules_activation memberships rest
                                 (Qmin activation membership)) by
        (destruct (Qlt_le_dec 0 (active_rules_activation memberships rest
                                   (Qmin activation membership))); [right | left]; assumption).
      destruct H0 as [H0 | H0]; [lra |].
      exfalso. clear IH. revert H0 Hneg. generalize (Qmin activation membership).
      induction rest as [| [var' term'] rest' IH']; intros a H0 Hneg; simpl in H0.
      * lra.
      * destruct (dict_get var' memberships) as [ms' |]; [| lra].
        destruct (dict_get term' ms') as [membership' |]; [| lra].
        apply (IH' _ H0). unfold py_min. pose proof (Q.le_min_l a membership'). lra.
    + specialize (IH _ Hnn). pose proof (Q.le_min_l activation membership). lra.
Qed.

(** X11.  What [get_active_rules_info] lists: exactly the rules whose strength
    against the recorded memberships is above 0, each with its text and that
    strength, in descending order of strength, none above 1. *)
Theorem active_rules_info_listing :
  forall (self : FuzzyInferenceSystem),
    let info := get_active_rules_info self in
    sorted_desc info /\
    Forall (fun entry => 0 < snd entry <= 1) info /\
    (forall entry,
        In entry info <->
        exists rule,
          In rule (rules self) /\
          entry = (rule_str rule,
                   active_rules_activation (last_input_memberships self)
                                           (antecedents rule) 1) /\
          0 < snd entry) /\
    List.length info
    = List.length
        (filter (fun rule =>
                   if Qlt_le_dec 0 (active_rules_activation (last_input_memberships self)
                                                            (antecedents rule) 1)
                   then true else false)
                (rules self)).
Proof.
  intros self info. unfold info, get_active_rules_info.
  assert (Hin : forall entry,
             In entry
               (flat_map
                  (fun rule =>
                     if Qlt_le_dec 0 (active_rules_activation (last_input_memberships self)
                                                              (antecedents rule) 1)
                     then [(rule_str rule,
                            active_rules_activation (last_input_memberships self)
                                                    (antecedents rule) 1)]
                     else [])
                  (rules self)) <->
             exists rule,
               In rule (rules self) /\
               entry = (rule_str rule,
                        active_rules_activation (last_input_memberships self)
                                                (antecedents rule) 1) /\
               0 < snd entry).
  { intros entry. rewrite in_flat_map. split.
    - intros [rule [Hr He]]. exists rule. split; [exact Hr |].
      destruct (Qlt_le_dec 0 _) as [Hpos | Hle]; [| contradiction].
      destruct He as [He | []]. subst entry. split; [reflexivity | exact Hpos].
    - intros [rule [Hr [He Hpos]]]. exists rule. split; [exact Hr |]. subst entry.
      simpl in Hpos. destruct (Qlt_le_dec 0 _) as [_ | Hle]; [left; reflexivity | lra]. }
  split; [apply sort_desc_sorted |].
  split.
  { apply Forall_forall. intros entry He. apply (proj1 (sort_desc_in _ _)) in He. apply (proj1 (Hin _)) in He.
    destruct He as [rule [_ [He Hpos]]]. split; [exact Hpos |]. subst entry. simpl.
    apply active_le_start. lra. }
  split.
  { intros entry. rewrite sort_desc_in. apply Hin. }
  rewrite sort_desc_length. generalize (rules self). intros rs.
  induction rs as [| r rest IH]; simpl; [reflexivity |].
  rewrite length_app, IH.
  destruct (Qlt_le_dec 0 _); reflexivity.
Qed.

End InferenceFacts.

(** ** The genetic operators *)

Module GeneticFacts.

Import GA Rng RngFacts SelectionFacts EncodingFacts RunFacts.

Local Open Scope list_scope.
Local Open Scope Q_scope.


Lemma int_of_bits_zeros (binary : list bool) :
  Forall (fun b => b = false) binary -> int_of_bits 0 binary = 0%Z.
Proof.
  induction 1 as [| b rest Hb _ IH]; [reflexivity |]. subst b. exact IH.
Qed.

Lemma max_int_pos (n : nat) :
  (0 < n)%nat -> (1 <= Z.shiftl 1 (Z.of_nat n) - 1)%Z.
Proof.
  intros Hn. rewrite Z.shiftl_1_l.
  assert (2 ^ 1 <= 2 ^ Z.of_nat n)%Z by (apply Z.pow_le_mono_r; lia).
  change (2 ^ 1)%Z with 2%Z in *. lia.
Qed.

(** X13.  [_decode_parameter] over a range whose width is a finite double (at
    most 2^1023): the empty code is an error, every other code decodes, and
    the code of all zeros decodes to the lower end of the range. *)
Theorem decode_parameter_lower_end :
  forall (binary : list bool) (min_val max_val : Q),
    Qabs (max_val - min_val) <= inject_Z (2 ^ 1023) ->
    match binary with
    | [] => _decode_parameter binary min_val max_val = Raise ValueError
    | _ :: _ =>
        exists value,
          _decode_parameter binary min_val max_val = Ok value /\
          (Forall (fun b => b = false) binary -> value == min_val)
    end.
Proof.
  intros binary min_val max_val _.
  destruct binary as [| b rest]; [reflexivity |].
  assert (Hne : b :: rest <> []) by discriminate.
  rewrite (decode_parameter_nonempty (b :: rest) min_val max_val Hne).
  eexists. split; [reflexivity |].
  intros Hz. rewrite (int_of_bits_zeros (b :: rest) Hz).
  destruct (0 <? _)%Z; change (inject_Z 0) with 0.
  - unfold Qdiv. ring.
  - ring.
Qed.

Lemma decode_parameter_lower_end_witness :
  _decode_parameter [] (-2) 2 = Raise ValueError /\
  exists value,
    _decode_parameter [false; false; false] (-2) 2 = Ok value /\ value == -2.
Proof.
  assert (Hw : Qabs (2 - -2) <= inject_Z (2 ^ 1023)).
  { apply Qabs_Qle_condition. split; apply Qle_bool_iff; vm_compute; reflexivity. }
  split.
  - exact (decode_parameter_lower_end [] (-2) 2 Hw).
  - destruct (decode_parameter_lower_end [false; false; false] (-2) 2 Hw)
      as [value [H Hz]].
    exists value. split; [exact H |]. apply Hz. repeat constructor.
Defined.

Lemma format_binary_zero (bits : nat) :
  (0 < bits)%nat -> Forall (fun b => b = false) (format_binary bits 0).
Proof.
  intros Hb. unfold format_binary. apply Forall_map. apply Forall_forall.
  intros i _. apply Z.testbit_0_l.
Qed.

Lemma format_binary_ones (bits : nat) :
  (0 < bits)%nat ->
  Forall (fun b => b = true) (format_binary bits (Z.shiftl 1 (Z.of_nat bits) - 1)).
Proof.
  intros Hb. unfold format_binary.
  pose proof (max_int_pos bits Hb) as HM.
  rewrite (format_binary_width bits (Z.shiftl 1 (Z.of_nat bits) - 1) Hb)
    by (rewrite Z.shiftl_1_l in *; lia).
  apply Forall_map. apply Forall_forall. intros i Hi. apply in_seq in Hi.
  rewrite Z.shiftl_1_l, Z.sub_1_r, <- Z.ones_equiv.
  apply Z.ones_spec_low. lia.
Qed.

(** X14.  [_encode_parameter] over a proper range whose width is a finite
    double (at most 2^1023) and 1 to 53 bits, the widths at which [max_int]
    is itself a double, returns exactly [bits] bits and saturates: a value
    at or below the lower end of the range becomes all zeros, one at or
    above its upper end all ones. *)
Theorem encode_parameter_saturates :
  forall (value min_val max_val : Q) (bits : nat),
    min_val < max_val ->
    max_val - min_val <= inject_Z (2 ^ 1023) ->
    (0 < bits <= 53)%nat ->
    exists binary,
      _encode_parameter value min_val max_val bits = Ok binary /\
      List.length binary = bits /\
      (value <= min_val -> Forall (fun b => b = false) binary) /\
      (max_val <= value -> Forall (fun b => b = true) binary).
Proof.
  intros value min_val max_val bits Hr _ [Hb _].
  assert (Hnz : ~ max_val - min_val == 0) by lra.
  destruct (encode_parameter_total value min_val max_val bits Hnz Hb) as [binary [He Hlen]].
  exists binary. split; [exact He |]. split; [exact Hlen |].
  unfold _encode_parameter, py_div in He.
  destruct (Qeq_bool (max_val - min_val) 0) eqn:E;
    [apply Qeq_bool_iff in E; contradiction |].
  simpl in He. injection He as He.
  pose proof (max_int_pos bits Hb) as HM.
  set (M := (Z.shiftl 1 (Z.of_nat bits) - 1)%Z) in *.
  set (n := Np.clip ((value - min_val) / (max_val - min_val)) 0 1) in *.
  assert (HMq : 1 <= inject_Z M).
  { change 1 with (inject_Z 1). rewrite <- Zle_Qle. exact HM. }
  assert (Hn : 0 <= n <= 1) by apply clip_in_unit_interval.
  split.
  - intros Hlow.
    assert (Hz : n == 0).
    { unfold n, Np.clip.
      assert ((value - min_val) / (max_val - min_val) <= 0).
      { apply Qle_shift_div_r; lra. }
      rewrite Q.max_r by assumption. rewrite Q.min_l by lra. reflexivity. }
    assert (Hint : py_int (n * inject_Z M) = 0%Z).
    { rewrite py_int_nonneg by (apply Qmult_le_0_compat; lra).
      assert (Hq : n * inject_Z M == inject_Z 0) by (rewrite Hz; ring).
      rewrite Hq. apply Qfloor_Z. }
    rewrite <- He, Hint. apply format_binary_zero. exact Hb.
  - intros Hhigh.
    assert (Ho : n == 1).
    { unfold n, Np.clip.
      assert (1 <= (value - min_val) / (max_val - min_val)).
      { apply Qle_shift_div_l; lra. }
      rewrite Q.max_l by lra. rewrite Q.min_r by assumption. reflexivity. }
    assert (Hint : py_int (n * inject_Z M) = M).
    { rewrite py_int_nonneg by (apply Qmult_le_0_compat; lra).
      assert (Hq : n * inject_Z M == inject_Z M) by (rewrite Ho; ring).
      rewrite Hq. apply Qfloor_Z. }
    rewrite <- He, Hint. apply format_binary_ones. exact Hb.
Qed.

Lemma encode_parameter_saturates_witness :
  exists binary,
    _encode_parameter 5 (-2) 2 8 = Ok binary /\
    List.length binary = 8%nat /\
    Forall (fun b => b = true) binary.
Proof.
  destruct (encode_parameter_saturates 5 (-2) 2 8) as [binary [H [Hl [_ Hhigh]]]].
  - lra.
  - apply Qle_bool_iff. vm_compute. reflexivity.
  - lia.
  - exists binary. split; [exact H |]. split; [exact Hl |]. apply Hhigh. lra.
Defined.

Lemma skipn_head {A} (d : A) (n : nat) (xs : list A) :
  (n < List.length xs)%nat -> skipn n xs = nth n xs d :: skipn (S n) xs.
Proof.
  revert xs. induction n as [| n IH]; intros [| x rest] H; simpl in H; try lia.
  - reflexivity.
  - simpl. apply IH. lia.
Qed.

Lemma firstn_app_le {A} (n : nat) (xs ys : list A) :
  (n <= List.length xs)%nat -> firstn n (xs ++ ys) = firstn n xs.
Proof.
  intros H. rewrite firstn_app.
  replace (n - List.length xs)%nat with 0%nat by lia. simpl. apply app_nil_r.
Qed.

Lemma skipn_app_le {A} (n : nat) (xs ys : list A) :
  (n <= List.length xs)%nat -> skipn n (xs ++ ys) = skipn n xs ++ ys.
Proof.
  intros H. rewrite skipn_app.
  replace (n - List.length xs)%nat with 0%nat by lia. reflexivity.
Qed.

(** X15.  [_decode_individual] by the length of the chromosome.  With more than
    [k0_bits + k1_bits] bits it returns: the direction is read off the bit
    right after the two parameters, and whatever follows that bit changes
    nothing.  A chromosome that ends inside or right after the second
    parameter has no direction bit and raises [IndexError]; one that ends
    inside the first parameter leaves the second one empty and raises
    [ValueError]. *)
Theorem decode_individual_by_length :
  forall (self : GeneticAlgorithm) (c : chromosome),
    (0 < k0_bits self)%nat -> (0 < k1_bits self)%nat ->
    ((k0_bits self + k1_bits self < List.length c)%nat ->
     exists k0 k1,
       _decode_individual self c
       = Ok (k0, k1, if nth (k0_bits self + k1_bits self) c false then 1%Z else (-1)%Z) /\
       forall extra, _decode_individual self (c ++ extra) = _decode_individual self c) /\
    ((k0_bits self < List.length c <= k0_bits self + k1_bits self)%nat ->
     _decode_individual self c = Raise IndexError) /\
    ((List.length c <= k0_bits self)%nat ->
     _decode_individual self c = Raise ValueError).
Proof.
  intros self c H0 H1. unfold _decode_individual.
  split; [| split].
  - intros Hlen.
    assert (Hb0 : firstn (k0_bits self) c <> []).
    { apply ParkingFacts.firstn_nonempty; [exact H0 |].
      destruct c; [simpl in Hlen; lia | discriminate]. }
    assert (Hb1 : firstn (k1_bits self) (skipn (k0_bits self) c) <> []).
    { apply ParkingFacts.firstn_nonempty; [exact H1 |].
      intros E. apply (f_equal (@List.length bool)) in E.
      rewrite length_skipn in E. simpl in E. lia. }
    destruct (ParkingFacts.decode_parameter_total _ (fst (k0_range self))
                (snd (k0_range self)) Hb0) as [v0 Hv0].
    destruct (ParkingFacts.decode_parameter_total _ (fst (k1_range self))
                (snd (k1_range self)) Hb1) as [v1 Hv1].
    exists v0, v1. split.
    + rewrite Hv0, Hv1. simpl.
      rewrite (skipn_head false (k0_bits self + k1_bits self) c Hlen). reflexivity.
    + intros extra.
      rewrite (firstn_app_le (k0_bits self) c extra) by lia.
      rewrite (skipn_app_le (k0_bits self) c extra) by lia.
      rewrite (firstn_app_le (k1_bits self) (skipn (k0_bits self) c) extra)
        by (rewrite length_skipn; lia).
      rewrite (skipn_app_le (k0_bits self + k1_bits self) c extra) by lia.
      rewrite (skipn_head false (k0_bits self + k1_bits self) c Hlen). reflexivity.
  - intros [Hlo Hhi].
    assert (Hb0 : firstn (k0_bits self) c <> []).
    { apply ParkingFacts.firstn_nonempty; [exact H0 |].
      destruct c; [simpl in Hlo; lia | discriminate]. }
    assert (Hb1 : firstn (k1_bits self) (skipn (k0_bits self) c) <> []).
    { apply ParkingFacts.firstn_nonempty; [exact H1 |].
      intros E. apply (f_equal (@List.length bool)) in E.
      rewrite length_skipn in E. simpl in E. lia. }
    destruct (ParkingFacts.decode_parameter_total _ (fst (k0_range self))
                (snd (k0_range self)) Hb0) as [v0 Hv0].
    destruct (ParkingFacts.decode_parameter_total _ (fst (k1_range self))
                (snd (k1_range self)) Hb1) as [v1 Hv1].
    rewrite Hv0, Hv1. simpl. rewrite skipn_all2 by lia. reflexivity.
  - intros Hlen. destruct c as [| b rest].
    + rewrite firstn_nil. reflexivity.
    + assert (Hb0 : firstn (k0_bits self) (b :: rest) <> []).
      { apply ParkingFacts.firstn_nonempty; [exact H0 | discriminate]. }
      destruct (ParkingFacts.decode_parameter_total _ (fst (k0_range self))
                  (snd (k0_range self)) Hb0) as [v0 Hv0].
      rewrite Hv0. simpl Py.bind. rewrite skipn_all2 by lia.
      rewrite firstn_nil. reflexivity.
Qed.

Lemma decode_individual_by_length_witness :
  (exists k0 k1,
      _decode_individual Scenario.coarse_optimizer (repeat true 17) = Ok (k0, k1, 1%Z)) /\
  _decode_individual Scenario.coarse_optimizer (repeat true 16) = Raise IndexError /\
  _decode_individual Scenario.coarse_optimizer (repeat true 8) = Raise ValueError.
Proof.
  destruct (decode_individual_by_length Scenario.coarse_optimizer (repeat true 17))
    as [Hlong _]; [vm_compute; lia | vm_compute; lia |].
  destruct (decode_individual_by_length Scenario.coarse_optimizer (repeat true 16))
    as [_ [Hmid _]]; [vm_compute; lia | vm_compute; lia |].
  destruct (decode_individual_by_length Scenario.coarse_optimizer (repeat true 8))
    as [_ [_ Hshort]]; [vm_compute; lia | vm_compute; lia |].
  split; [| split].
  - destruct Hlong as [k0 [k1 [H _]]]; [vm_compute; lia |]. exists k0, k1. exact H.
  - apply Hmid. vm_compute. lia.
  - apply Hshort. vm_compute. lia.
Defined.

Lemma nth_splice {A} (d : A) (cp i : nat) (xs ys : list A) :
  (cp <= List.length xs)%nat -> List.length xs = List.length ys ->
  nth i (firstn cp xs ++ skipn cp ys) d = if (i <? cp)%nat then nth i xs d else nth i ys d.
Proof.
  intros Hcp Hlen.
  assert (Hfl : List.length (firstn cp xs) = cp) by (rewrite length_firstn; lia).
  destruct (i <? cp)%nat eqn:E.
  - apply Nat.ltb_lt in E. rewrite app_nth1 by lia.
    rewrite nth_firstn. replace (i <? cp)%nat with true by (symmetry; apply Nat.ltb_lt; lia).
    reflexivity.
  - apply Nat.ltb_ge in E. rewrite app_nth2 by lia. rewrite Hfl.
    rewrite nth_skipn. f_equal. lia.
Qed.

(** X16.  One-point crossover of two parents of one length (two bits at least)
    always returns two children of that length; at every position the two
    children carry the two parents' bits, one each; and since the crossover
    point is never 0, each child starts with the first bit of its own
    parent. *)
Theorem crossover_keeps_genes :
  forall (self : GeneticAlgorithm) (parent1 parent2 : chromosome),
    List.length parent1 = List.length parent2 ->
    (2 <= List.length parent1)%nat ->
    always
      (fun children =>
         List.length (fst children) = List.length parent1 /\
         List.length (snd children) = List.length parent1 /\
         (forall i,
             (nth i (fst children) false = nth i parent1 false /\
              nth i (snd children) false = nth i parent2 false) \/
             (nth i (fst children) false = nth i parent2 false /\
              nth i (snd children) false = nth i parent1 false)) /\
         nth 0 (fst children) false = nth 0 parent1 false /\
         nth 0 (snd children) false = nth 0 parent2 false)
      (_crossover self parent1 parent2).
Proof.
  intros self parent1 parent2 Hlen HL. unfold _crossover, random, randint. simpl.
  intros r _. destruct (Qlt_le_dec (crossover_rate self) r); simpl.
  - split; [reflexivity |]. split; [lia |]. split; [| split; reflexivity].
    intros i. left. split; reflexivity.
  - split; [lia |]. intros z Hz.
    assert (Hcp : (Z.to_nat z <= List.length parent1)%nat) by lia.
    assert (Hcp' : (Z.to_nat z <= List.length parent2)%nat) by lia.
    split; [rewrite length_app, length_firstn, length_skipn; lia |].
    split; [rewrite length_app, length_firstn, length_skipn; lia |].
    split.
    + intros i.
      rewrite (nth_splice false (Z.to_nat z) i parent1 parent2 Hcp Hlen).
      rewrite (nth_splice false (Z.to_nat z) i parent2 parent1 Hcp' (eq_sym Hlen)).
      destruct (i <? Z.to_nat z)%nat; [left | right]; split; reflexivity.
    + rewrite (nth_splice false (Z.to_nat z) 0 parent1 parent2 Hcp Hlen).
      rewrite (nth_splice false (Z.to_nat z) 0 parent2 parent1 Hcp' (eq_sym Hlen)).
      replace (0 <? Z.to_nat z)%nat with true by (symmetry; apply Nat.ltb_lt; lia).
      split; reflexivity.
Qed.

Lemma crossover_keeps_genes_witness :
  always
    (fun children =>
       nth 0 (fst children) false = true /\ nth 0 (snd children) false = false)
    (_crossover Scenario.coarse_optimizer [true; true; true] [false; false; false]).
Proof.
  eapply always_mono;
    [| apply (crossover_keeps_genes Scenario.coarse_optimizer [true; true; true]
                [false; false; false]); [reflexivity | simpl; lia]].
  intros children [_ [_ [_ [H1 H2]]]]. split; assumption.
Defined.

Lemma mutate_bits_never (rate : Q) (c : chromosome) :
  rate <= 0 -> always (fun m => m = c) (mutate_bits rate c).
Proof.
  intros Hr. induction c as [| b rest IH]; cbn [mutate_bits].
  - reflexivity.
  - unfold random. cbn [Rng.bind]. intros r [Hr0 _].
    destruct (Qlt_le_dec r rate) as [Hlt | _]; [lra |].
    apply (always_seq (fun m => m = rest)); [exact IH |].
    intros m ->. reflexivity.
Qed.

Lemma mutate_bits_every (rate : Q) (c : chromosome) :
  1 <= rate -> always (fun m => m = map negb c) (mutate_bits rate c).
Proof.
  intros Hr. induction c as [| b rest IH]; cbn [mutate_bits].
  - reflexivity.
  - unfold random. cbn [Rng.bind]. intros r [_ Hr1].
    destruct (Qlt_le_dec r rate) as [_ | Hle]; [| lra].
    apply (always_seq (fun m => m = map negb rest)); [exact IH |].
    intros m ->. reflexivity.
Qed.

Lemma mutate_bits_positions (rate : Q) (c : chromosome) :
  always (fun m => List.length m = List.length c /\
                   forall i, nth i m false = nth i c false \/
                             nth i m false = negb (nth i c false))
         (mutate_bits rate c).
Proof.
  induction c as [| b rest IH]; cbn [mutate_bits].
  - simpl. split; [reflexivity |]. intros i. left. reflexivity.
  - unfold random. cbn [Rng.bind]. intros r _.
    eapply always_seq; [exact IH |].
    intros m [Hlen Hpos]. simpl. split; [lia |].
    intros [| i]; [| apply Hpos].
    destruct (Qlt_le_dec r rate); [right | left]; reflexivity.
Qed.

(** X17.  Bit-flip mutation always returns a chromosome of the same length.  At a
    rate of 0 or less it returns the chromosome unchanged, at a rate of 1 or
    more it flips every bit, whatever is drawn. *)
Theorem mutate_rate_extremes :
  forall (self : GeneticAlgorithm) (c : chromosome),
    always (fun m => List.length m = List.length c) (_mutate self c) /\
    (mutation_rate self <= 0 -> always (fun m => m = c) (_mutate self c)) /\
    (1 <= mutation_rate self -> always (fun m => m = map negb c) (_mutate self c)).
Proof.
  intros self c. unfold _mutate. split; [| split].
  - eapply always_mono; [| apply mutate_bits_positions]. intros m [H _]. exact H.
  - apply mutate_bits_never.
  - apply mutate_bits_every.
Qed.

Lemma mutate_rate_extremes_witness :
  always (fun m => List.length m = 2%nat)
         (_mutate Scenario.coarse_optimizer [true; false]).
Proof.
  exact (proj1 (mutate_rate_extremes Scenario.coarse_optimizer [true; false])).
Defined.

Lemma nth_map_default {A B} (f : A -> B) (xs : list A) (i : nat) (da : A) (db : B) :
  (i < List.length xs)%nat -> nth i (map f xs) db = f (nth i xs da).
Proof.
  revert i. induction xs as [| x rest IH]; intros i Hi; simpl in Hi; [lia |].
  destruct i; simpl; [reflexivity | apply IH; lia].
Qed.

(** X18.  Roulette selection on a non-empty population with one fitness per
    individual always returns an individual of the population.  It draws the
    index under probabilities that are all above 0, so nobody is shut out,
    and that grow with the fitness.  On an empty fitness list it raises
    [ValueError] before anything is drawn. *)
Theorem roulette_selects_member :
  forall (population : list chromosome) (fitness : list Q),
    List.length fitness = List.length population ->
    match fitness with
    | [] => _roulette_wheel_selection population fitness = Throw ValueError
    | _ :: _ =>
        always (fun c => In c population) (_roulette_wheel_selection population fitness) /\
        exists probabilities,
          first_draw (_roulette_wheel_selection population fitness)
          = CallChoiceP (List.length population) probabilities /\
          Forall (fun p => 0 < p) probabilities /\
          forall i j,
            (i < List.length fitness)%nat -> (j < List.length fitness)%nat ->
            nth i fitness 0 <= nth j fitness 0 ->
            nth i probabilities 0 <= nth j probabilities 0
    end.
Proof.
  intros population fitness Hlen.
  destruct fitness as [| f0 frest] eqn:Ef; [reflexivity |].
  rewrite <- Ef in *.
  assert (Hne : fitness <> []) by (rewrite Ef; discriminate).
  split; [apply roulette_always; assumption |].
  destruct (roulette_is_proportional population fitness Hne Hlen)
    as [m [total [probs [Hm [Htotal [Hge [Hprobs [Hvalid Heq]]]]]]]].
  exists probs. split; [rewrite Heq; reflexivity |].
  pose proof tiny_pos as Htiny.
  destruct (py_min_list_le fitness Hne) as [m' [Hm' Hle]].
  rewrite Hm in Hm'. injection Hm' as <-.
  assert (Hpos : 0 < total) by lra.
  split.
  - rewrite Hprobs. apply Forall_map. apply Forall_map.
    eapply Forall_impl; [| exact Hle]. simpl. intros a Ha.
    apply Qlt_shift_div_l; lra.
  - intros i j Hi Hj Hij. rewrite Hprobs, map_map.
    rewrite (nth_map_default (fun f => (f - m + tiny) / total) fitness i 0 0 Hi).
    rewrite (nth_map_default (fun f => (f - m + tiny) / total) fitness j 0 0 Hj).
    apply Qle_shift_div_l; [exact Hpos |].
    assert (Hd : (nth i fitness 0 - m + tiny) / total * total
                 == nth i fitness 0 - m + tiny) by (field; lra).
    lra.
Qed.

Lemma roulette_selects_member_witness :
  always (fun c => In c [[true]; [false]])
         (_roulette_wheel_selection [[true]; [false]] [-4; -9]).
Proof.
  exact (proj1 (roulette_selects_member [[true]; [false]] [-4; -9] eq_refl)).
Defined.

(** X19.  Every individual [_create_individual] draws, over proper ranges whose
    widths are finite doubles (at most 2^1023) and 1 to 53 bits per
    parameter, has [k0_bits + k1_bits + 1] bits and decodes under the
    decoder of the class, to a direction that is 1 or -1. *)
Theorem create_individual_decodes :
  forall (self : GeneticAlgorithm),
    (0 < k0_bits self <= 53)%nat -> (0 < k1_bits self <= 53)%nat ->
    fst (k0_range self) < snd (k0_range self) ->
    fst (k1_range self) < snd (k1_range self) ->
    snd (k0_range self) - fst (k0_range self) <= inject_Z (2 ^ 1023) ->
    snd (k1_range self) - fst (k1_range self) <= inject_Z (2 ^ 1023) ->
    always
      (fun c =>
         List.length c = (k0_bits self + k1_bits self + 1)%nat /\
         exists k0 k1 vs,
           _decode_individual self c = Ok (k0, k1, vs) /\
           (vs = 1 \/ vs = -1)%Z)
      (_create_individual self).
Proof.
  intros self [Hb0 _] [Hb1 _] Hr0 Hr1 _ _. unfold _create_individual, uniform, choice_of.
  simpl. intros v0 _ v1 _. split; [discriminate |]. intros vs _.
  assert (Hnz0 : ~ snd (k0_range self) - fst (k0_range self) == 0) by lra.
  assert (Hnz1 : ~ snd (k1_range self) - fst (k1_range self) == 0) by lra.
  destruct (encode_parameter_total v0 _ _ (k0_bits self) Hnz0 Hb0) as [b0 [E0 L0]].
  destruct (encode_parameter_total v1 _ _ (k1_bits self) Hnz1 Hb1) as [b1 [E1 L1]].
  rewrite E0. simpl. rewrite E1. simpl.
  split; [rewrite !length_app; simpl; lia |].
  assert (Hbody : List.length (b0 ++ b1) = (k0_bits self + k1_bits self)%nat)
    by (rewrite length_app; lia).
  destruct (ParkingFacts.decode_individual_split self (b0 ++ b1) (Z.eqb vs 1) Hb0 Hb1 Hbody)
    as [k0 [k1 [Hk0 [Hk1 Hd]]]].
  rewrite <- app_assoc in Hd.
  exists k0, k1, (if Z.eqb vs 1 then 1%Z else (-1)%Z).
  split; [exact Hd |].
  destruct (Z.eqb vs 1); [left | right]; reflexivity.
Qed.

Lemma create_individual_decodes_witness :
  always (fun c => List.length c = 17%nat) (_create_individual Scenario.coarse_optimizer).
Proof.
  eapply always_mono;
    [| apply (create_individual_decodes Scenario.coarse_optimizer)].
  - intros c [H _]. exact H.
  - vm_compute. lia.
  - vm_compute. lia.
  - vm_compute. reflexivity.
  - vm_compute. reflexivity.
  - apply Qle_bool_iff. vm_compute. reflexivity.
  - apply Qle_bool_iff. vm_compute. reflexivity.
Defined.

End GeneticFacts.

(** ** What a run returns *)

Module ResultFacts.

Import GA Rng RngFacts SelectionFacts EncodingFacts RunFacts Scenario.

Local Open Scope list_scope.
Local Open Scope Q_scope.

Lemma ensures_mono {A} (P R : A -> Prop) (t : Rand A) :
  (forall a, P a -> R a) -> ensures P t -> ensures R t.
Proof.
  intros HPR. induction t as [a | e | lo hi k IH | k IH | lo hi k IH | xs k IH | n p k IH];
    simpl; intros H.
  - apply HPR. exact H.
  - exact I.
  - intros x Hx. apply IH. apply H. exact Hx.
  - intros x Hx. apply IH. apply H. exact Hx.
  - intros z Hz. apply IH. apply H. exact Hz.
  - intros z Hz. apply IH. apply H. exact Hz.
  - intros i Hi. apply IH. apply H. exact Hi.
Qed.

Lemma ensures_bind {A B} (R : A -> Prop) (P : B -> Prop) (t : Rand A) (f : A -> Rand B) :
  ensures R t -> (forall a, R a -> ensures P (f a)) -> ensures P (Rng.bind t f).
Proof.
  intros Ht Hf. induction t as [a | e | lo hi k IH | k IH | lo hi k IH | xs k IH | n p k IH];
    simpl in *.
  - apply Hf. exact Ht.
  - exact I.
  - intros x Hx. apply IH. apply Ht. exact Hx.
  - intros x Hx. apply IH. apply Ht. exact Hx.
  - intros z Hz. apply IH. apply Ht. exact Hz.
  - intros z Hz. apply IH. apply Ht. exact Hz.
  - intros i Hi. apply IH. apply Ht. exact Hi.
Qed.

Lemma ensures_trivial {A} (t : Rand A) : ensures (fun _ => True) t.
Proof.
  induction t as [a | e | lo hi k IH | k IH | lo hi k IH | xs k IH | n p k IH]; simpl;
    auto.
Qed.

Lemma ensures_any {A B} (P : B -> Prop) (t : Rand A) (f : A -> Rand B) :
  (forall a, ensures P (f a)) -> ensures P (Rng.bind t f).
Proof.
  intros Hf. apply (ensures_bind (fun _ => True)); [apply ensures_trivial |].
  intros a _. apply Hf.
Qed.

Lemma always_ensures {A} (P R : A -> Prop) (t : Rand A) :
  always P t -> ensures R t -> always (fun a => P a /\ R a) t.
Proof.
  induction t as [a | e | lo hi k IH | k IH | lo hi k IH | xs k IH | n p k IH];
    simpl; intros Ha He.
  - split; assumption.
  - contradiction.
  - intros x Hx. apply IH; [apply Ha | apply He]; exact Hx.
  - intros x Hx. apply IH; [apply Ha | apply He]; exact Hx.
  - destruct Ha as [Hlt Ha]. split; [exact Hlt |].
    intros z Hz. apply IH; [apply Ha | apply He]; exact Hz.
  - destruct Ha as [Hne Ha]. split; [exact Hne |].
    intros z Hz. apply IH; [apply Ha | apply He]; exact Hz.
  - destruct Ha as [Hv Ha]. split; [exact Hv |].
    intros i Hi. apply IH; [apply Ha | apply He]; exact Hi.
Qed.

Lemma always_then_raises {A B} (R : A -> Prop) (e : exception) (t : Rand A)
    (f : A -> Rand B) :
  always R t -> (forall a, R a -> always_raises e (f a)) ->
  always_raises e (Rng.bind t f).
Proof.
  intros Ht Hf. induction t as [a | e' | lo hi k IH | k IH | lo hi k IH | xs k IH | n p k IH];
    simpl in *.
  - apply Hf. exact Ht.
  - contradiction.
  - intros x Hx. apply IH. apply Ht. exact Hx.
  - intros x Hx. apply IH. apply Ht. exact Hx.
  - destruct Ht as [Hlt Ht]. split; [| intros; lia].
    intros _ z Hz. apply IH. apply Ht. exact Hz.
  - destruct Ht as [Hne Ht]. split; [| intros; contradiction].
    intros z Hz. apply IH. apply Ht. exact Hz.
  - destruct Ht as [Hv Ht]. split; [| intros; contradiction].
    intros _ i Hi. apply IH. apply Ht. exact Hi.
Qed.

Lemma same_settings_refl (self : GeneticAlgorithm) : same_settings self self.
Proof. destruct self. reflexivity. Qed.

Lemma same_settings_step (self self' : GeneticAlgorithm) (best avg : list Q)
    (inds : list chromosome) :
  same_settings (set_history self best avg inds) self' -> same_settings self self'.
Proof. unfold same_settings. intros <-. reflexivity. Qed.

Lemma result_map_item {A B} (f : A -> result B) (xs : list A) :
  forall ys i x y,
    result_map f xs = Ok ys -> list_item xs i = Ok x -> list_item ys i = Ok y ->
    f x = Ok y.
Proof.
  unfold list_item. induction xs as [| x0 rest IH]; intros ys i x y Hmap Hx Hy.
  - destruct i; discriminate.
  - simpl in Hmap. destruct (f x0) as [y0 |] eqn:E0; [| discriminate].
    simpl in Hmap. destruct (result_map f rest) as [ys' |] eqn:Er; [| discriminate].
    simpl in Hmap. injection Hmap as <-.
    destruct i as [| i]; simpl in Hx, Hy.
    + injection Hx as <-. injection Hy as <-. exact E0.
    + apply (IH ys' i x y eq_refl Hx Hy).
Qed.

Section WithGenerator.

Variable _generate_trajectory : GeneticAlgorithm -> Q -> Q -> Z -> list pose * Q * Q.

Hypothesis generator_ignores_history : ignores_history _generate_trajectory.

Lemma evaluate_fitness_same_settings (self self' : GeneticAlgorithm) (c : chromosome) :
  same_settings self self' ->
  _evaluate_fitness _generate_trajectory self' c = _evaluate_fitness _generate_trajectory self c.
Proof.
  unfold same_settings. intros <-. unfold _evaluate_fitness.
  change (call_decode_individual (set_history self _ _ _) c)
    with (call_decode_individual self c).
  destruct (call_decode_individual self c) as [[[k0 k1] vs] |]; [| reflexivity].
  simpl. rewrite generator_ignores_history. reflexivity.
Qed.

(** What the generational loop leaves behind when it returns. *)
Lemma run_generations_ensures (n : nat) :
  forall (self : GeneticAlgorithm) (population : list chromosome)
         (best_individual : option chromosome) (best_fitness : option Q),
    (forall f, best_fitness = Some f ->
               exists b, best_individual = Some b /\
                         _evaluate_fitness _generate_trajectory self b = Ok f) ->
    ensures
      (fun st =>
         same_settings self (fst st) /\
         List.length (avg_fitness_history (fst st))
         = (List.length (avg_fitness_history self) + n)%nat /\
         List.length (best_individual_history (fst st))
         = (List.length (best_individual_history self) + n)%nat /\
         ((0 < n)%nat \/
          (exists b f,
              best_individual = Some b /\ best_fitness = Some f /\
              last (best_fitness_history self) 0 = - f /\
              last (best_individual_history self) [] = b) ->
          exists best f,
            snd st = Some best /\
            _evaluate_fitness _generate_trajectory self best = Ok f /\
            last (best_fitness_history (fst st)) 0 = - f /\
            last (best_individual_history (fst st)) [] = best))
      (run_generations _generate_trajectory n self population best_individual best_fitness).
Proof.
  induction n as [| n IH]; intros self population best_individual best_fitness Hbest;
    cbn [run_generations].
  - simpl. split; [apply same_settings_refl |]. split; [lia |]. split; [lia |].
    intros [H | [b [f [Eb [Ef [Hl1 Hl2]]]]]]; [lia |].
    exists b, f. split; [exact Eb |].
    destruct (Hbest f Ef) as [b' [Eb' He]]. rewrite Eb in Eb'. injection Eb' as <-.
    split; [exact He |]. split; assumption.
  - destruct (result_map (_evaluate_fitness _generate_trajectory self) population)
      as [fitness |] eqn:Hfit; [| exact I].
    cbn [lift Rng.bind].
    destruct (Np.argmax fitness) as [idx |] eqn:Hidx; [| exact I].
    cbn [lift Rng.bind].
    destruct (update_best population fitness idx best_individual best_fitness)
      as [[bi' bf'] |] eqn:Hup; [| exact I].
    cbn [lift Rng.bind].
    destruct bi' as [best |]; [| exact I].
    assert (Hinv : _evaluate_fitness _generate_trajectory self best = Ok bf').
    { unfold update_best in Hup.
      destruct (list_item fitness idx) as [f_max |] eqn:Hf; [| discriminate].
      simpl in Hup.
      assert (Hnew : forall ind, list_item population idx = Ok ind ->
                                 _evaluate_fitness _generate_trajectory self ind = Ok f_max).
      { intros ind Hind. apply (result_map_item _ population fitness idx ind f_max Hfit Hind Hf). }
      destruct best_fitness as [bf |].
      - destruct (Qlt_le_dec bf f_max).
        + destruct (list_item population idx) as [ind |] eqn:Hind; [| discriminate].
          simpl in Hup. injection Hup as <- <-. apply Hnew. reflexivity.
        + injection Hup as Hb <-. destruct (Hbest bf eq_refl) as [b [Eb Hb']].
          rewrite Hb in Eb. injection Eb as <-. exact Hb'.
      - destruct (list_item population idx) as [ind |] eqn:Hind; [| discriminate].
        simpl in Hup. injection Hup as <- <-. apply Hnew. reflexivity. }
    set (self1 := set_history self (best_fitness_history self ++ [- bf'])
                    (avg_fitness_history self ++ [- Np.mean fitness])
                    (best_individual_history self ++ [best])).
    assert (Hsame1 : same_settings self self1).
    { unfold same_settings, self1. reflexivity. }
    apply ensures_any. intros new_population.
    eapply ensures_mono;
      [| apply (IH self1 (firstn (population_size self1) new_population)
                   (Some best) (Some bf'))].
    + intros [self' bi''] [Hsame [Hlavg [Hlind Hlast]]]. cbn [fst snd] in *.
      split; [apply (same_settings_step self self' _ _ _ Hsame) |].
      unfold self1 in Hlavg, Hlind. cbn [avg_fitness_history best_individual_history
                                          set_history] in Hlavg, Hlind.
      rewrite length_app in Hlavg, Hlind. simpl in Hlavg, Hlind.
      split; [lia |]. split; [lia |].
      intros _.
      destruct Hlast as [best' [f' [Hb' [He' [Hl1 Hl2]]]]].
      { right. exists best, bf'. split; [reflexivity |]. split; [reflexivity |].
        unfold self1. cbn [best_fitness_history best_individual_history set_history].
        rewrite !last_last. split; reflexivity. }
      exists best', f'. split; [exact Hb' |].
      split; [| split; assumption].
      rewrite <- (evaluate_fitness_same_settings self self1 best' Hsame1). exact He'.
    + intros f E. injection E as <-. exists best. split; [reflexivity |].
      rewrite (evaluate_fitness_same_settings self self1 best Hsame1). exact Hinv.
Qed.

(** What [run] returns, when it returns. *)
Lemma run_ensures (self : GeneticAlgorithm) :
  (1 <= generations self)%nat ->
  ensures
    (fun out =>
       same_settings self (snd out) /\
       List.length (avg_fitness_history (snd out))
       = (List.length (avg_fitness_history self) + generations self)%nat /\
       List.length (best_individual_history (snd out))
       = (List.length (best_individual_history self) + generations self)%nat /\
       fitness_history (fst out) = best_fitness_history (snd out) /\
       avg_fitness_history_r (fst out) = avg_fitness_history (snd out) /\
       call_decode_individual self (last (best_individual_history (snd out)) [])
       = Ok (k0 (fst out), k1 (fst out), vs (fst out)) /\
       _generate_trajectory self (k0 (fst out)) (k1 (fst out)) (vs (fst out))
       = (trajectory (fst out), path_length (fst out), max_steering (fst out)) /\
       has_collision (fst out) = _check_collision self (trajectory (fst out)) /\
       objective_value (fst out)
       = path_length (fst out) ^ 2 + max_steering (fst out) ^ 2 /\
       last (fitness_history (fst out)) 0
       == penalised_cost (has_collision (fst out)) (path_length (fst out))
                         (max_steering (fst out)))
    (run _generate_trajectory self).
Proof.
  intros Hgen. unfold run. apply ensures_any. intros population.
  eapply ensures_bind.
  - apply (run_generations_ensures (generations self) self population None None).
    intros f E. discriminate.
  - intros [self' bi] [Hsame [Hlavg [Hlind Hlast]]]. cbn [fst snd] in *.
    destruct Hlast as [best [f [Hb [He [Hl1 Hl2]]]]]; [left; lia |].
    subst bi.
    assert (Hdec : call_decode_individual self' best = call_decode_individual self best).
    { unfold same_settings in Hsame. rewrite <- Hsame. reflexivity. }
    assert (Hcol : forall tr, _check_collision self' tr = _check_collision self tr).
    { unfold same_settings in Hsame. rewrite <- Hsame. reflexivity. }
    assert (Hgenr : forall a b c, _generate_trajectory self' a b c
                                  = _generate_trajectory self a b c).
    { unfold same_settings in Hsame. rewrite <- Hsame. intros a b c.
      apply generator_ignores_history. }
    rewrite Hdec. unfold _evaluate_fitness in He.
    destruct (call_decode_individual self best) as [[[k0 k1] vs] |] eqn:Hd; [| exact I].
    cbn [lift Rng.bind]. rewrite Hgenr. simpl in He.
    destruct (_generate_trajectory self k0 k1 vs) as [[trajectory path_length] max_steering]
      eqn:Hg.
    rewrite Hcol. simpl. rewrite Hl2.
    split; [exact Hsame |]. split; [exact Hlavg |]. split; [exact Hlind |].
    split; [reflexivity |]. split; [reflexivity |]. split; [exact Hd |].
    split; [exact Hg |]. split; [reflexivity |]. split; [reflexivity |].
    rewrite Hl1. injection He as <-. unfold penalised_cost. ring.
Qed.

(** X20.  What a run reports, whatever is drawn, on a well-formed object with at
    least one individual and one generation, under a curve generator that
    does not read the histories.  The run changes nothing of the object but
    its three history lists, each of which grows by one entry per
    generation.  The parameters it returns are those of the last best
    individual it recorded; the curve, its length, its steering and its
    collision flag are those of that individual; the objective value is
    length squared plus steering squared; and the last cost in the history
    is that objective with the length taken a hundredfold when the curve
    collides, so the two agree exactly on a curve without collision. *)
Theorem run_result_consistent :
  forall (self : GeneticAlgorithm),
    well_formed self ->
    (1 <= population_size self)%nat ->
    (1 <= generations self)%nat ->
    always
      (fun out =>
         same_settings self (snd out) /\
         List.length (best_fitness_history (snd out))
         = (List.length (best_fitness_history self) + generations self)%nat /\
         List.length (avg_fitness_history (snd out))
         = (List.length (avg_fitness_history self) + generations self)%nat /\
         List.length (best_individual_history (snd out))
         = (List.length (best_individual_history self) + generations self)%nat /\
         avg_fitness_history_r (fst out) = avg_fitness_history (snd out) /\
         call_decode_individual self (last (best_individual_history (snd out)) [])
         = Ok (k0 (fst out), k1 (fst out), vs (fst out)) /\
         _generate_trajectory self (k0 (fst out)) (k1 (fst out)) (vs (fst out))
         = (trajectory (fst out), path_length (fst out), max_steering (fst out)) /\
         has_collision (fst out) = _check_collision self (trajectory (fst out)) /\
         objective_value (fst out)
         = path_length (fst out) ^ 2 + max_steering (fst out) ^ 2 /\
         last (fitness_history (fst out)) 0
         == penalised_cost (has_collision (fst out)) (path_length (fst out))
                           (max_steering (fst out)) /\
         (has_collision (fst out) = false ->
          last (fitness_history (fst out)) 0 == objective_value (fst out)))
      (run _generate_trajectory self).
Proof.
  intros self Hwf Hsize Hgen.
  eapply always_mono;
    [| apply (always_ensures _ _ _ (run_history_segment _generate_trajectory self Hwf Hsize Hgen)
                (run_ensures self Hgen))].
  intros out [[seg [Hhist [_ [Hseg _]]]]
              [Hsame [Hlavg [Hlind [Hfh [Havg [Hdec [Hg [Hcol [Hobj Hlast]]]]]]]]]].
  split; [exact Hsame |].
  split; [rewrite Hhist, length_app; lia |].
  split; [exact Hlavg |]. split; [exact Hlind |]. split; [exact Havg |].
  split; [exact Hdec |]. split; [exact Hg |]. split; [exact Hcol |].
  split; [exact Hobj |]. split; [exact Hlast |].
  intros Hfree. rewrite Hlast, Hobj, Hfree. unfold penalised_cost. reflexivity.
Qed.

End WithGenerator.

Lemma straight_line_ignores_history : ignores_history straight_line.
Proof. intros self best avg inds k0 k1 vs. reflexivity. Qed.

Lemma coarse_optimizer_well_formed : well_formed coarse_optimizer.
Proof.
  unfold well_formed. split; [vm_compute; lia |]. split; [vm_compute; lia |].
  split; [intros E; vm_compute in E; discriminate |].
  split; [intros E; vm_compute in E; discriminate |].
  apply class_decoder_returns; [reflexivity | vm_compute; lia | vm_compute; lia].
Qed.

Lemma run_result_consistent_witness :
  always
    (fun out =>
       same_settings coarse_optimizer (snd out) /\
       objective_value (fst out) = path_length (fst out) ^ 2 + max_steering (fst out) ^ 2)
    (run straight_line coarse_optimizer).
Proof.
  eapply always_mono;
    [| apply (run_result_consistent straight_line straight_line_ignores_history
                coarse_optimizer coarse_optimizer_well_formed);
       vm_compute; lia].
  intros out [Hsame [_ [_ [_ [_ [_ [_ [_ [Hobj _]]]]]]]]]. split; assumption.
Defined.

(** X21.  Settings under which [run] never returns.  With no generation the loop
    leaves no best individual, and decoding [None] raises [TypeError] after
    the population has been drawn; with an empty population and at least
    one generation, [np.argmax] of the empty fitness list raises
    [ValueError]. *)
Theorem run_degenerate_settings_raise :
  forall (generator : GeneticAlgorithm -> Q -> Q -> Z -> list pose * Q * Q)
         (self : GeneticAlgorithm),
    well_formed self ->
    (generations self = 0%nat -> always_raises TypeError (run generator self)) /\
    (population_size self = 0%nat -> (1 <= generations self)%nat ->
     always_raises ValueError (run generator self)).
Proof.
  intros generator self Hwf. split.
  - intros Hgen. unfold run. rewrite Hgen.
    eapply always_then_raises;
      [apply (create_population_always self (population_size self) Hwf) |].
    intros population _. simpl. reflexivity.
  - intros Hpop Hgen. unfold run. rewrite Hpop.
    destruct (generations self) as [| n]; [lia |]. simpl. reflexivity.
Qed.

Lemma run_degenerate_settings_raise_witness :
  always_raises TypeError (run straight_line idle_optimizer).
Proof.
  apply (proj1 (run_degenerate_settings_raise straight_line idle_optimizer
                  (proj1 (constructor_well_formed initial_pose final_pose obstacles
                            vehicle_params 2 0 (6 # 10) (4 # 100) (-2, 2) (-2, 2) (1 # 10)
                            idle_optimizer eq_refl)))).
  reflexivity.
Defined.

End ResultFacts.

(** ** The two phases of the parking optimizer *)

Module PhaseFacts.

Import GA Parking Rng RngFacts RunFacts ResultFacts Scenario.

Local Open Scope list_scope.
Local Open Scope Q_scope.

(** The object with the decoder in effect stored as its instance
    attribute, as [_run_single_phase] leaves it. *)
Local Abbreviation restored b :=
  (set_decode_individual b (Some (call_decode_individual b))).

Lemma well_formed_same_settings (self self' : GeneticAlgorithm) :
  same_settings self self' -> well_formed self -> well_formed self'.
Proof. unfold same_settings. intros <- H. exact H. Qed.

Lemma well_formed_restored (self : GeneticAlgorithm) :
  well_formed self -> well_formed (restored self).
Proof.
  intros [H0 [H1 [Hr0 [Hr1 Hdec]]]]. unfold well_formed. simpl.
  repeat (split; [assumption |]). exact Hdec.
Qed.

Section WithGenerator.

Variable _generate_trajectory : GeneticAlgorithm -> Q -> Q -> Z -> list pose * Q * Q.

Hypothesis generator_ignores_history : ignores_history _generate_trajectory.

(** One phase, forced or free, whatever is drawn. *)
Lemma single_phase_always (self : GeneticAlgorithmParking) (force_direction : option Z) :
  well_formed (base self) ->
  (1 <= population_size (base self))%nat ->
  (1 <= generations (base self))%nat ->
  always
    (fun out =>
       same_settings (restored (base self)) (base (snd out)) /\
       use_two_phase (snd out) = use_two_phase self /\
       _original_initial_pose (snd out) = _original_initial_pose self /\
       _original_final_pose (snd out) = _original_final_pose self /\
       (forall d, force_direction = Some d -> vs (fst out) = d) /\
       (exists v,
           call_decode_individual (base self)
             (last (best_individual_history (base (snd out))) [])
           = Ok (k0 (fst out), k1 (fst out), v)) /\
       fitness_history (fst out) = best_fitness_history (base (snd out)) /\
       List.length (best_fitness_history (base (snd out)))
       = (List.length (best_fitness_history (base self)) + generations (base self))%nat)
    (_run_single_phase _generate_trajectory self force_direction).
Proof.
  intros Hwf Hsize Hgen. unfold _run_single_phase.
  set (original_decode := call_decode_individual (base self)).
  set (b0 := base (match force_direction with
                   | Some d =>
                       set_base self
                         (set_decode_individual (base self)
                            (Some (forced_decode original_decode d)))
                   | None => self
                   end)).
  assert (Hwf0 : well_formed b0).
  { unfold b0. destruct force_direction as [d |]; [| exact Hwf].
    apply forced_decoder_well_formed. exact Hwf. }
  assert (Hsize0 : (1 <= population_size b0)%nat).
  { unfold b0. destruct force_direction; exact Hsize. }
  assert (Hgen0 : (1 <= generations b0)%nat).
  { unfold b0. destruct force_direction; exact Hgen. }
  assert (Hhist0 : best_fitness_history b0 = best_fitness_history (base self)).
  { unfold b0. destruct force_direction; reflexivity. }
  assert (Hgens0 : generations b0 = generations (base self)).
  { unfold b0. destruct force_direction; reflexivity. }
  assert (Hrest : forall h1 h2 h3,
             set_decode_individual (set_history b0 h1 h2 h3) (Some original_decode)
             = set_history (restored (base self)) h1 h2 h3).
  { intros h1 h2 h3. unfold b0. destruct force_direction; reflexivity. }
  assert (Hdec0 : forall c k0 k1 v,
             call_decode_individual b0 c = Ok (k0, k1, v) ->
             (forall d, force_direction = Some d -> v = d) /\
             exists v', original_decode c = Ok (k0, k1, v')).
  { intros c k0 k1 v. unfold b0. destruct force_direction as [d |].
    - unfold call_decode_individual at 1. simpl. unfold forced_decode.
      destruct (original_decode c) as [[[k0' k1'] v'] |]; [| discriminate].
      simpl. intros E. injection E as <- <- <-.
      split; [intros d' Ed; injection Ed as <-; reflexivity |].
      exists v'. reflexivity.
    - intros E. split; [intros d' Ed; discriminate |]. exists v. exact E. }
  apply (always_seq
           (fun r =>
              (exists seg,
                  best_fitness_history (snd r) = best_fitness_history b0 ++ seg /\
                  fitness_history (fst r) = best_fitness_history (snd r) /\
                  List.length seg = generations b0 /\
                  non_increasing seg) /\
              same_settings b0 (snd r) /\
              call_decode_individual b0 (last (best_individual_history (snd r)) [])
              = Ok (k0 (fst r), k1 (fst r), vs (fst r)))).
  { eapply always_mono;
      [| apply (always_ensures _ _ _
                  (run_history_segment _generate_trajectory b0 Hwf0 Hsize0 Hgen0)
                  (run_ensures _generate_trajectory generator_ignores_history b0 Hgen0))].
    intros r [Hseg [Hsame [_ [_ [_ [_ [Hd _]]]]]]].
    split; [exact Hseg |]. split; [exact Hsame | exact Hd]. }
  intros [result b] [[seg [Hhist [Hres [Hlen _]]]] [Hsame Hd]]. cbn [fst snd] in *.
  simpl.
  destruct (Hdec0 _ _ _ _ Hd) as [Hforce [v' Horig]].
  assert (Hbase : set_decode_individual b (Some original_decode)
                  = set_history (restored (base self)) (best_fitness_history b)
                                (avg_fitness_history b) (best_individual_history b)).
  { unfold same_settings in Hsame. rewrite <- Hsame at 1. apply Hrest. }
  split.
  { unfold same_settings.
    destruct force_direction; simpl; rewrite Hbase; reflexivity. }
  assert (Hproj : forall s : GeneticAlgorithmParking,
             base (set_base s (set_decode_individual b (Some original_decode)))
             = set_decode_individual b (Some original_decode)) by reflexivity.
  destruct force_direction as [d |]; simpl;
    (split; [reflexivity |]); (split; [reflexivity |]); (split; [reflexivity |]);
    (split; [exact Hforce |]);
    (split; [exists v'; exact Horig |]);
    (split; [exact Hres |]);
    rewrite Hhist, length_app, Hhist0, Hlen, Hgens0; reflexivity.
Qed.

(** X22.  A phase with a forced direction, whatever is drawn: the result reports
    the forced direction; its [k0] and [k1] are what the decoder that was in
    effect before the phase gives for the last best individual recorded;
    afterwards the decoder in effect decodes every chromosome as before the
    phase, and the poses and the settings of the subclass are untouched. *)
Theorem run_single_phase_forces_direction :
  forall (self : GeneticAlgorithmParking) (d : Z),
    well_formed (base self) ->
    (1 <= population_size (base self))%nat ->
    (1 <= generations (base self))%nat ->
    always
      (fun out =>
         vs (fst out) = d /\
         (exists v,
             call_decode_individual (base self)
               (last (best_individual_history (base (snd out))) [])
             = Ok (k0 (fst out), k1 (fst out), v)) /\
         (forall c, call_decode_individual (base (snd out)) c
                    = call_decode_individual (base self) c) /\
         GA.initial_pose (base (snd out)) = GA.initial_pose (base self) /\
         GA.final_pose (base (snd out)) = GA.final_pose (base self) /\
         use_two_phase (snd out) = use_two_phase self /\
         _original_initial_pose (snd out) = _original_initial_pose self /\
         _original_final_pose (snd out) = _original_final_pose self)
      (_run_single_phase _generate_trajectory self (Some d)).
Proof.
  intros self d Hwf Hsize Hgen.
  eapply always_mono; [| apply (single_phase_always self (Some d) Hwf Hsize Hgen)].
  intros out [Hsame [H2 [Hi [Hf [Hforce [Hdec _]]]]]].
  split; [apply Hforce; reflexivity |]. split; [exact Hdec |].
  unfold same_settings in Hsame. rewrite <- Hsame.
  split; [intros c; reflexivity |].
  repeat (split; [first [reflexivity | assumption] |]). exact Hf.
Qed.

Variable sin_degrees cos_degrees : Q -> Q.

(** Both phases, whatever is drawn. *)
Lemma two_phase_always (self : GeneticAlgorithmParking) (B A : Q) :
  use_two_phase self = true ->
  dict_get "width" (GA.vehicle_params (base self)) = Some B ->
  dict_get "length" (GA.vehicle_params (base self)) = Some A ->
  well_formed (base self) ->
  (1 <= population_size (base self))%nat ->
  (1 <= generations (base self))%nat ->
  always
    (fun out =>
       exists combined,
         fst out = inr combined /\
         vs (phase1 combined) = 1%Z /\ vs (phase2 combined) = (-1)%Z /\
         c_fitness_history combined
         = best_fitness_history (base (snd out)) ++ best_fitness_history (base (snd out)) /\
         List.length (best_fitness_history (base (snd out)))
         = (List.length (best_fitness_history (base self))
            + 2 * generations (base self))%nat /\
         GA.initial_pose (base (snd out)) = _original_initial_pose self /\
         GA.final_pose (base (snd out)) = _original_final_pose self /\
         forall c, call_decode_individual (base (snd out)) c
                   = call_decode_individual (base self) c)
    (Parking.run _generate_trajectory sin_degrees cos_degrees self).
Proof.
  intros Htwo HB HA Hwf Hsize Hgen. unfold Parking.run. rewrite Htwo. simpl negb. cbv iota.
  unfold _calculate_intermediate_point.
  destruct (_original_final_pose self) as [[xf yf] thetaf] eqn:Hfinal.
  unfold dict_item. rewrite HB. simpl Py.bind. rewrite HA. simpl Py.bind.
  cbn [lift Rng.bind].
  set (intermediate := (xf - ((13 # 10) * B + B / 2 + 5) * sin_degrees thetaf
                        + A * (1 # 2) * cos_degrees thetaf,
                        yf + ((13 # 10) * B + B / 2 + 5) * cos_degrees thetaf
                        + A * (1 # 2) * sin_degrees thetaf, thetaf)).
  set (self1 := set_base self (set_poses (base self) (GA.initial_pose (base self)) intermediate)).
  eapply always_seq.
  { apply (single_phase_always self1 (Some 1%Z)); [exact Hwf | exact Hsize | exact Hgen]. }
  intros [phase1_result self2] [Hsame1 [Htwo1 [Hi1 [Hf1 [Hforce1 [_ [Hres1 Hlen1]]]]]]].
  cbn [fst snd] in *.
  set (self3 := set_base self2
                  (set_poses (base self2) intermediate (_original_final_pose self2))).
  assert (Hwf2 : well_formed (base self2)).
  { apply (well_formed_same_settings _ _ Hsame1). apply well_formed_restored. exact Hwf. }
  assert (Hsize2 : population_size (base self2) = population_size (base self)).
  { unfold same_settings in Hsame1. rewrite <- Hsame1. reflexivity. }
  assert (Hgen2 : generations (base self2) = generations (base self)).
  { unfold same_settings in Hsame1. rewrite <- Hsame1. reflexivity. }
  assert (Hdec2 : forall c, call_decode_individual (base self2) c
                            = call_decode_individual (base self) c).
  { unfold same_settings in Hsame1. rewrite <- Hsame1. reflexivity. }
  eapply always_seq.
  { apply (single_phase_always self3 (Some (-1)%Z)).
    - exact Hwf2.
    - change (population_size (base self3)) with (population_size (base self2)). lia.
    - change (generations (base self3)) with (generations (base self2)). lia. }
  intros [phase2_result self4] [Hsame3 [Htwo3 [Hi3 [Hf3 [Hforce3 [_ [Hres3 Hlen3]]]]]]].
  cbn [fst snd] in *.
  eexists. split; [reflexivity |].
  cbn [fst snd phase1 phase2 _combine_phases c_fitness_history with_histories vs
       fitness_history avg_fitness_history decode_individual_attr base set_base set_poses GA.initial_pose GA.final_pose best_fitness_history].
  split; [apply Hforce1; reflexivity |].
  split; [apply Hforce3; reflexivity |].
  split; [rewrite Hres3; reflexivity |].
  split.
  { rewrite Hlen3.
    change (best_fitness_history (base self3)) with (best_fitness_history (base self2)).
    change (generations (base self3)) with (generations (base self2)).
    rewrite Hlen1, Hgen2.
    change (best_fitness_history (base self1)) with (best_fitness_history (base self)).
    change (generations (base self1)) with (generations (base self)). lia. }
  split; [rewrite Hi3; exact Hi1 |].
  split.
  { rewrite Hf3. change (_original_final_pose self3) with (_original_final_pose self2).
    rewrite Hf1. exact Hfinal. }
  intros c. unfold call_decode_individual at 1. cbn [decode_individual_attr].
  fold (call_decode_individual (base self4) c).
  unfold same_settings in Hsame3. rewrite <- Hsame3.
  change (call_decode_individual (set_history (restored (base self3)) _ _ _) c)
    with (call_decode_individual (base self2) c).
  apply Hdec2.
Qed.

(** X23.  A two-phase run on an object whose vehicle parameters give a width and
    a length, whatever is drawn: it returns a combined result whose first
    phase drove forward and whose second phase drove in reverse; the poses
    of the object are set back to the original ones and its decoder decodes
    as before.  Both phases ran on one object and extended one history list,
    which both phase results hold: the combined [fitness_history] is that
    whole list followed by itself, every cost of either phase twice. *)
Theorem two_phase_run_combines :
  forall (self : GeneticAlgorithmParking) (B A : Q),
    use_two_phase self = true ->
    dict_get "width" (GA.vehicle_params (base self)) = Some B ->
    dict_get "length" (GA.vehicle_params (base self)) = Some A ->
    well_formed (base self) ->
    (1 <= population_size (base self))%nat ->
    (1 <= generations (base self))%nat ->
    always
      (fun out =>
         exists combined,
           fst out = inr combined /\
           vs (phase1 combined) = 1%Z /\ vs (phase2 combined) = (-1)%Z /\
           c_fitness_history combined
           = best_fitness_history (base (snd out))
             ++ best_fitness_history (base (snd out)) /\
           List.length (c_fitness_history combined)
           = (2 * (List.length (best_fitness_history (base self))
                   + 2 * generations (base self)))%nat /\
           GA.initial_pose (base (snd out)) = _original_initial_pose self /\
           GA.final_pose (base (snd out)) = _original_final_pose self /\
           forall c, call_decode_individual (base (snd out)) c
                     = call_decode_individual (base self) c)
      (Parking.run _generate_trajectory sin_degrees cos_degrees self).
Proof.
  intros self B A Htwo HB HA Hwf Hsize Hgen.
  eapply always_mono; [| apply (two_phase_always self B A Htwo HB HA Hwf Hsize Hgen)].
  intros out [combined [Hout [Hv1 [Hv2 [Hhist [Hlen [Hi [Hf Hdec]]]]]]]].
  exists combined. split; [exact Hout |]. split; [exact Hv1 |]. split; [exact Hv2 |].
  split; [exact Hhist |].
  split; [rewrite Hhist, length_app, Hlen; lia |].
  split; [exact Hi |]. split; [exact Hf | exact Hdec].
Qed.

End WithGenerator.

Lemma run_single_phase_forces_direction_witness :
  always (fun out => vs (fst out) = (-1)%Z)
         (_run_single_phase straight_line parking_optimizer (Some (-1)%Z)).
Proof.
  eapply always_mono;
    [| apply (run_single_phase_forces_direction straight_line straight_line_ignores_history
                parking_optimizer (-1)%Z coarse_optimizer_well_formed);
       vm_compute; lia].
  intros out [H _]. exact H.
Defined.

Lemma two_phase_run_combines_witness :
  always
    (fun out =>
       exists combined,
         fst out = inr combined /\
         List.length (c_fitness_history combined) = 8%nat)
    (Parking.run straight_line (fun _ => 0) (fun _ => 1) parking_optimizer).
Proof.
  eapply always_mono;
    [| apply (two_phase_run_combines straight_line straight_line_ignores_history
                (fun _ => 0) (fun _ => 1) parking_optimizer 25 50 eq_refl eq_refl eq_refl
                coarse_optimizer_well_formed);
       vm_compute; lia].
  intros out [combined [Hout [_ [_ [_ [Hlen _]]]]]].
  exists combined. split; [exact Hout | exact Hlen].
Defined.

(** X24.  The two-phase mode needs the vehicle's width and length, which the
    collision check and the curve generators read with defaults: without
    ['width'], or with it but without ['length'], a two-phase run raises
    [KeyError] on that key before anything is drawn. *)
Theorem two_phase_requires_dimensions :
  forall (generator : GeneticAlgorithm -> Q -> Q -> Z -> list pose * Q * Q)
         (sin_degrees cos_degrees : Q -> Q) (self : GeneticAlgorithmParking),
    use_two_phase self = true ->
    (dict_get "width" (GA.vehicle_params (base self)) = None ->
     Parking.run generator sin_degrees cos_degrees self = Throw (KeyError "width")) /\
    (dict_get "width" (GA.vehicle_params (base self)) <> None ->
     dict_get "length" (GA.vehicle_params (base self)) = None ->
     Parking.run generator sin_degrees cos_degrees self = Throw (KeyError "length")).
Proof.
  intros generator sin_degrees cos_degrees self Htwo.
  unfold Parking.run. rewrite Htwo. simpl negb. cbv iota.
  unfold _calculate_intermediate_point.
  destruct (_original_final_pose self) as [[xf yf] thetaf].
  unfold dict_item. split.
  - intros HB. rewrite HB. reflexivity.
  - intros HB HA. destruct (dict_get "width" (GA.vehicle_params (base self))) as [B |];
      [| contradiction].
    simpl Py.bind. rewrite HA. reflexivity.
Qed.

Lemma two_phase_requires_dimensions_witness :
  Parking.run straight_line (fun _ => 0) (fun _ => 1)
    (new_GeneticAlgorithmParking empty_optimizer true)
  = Throw (KeyError "width").
Proof.
  apply (proj1 (two_phase_requires_dimensions straight_line (fun _ => 0) (fun _ => 1)
                  (new_GeneticAlgorithmParking empty_optimizer true) eq_refl)).
  reflexivity.
Defined.

End PhaseFacts.

(** ** The path tracker *)

(** [hybrid_system.py] as shipped has the block at its line 100 indented off
    the body of [optimize_trajectory], which Python rejects when it loads the
    file.  The functions below are taken as they read. *)

Module TrackerFacts.

Import GA Hybrid HybridFacts.

Local Open Scope list_scope.
Local Open Scope Q_scope.

Lemma closest_in_window_cases (M : FloatMath) (trajectory : list pose)
    (vehicle_x vehicle_y : Q) (window : list nat) :
  forall (min_dist : option Q) (closest_idx : nat),
    closest_in_window trajectory vehicle_x vehicle_y window min_dist closest_idx = closest_idx
    \/ In (closest_in_window trajectory vehicle_x vehicle_y window min_dist closest_idx) window.
Proof.
  induction window as [| i rest IH]; intros min_dist closest_idx;
    cbn [closest_in_window In].
  - left. reflexivity.
  - destruct (nth i trajectory (0, 0, 0)) as [[px py] pa].
    set (dist := math_sqrt ((px - vehicle_x) ^ 2 + (py - vehicle_y) ^ 2)).
    destruct (match min_dist with
              | Some m => if Qlt_le_dec dist m then true else false
              | None => true
              end).
    + destruct (IH (Some dist) i) as [H | H].
      * right. left. symmetry. exact H.
      * right. right. exact H.
    + destruct (IH min_dist closest_idx) as [H | H]; [left | right; right]; assumption.
Qed.

(** X25.  [get_reference_point] on a tracker whose progress is an index of its
    path: the reference returned is a pose of the path, the one at the new
    [current_index]; the new progress is an index of the path, at most 10
    behind and less than 50 ahead of the old one; and the reference is at
    least 5 poses ahead of the new progress unless it is the last pose.  On
    an empty path the reference is the vehicle's own position with heading
    0 and the tracker is left as it was. *)
Theorem reference_point_on_path :
  forall (M : FloatMath) (self : TrajectoryTracker) (vehicle_x vehicle_y : Q),
    (progress self < List.length (tr_trajectory self))%nat \/ tr_trajectory self = [] ->
    let out := get_reference_point self vehicle_x vehicle_y in
    match tr_trajectory self with
    | [] => out = ((vehicle_x, vehicle_y, 0), self)
    | _ :: _ =>
        nth_error (tr_trajectory self) (current_index (snd out)) = Some (fst out) /\
        In (fst out) (tr_trajectory self) /\
        tr_trajectory (snd out) = tr_trajectory self /\
        (progress (snd out) < List.length (tr_trajectory self))%nat /\
        (progress self - 10 <= progress (snd out) < progress self + 50)%nat /\
        ((progress (snd out) + 5 <= current_index (snd out))%nat \/
         current_index (snd out) = (List.length (tr_trajectory self) - 1)%nat)
    end.
Proof.
  intros M self vehicle_x vehicle_y Hprog out. unfold out, get_reference_point.
  destruct (tr_trajectory self) as [| p0 rest] eqn:Htraj; [reflexivity |].
  destruct Hprog as [Hprog | Hempty]; [| discriminate].
  rewrite <- Htraj in Hprog |- *. cbn [fst snd current_index progress tr_trajectory].
  set (n := List.length (tr_trajectory self)) in *.
  set (window := seq (progress self - 10) (Nat.min n (progress self + 50) - (progress self - 10))).
  set (closest := closest_in_window (tr_trajectory self) vehicle_x vehicle_y window None
                                    (progress self)).
  set (base_lookahead := Z.max 5 (py_int (lookahead_distance self / 4))).
  set (idx := Z.to_nat (Z.min (Z.of_nat closest + base_lookahead) (Z.of_nat n - 1))).
  assert (Hclosest : (closest < n)%nat /\ (progress self - 10 <= closest < progress self + 50)%nat).
  { destruct (closest_in_window_cases M (tr_trajectory self) vehicle_x vehicle_y window None
                (progress self)) as [H | H]; fold closest in H.
    - rewrite H. lia.
    - unfold window in H. apply in_seq in H. lia. }
  assert (Hidx : (idx < n)%nat) by (unfold idx; lia).
  assert (Hnth : nth_error (tr_trajectory self) idx
                 = Some (nth idx (tr_trajectory self) (0, 0, 0))).
  { apply nth_error_nth'. exact Hidx. }
  split; [exact Hnth |].
  split; [apply (nth_error_In _ _ Hnth) |].
  split; [reflexivity |].
  split; [apply Hclosest |]. split; [apply Hclosest |].
  unfold idx. lia.
Qed.

Lemma reference_point_on_path_witness :
  In (fst (@get_reference_point Scenario.coarse_math
             (new_TrajectoryTracker Scenario.straight_path) 600 290))
     Scenario.straight_path.
Proof.
  pose proof (reference_point_on_path Scenario.coarse_math
                (new_TrajectoryTracker Scenario.straight_path) 600 290) as H.
  simpl tr_trajectory in H.
  assert (Hp : (progress (new_TrajectoryTracker Scenario.straight_path)
                < List.length Scenario.straight_path)%nat \/ Scenario.straight_path = []).
  { left. vm_compute. lia. }
  specialize (H Hp). cbv zeta in H.
  destruct Scenario.straight_path eqn:E; [discriminate E |].
  rewrite <- E in *. exact (proj1 (proj2 H)).
Defined.

Lemma base_speed_range (d : Q) : 8 <= py_min 25 (py_max 8 d) <= 25.
Proof.
  unfold py_min, py_max. split.
  - apply Q.min_glb; [lra | apply Q.le_max_l].
  - apply Q.le_min_l.
Qed.

Lemma clip_steering_range (s : Q) : -40 <= Np.clip s (-40) 40 <= 40.
Proof.
  unfold Np.clip. split.
  - apply Q.min_glb; [apply Q.le_max_r | lra].
  - apply Q.le_min_r.
Qed.

Lemma Qabs_bound (x b : Q) : Qabs x <= b <-> - b <= x <= b.
Proof. apply Qabs_Qle_condition. Qed.

(** X26.  What the tracking controller commands, when it returns.  The steering
    stays within 40 degrees either way and the speed within 25 as long as
    the values remembered from the step before did, and the values
    remembered for the next step do so again.  On a path to be driven in
    reverse the speed commanded is below 0, on any other path above 0,
    provided the speed remembered has no opposite sign: the controller never
    commands a stop. *)
Theorem tracking_control_bounded :
  forall (M : FloatMath) (self self' : HybridParkingSystem) (vehicle : Vehicle)
         (control : dict Q),
    _calculate_tracking_control self vehicle = Ok (control, self') ->
    exists tracker tracker' res velocity steering,
      trajectory_tracker self = Some tracker /\
      trajectory_tracker self' = Some tracker' /\
      ga_result self = Some res /\
      control = [("velocidade"%string, velocity); ("angulo_direcao"%string, steering)] /\
      last_steering tracker' = steering /\
      (Qabs (last_steering tracker) <= 40 -> Qabs steering <= 40) /\
      (Qabs (last_velocity tracker) <= 25 ->
       Qabs (last_velocity tracker') <= 25 /\ Qabs velocity <= 25) /\
      (vs res = (-1)%Z -> last_velocity tracker <= 0 ->
       last_velocity tracker' < 0 /\ velocity < 0) /\
      (vs res <> (-1)%Z -> 0 <= last_velocity tracker ->
       0 < last_velocity tracker' /\ 0 < velocity).
Proof.
  intros M self self' vehicle control. unfold _calculate_tracking_control.
  destruct (trajectory_tracker self) as [tracker |] eqn:Htr; [| discriminate].
  unfold calculate_tracking_error.
  destruct (get_reference_point tracker (x vehicle) (y vehicle))
    as [[[x_ref y_ref] angle_ref] tracker1] eqn:Href.
  assert (Hkeep : last_steering tracker1 = last_steering tracker /\
                  last_velocity tracker1 = last_velocity tracker).
  { unfold get_reference_point in Href.
    destruct (tr_trajectory tracker); apply (f_equal snd) in Href; cbn [snd] in Href;
      rewrite <- Href; split; reflexivity. }
  destruct Hkeep as [Hks Hkv].
  cbn [angle_error reference_x reference_y reference_angle].
  destruct (ga_result self) as [res |] eqn:Hres; [| discriminate].
  cbn [tr_trajectory current_index lookahead_distance progress last_velocity last_steering].
  rewrite Hks, Hkv.
  set (dist := math_sqrt ((x_ref - x vehicle) * (x_ref - x vehicle)
                          + (y_ref - y vehicle) * (y_ref - y vehicle))).
  set (clipped := Np.clip _ (-40) 40).
  pose proof (clip_steering_range
                (wrap_below
                   (wrap_above
                      ((if Qlt_le_dec (1 # 10) dist
                        then atan2_degrees (y_ref - y vehicle) (x_ref - x vehicle)
                        else angle_ref) - angle vehicle)) * (1 # 2)
                 + wrap_below (wrap_above (angle_ref - angle vehicle)) * (3 # 10)))
    as Hclip.
  fold clipped in Hclip.
  pose proof (base_speed_range (dist * (1 # 2))) as Hbase.
  set (base0 := py_min 25 (py_max 8 (dist * (1 # 2)))) in *.
  set (base1 := if Qlt_le_dec 45 _ then base0 * (4 # 10)
                else if Qlt_le_dec 25 _ then base0 * (7 # 10)
                else if Qlt_le_dec 10 _ then base0 * (9 # 10) else base0).
  assert (Hb1 : (32 # 10) <= base1 <= 25).
  { unfold base1. destruct (Qlt_le_dec 45 _); [lra |].
    destruct (Qlt_le_dec 25 _); [lra |]. destruct (Qlt_le_dec 10 _); lra. }
  set (base2 := if Qlt_le_dec dist 15 then base1 * (6 # 10) else base1).
  assert (Hb2 : (192 # 100) <= base2 <= 25).
  { unfold base2. destruct (Qlt_le_dec dist 15); lra. }
  set (signed := if Z.eqb (vs res) (-1) then - Qabs base2 else base2).
  assert (Habs2 : Qabs base2 == base2) by (apply Qabs_pos; lra).
  set (smooth := (6 # 10) * last_velocity tracker + (1 - (6 # 10)) * signed).
  set (steer := (7 # 10) * last_steering tracker + (1 - (7 # 10)) * clipped).
  set (final := if Qlt_le_dec (sensor_front vehicle) 25 then smooth * (3 # 10)
                else if Qlt_le_dec (sensor_front vehicle) 40 then smooth * (6 # 10)
                else smooth).
  intros H. injection H as <- <-.
  exists tracker.
  eexists. exists res, final, steer.
  split; [reflexivity |]. split; [reflexivity |]. split; [reflexivity |].
  split; [reflexivity |]. split; [reflexivity |].
  cbn [last_velocity].
  split.
  { intros Hls. apply Qabs_bound in Hls. apply Qabs_bound. unfold steer. lra. }
  split.
  { intros Hlv. apply Qabs_bound in Hlv.
    assert (Hs : -25 <= signed <= 25).
    { unfold signed. destruct (Z.eqb (vs res) (-1)); lra. }
    assert (Hsm : -25 <= smooth <= 25) by (unfold smooth; lra).
    split; apply Qabs_bound; [exact Hsm |].
    unfold final. destruct (Qlt_le_dec (sensor_front vehicle) 25); [lra |].
    destruct (Qlt_le_dec (sensor_front vehicle) 40); lra. }
  split.
  { intros Hvs Hlv.
    assert (Hs : signed <= - (192 # 100)).
    { unfold signed. rewrite Hvs. simpl. lra. }
    assert (Hsm : smooth < 0) by (unfold smooth; lra).
    split; [exact Hsm |].
    unfold final. destruct (Qlt_le_dec (sensor_front vehicle) 25); [lra |].
    destruct (Qlt_le_dec (sensor_front vehicle) 40); lra. }
  { intros Hvs Hlv.
    assert (Hs : (192 # 100) <= signed).
    { unfold signed. destruct (Z.eqb (vs res) (-1)) eqn:E; [| lra].
      apply Z.eqb_eq in E. contradiction. }
    assert (Hsm : 0 < smooth) by (unfold smooth; lra).
    split; [exact Hsm |].
    unfold final. destruct (Qlt_le_dec (sensor_front vehicle) 25); [lra |].
    destruct (Qlt_le_dec (sensor_front vehicle) 40); lra. }
Qed.

Lemma tracking_control_bounded_witness :
  exists control self' velocity steering,
    @_calculate_tracking_control Scenario.coarse_math Scenario.small_tracking_system
      Scenario.vehicle_near = Ok (control, self') /\
    control = [("velocidade"%string, velocity); ("angulo_direcao"%string, steering)] /\
    0 < velocity.
Proof.
  destruct (@_calculate_tracking_control Scenario.coarse_math Scenario.small_tracking_system
              Scenario.vehicle_near) as [[control self'] |] eqn:E;
    [| vm_compute in E; discriminate E].
  destruct (tracking_control_bounded Scenario.coarse_math Scenario.small_tracking_system self'
              Scenario.vehicle_near control E)
    as [tracker [tracker' [res [velocity [steering [Htr [_ [Hres [Hc [_ [_ [_ [_ Hfwd]]]]]]]]]]]]].
  exists control, self', velocity, steering.
  split; [reflexivity |]. split; [exact Hc |].
  injection Htr as <-. injection Hres as <-.
  apply Hfwd; [vm_compute; discriminate | vm_compute; discriminate].
Defined.

End TrackerFacts.

(** ** The simulation step *)

Module SimulationFacts.

Import Simulation.

Local Open Scope list_scope.
Local Open Scope Q_scope.

Lemma py_mod_range (a b : Q) : 0 < b -> 0 <= py_mod a b < b.
Proof.
  intros Hb. unfold py_mod.
  pose proof (Qfloor_le (a / b)) as Hlo.
  pose proof (Qlt_floor (a / b)) as Hhi.
  rewrite inject_Z_plus in Hhi. change (inject_Z 1) with 1 in Hhi.
  set (k := inject_Z (Qfloor (a / b))) in *.
  assert (Hq : a / b * b == a) by (field; lra).
  split; nra.
Qed.

Lemma in_box_iff (lo_x px hi_x lo_y py hi_y : Q) :
  Qle_bool lo_x px && Qle_bool px hi_x && Qle_bool lo_y py && Qle_bool py hi_y = true
  <-> lo_x <= px <= hi_x /\ lo_y <= py <= hi_y.
Proof.
  rewrite !andb_true_iff, !Qle_bool_iff. tauto.
Qed.

Lemma check_collision_iff (obstacle : GA.Obstacle) (points : list (Q * Q)) :
  check_collision obstacle points = true <->
  exists px py,
    In (px, py) points /\
    GA.obs_x obstacle <= px <= GA.obs_x obstacle + GA.obs_width obstacle /\
    GA.obs_y obstacle <= py <= GA.obs_y obstacle + GA.obs_height obstacle.
Proof.
  unfold check_collision, GA.get_bounds. rewrite existsb_exists. split.
  - intros [[px py] [Hin Hbox]]. exists px, py. split; [exact Hin |].
    apply in_box_iff. exact Hbox.
  - intros [px [py [Hin Hbox]]]. exists (px, py). split; [exact Hin |].
    apply in_box_iff. exact Hbox.
Qed.

Section WithMath.

Variable math_cos math_sin math_tan math_radians math_degrees : Q -> Q.

Local Abbreviation step := (update_kinematics math_cos math_sin math_tan math_radians
                                              math_degrees).
Local Abbreviation sense := (update_sensors math_cos math_sin math_radians).
Local Abbreviation parked := (check_parked math_cos math_sin math_radians).
Local Abbreviation advance := (update math_cos math_sin math_tan math_radians math_degrees).

(** A kinematic step leaves a slow vehicle as it was and never changes the
    speed. *)
Lemma kinematic_step_keeps_speed (self self' : Vehicle) (dt : Q) :
  step self dt = Ok self' ->
  (Qabs (velocity self) < 1 # 100 -> self' = self) /\
  velocity self' = velocity self.
Proof.
  unfold update_kinematics.
  destruct (Qlt_le_dec (Qabs (velocity self)) (1 # 100)) as [Hslow | Hfast].
  { intros H. injection H as <-. split; reflexivity. }
  set (moved := if Qlt_le_dec (1 # 1000) (Qabs (math_radians (steering_angle self)))
                then _ else _).
  destruct moved as [[[x' y'] angle'] |]; [| discriminate].
  simpl Py.bind. intros H. injection H as <-.
  split; [intros; lra | reflexivity].
Qed.

(** X27.  What a kinematic step does when it returns.  Below a speed of 0.01 the
    vehicle is left exactly as it was.  Otherwise the heading is brought
    into the interval from -180 to 180, both ends included; the new
    position is put at the end of the trail, which never grows beyond
    [max_trajectory_points] once it is within it; the controls, the sensors
    and the parking state are untouched. *)
Theorem update_kinematics_effect :
  forall (self self' : Vehicle) (dt : Q),
    step self dt = Ok self' ->
    (Qabs (velocity self) < 1 # 100 -> self' = self) /\
    ((1 # 100) <= Qabs (velocity self) ->
     -180 <= angle self' <= 180 /\
     ((1 <= max_trajectory_points self)%nat ->
      last (trajectory self') (0, 0) = (x self', y self')) /\
     (List.length (trajectory self')
      <= Nat.max (List.length (trajectory self)) (max_trajectory_points self))%nat /\
     velocity self' = velocity self /\ steering_angle self' = steering_angle self /\
     sensor_depth self' = sensor_depth self /\ is_parked self' = is_parked self /\
     parking_time self' = parking_time self).
Proof.
  intros self self' dt. unfold update_kinematics.
  destruct (Qlt_le_dec (Qabs (velocity self)) (1 # 100)) as [Hslow | Hfast].
  { intros H. injection H as <-. split; [reflexivity | intros; lra]. }
  set (moved := if Qlt_le_dec (1 # 1000) (Qabs (math_radians (steering_angle self)))
                then _ else _).
  destruct moved as [[[x' y'] angle'] |] eqn:Hmoved; [| discriminate].
  simpl Py.bind. intros H. injection H as <-.
  split; [intros; lra |]. intros _.
  cbn [angle trajectory x y velocity steering_angle sensor_depth is_parked parking_time
       set_position max_trajectory_points].
  pose proof (py_mod_range (angle' + 180) 360) as Hrange.
  split; [lra |].
  split.
  { intros Hmax.
    destruct (max_trajectory_points self <? List.length (trajectory self ++ [(x', y')]))%nat
      eqn:E.
    - destruct (trajectory self) as [| p rest] eqn:Ht.
      + apply Nat.ltb_lt in E. simpl in E. lia.
      + simpl tl. apply last_last.
    - apply last_last. }
  split.
  { destruct (max_trajectory_points self <? List.length (trajectory self ++ [(x', y')]))%nat
      eqn:E.
    - destruct (trajectory self) as [| p rest]; cbn [tl app]; [cbn [List.length]; lia |].
      rewrite length_app. cbn [List.length]. lia.
    - apply Nat.ltb_ge in E. lia. }
  repeat split.
Qed.

(** Taking the readings moves nothing, and right of the entrance the depth
    is the distance past it, capped at 150. *)
Lemma sensors_keep_position (self : Vehicle) (parking_spot : ParkingSpot)
    (obstacles : list GA.Obstacle) :
  let v := sense self parking_spot obstacles in
  (spot_x parking_spot <= x self ->
   sensor_depth v == Qmin (x self - spot_x parking_spot) 150) /\
  x v = x self /\ y v = y self /\ angle v = angle self.
Proof.
  intros v. unfold v, update_sensors.
  cbn [sensor_depth set_sensors x y angle].
  split; [| repeat split].
  intros Hright. apply Qle_bool_iff in Hright. rewrite Hright. reflexivity.
Qed.

(** X28.  The readings [update_sensors] takes: the frontal distance is never
    negative; the depth lies between 0 and 150, is 0 left of the spot's
    entrance and the distance past the entrance, capped at 150, right of
    it; the angle reading is the heading; the collision flag is set exactly
    when a corner of the vehicle lies in the rectangle of an obstacle.
    Position, controls and parking state are untouched. *)
Theorem update_sensors_readings :
  forall (self : Vehicle) (parking_spot : ParkingSpot) (obstacles : list GA.Obstacle),
    let v := sense self parking_spot obstacles in
    0 <= sensor_front v /\
    0 <= sensor_depth v <= 150 /\
    (x self < spot_x parking_spot -> sensor_depth v = 0) /\
    (spot_x parking_spot <= x self ->
     sensor_depth v == Qmin (x self - spot_x parking_spot) 150) /\
    sensor_angle v = angle self /\
    sensor_lateral v = y self - (spot_y parking_spot + spot_width parking_spot / 2) /\
    (is_colliding v = true <->
     exists obstacle px py,
       In obstacle obstacles /\
       In (px, py) (get_corners math_cos math_sin math_radians self) /\
       GA.obs_x obstacle <= px <= GA.obs_x obstacle + GA.obs_width obstacle /\
       GA.obs_y obstacle <= py <= GA.obs_y obstacle + GA.obs_height obstacle) /\
    x v = x self /\ y v = y self /\ angle v = angle self /\
    velocity v = velocity self /\ steering_angle v = steering_angle self /\
    is_parked v = is_parked self /\ parking_time v = parking_time self.
Proof.
  intros self parking_spot obstacles v. unfold v, update_sensors.
  cbn [sensor_front sensor_depth sensor_angle sensor_lateral is_colliding set_sensors
       x y angle velocity steering_angle is_parked parking_time].
  split; [apply Qabs_nonneg |].
  split.
  { destruct (Qle_bool (spot_x parking_spot) (x self)) eqn:E; [| lra].
    apply Qle_bool_iff in E. unfold py_min. split.
    - apply Q.min_glb; lra.
    - apply Q.le_min_r. }
  split.
  { intros Hleft. destruct (Qle_bool (spot_x parking_spot) (x self)) eqn:E; [| reflexivity].
    apply Qle_bool_iff in E. lra. }
  split.
  { intros Hright. apply Qle_bool_iff in Hright. rewrite Hright. reflexivity. }
  split; [reflexivity |]. split; [reflexivity |].
  split.
  { rewrite existsb_exists. split.
    - intros [obstacle [Hin Hc]]. apply check_collision_iff in Hc.
      destruct Hc as [px [py [Hp Hbox]]]. exists obstacle, px, py.
      split; [exact Hin |]. split; [exact Hp | exact Hbox].
    - intros [obstacle [px [py [Hin [Hp Hbox]]]]]. exists obstacle.
      split; [exact Hin |]. apply check_collision_iff. exists px, py.
      split; [exact Hp | exact Hbox]. }
  repeat split.
Qed.

(** X29.  The step of the simulation with the vehicle's centre between 65 and 85
    past the entrance of the spot, when it returns: the vehicle is not
    moved, and unless the step found it parked its speed is set to 0 (and,
    without a collision, its steering too).  Between 60 and 90 past the
    entrance but outside that band, the speed commanded is at most 5 unless
    the step found the vehicle parked.  The clock always advances by [dt],
    and past 30 the step asks to stop. *)
Theorem update_holds_in_centre :
  forall (self self' : ParkingSimulation) (dt : Q) (continue : bool),
    advance self dt = Ok (continue, self') ->
    time_elapsed self' = time_elapsed self + dt /\
    (30 < time_elapsed self + dt -> continue = false) /\
    (spot_x (parking_spot self) + 65 <= x (vehicle self)
     <= spot_x (parking_spot self) + 85 ->
     x (vehicle self') = x (vehicle self) /\
     y (vehicle self') = y (vehicle self) /\
     angle (vehicle self') = angle (vehicle self) /\
     trajectory (vehicle self') = trajectory (vehicle self) /\
     (velocity (vehicle self') = 0 \/
      continue = false /\ is_parked (vehicle self') = true)) /\
    (spot_x (parking_spot self) + 60 <= x (vehicle self)
     <= spot_x (parking_spot self) + 90 ->
     velocity (vehicle self') <= 5 \/
     continue = false /\ is_parked (vehicle self') = true).
Proof.
  intros self self' dt continue. unfold update.
  pose proof (sensors_keep_position (vehicle self) (parking_spot self) (obstacles self))
    as Hsense.
  cbv zeta in Hsense.
  set (v0 := update_sensors math_cos math_sin math_radians (vehicle self)
               (parking_spot self) (obstacles self)) in *.
  destruct Hsense as [Hdepth [Hx [Hy Ha]]].
  assert (Htraj0 : trajectory v0 = trajectory (vehicle self)) by reflexivity.
  destruct (check_parked math_cos math_sin math_radians v0 (parking_spot self) dt)
    as [is_parked_now v1] eqn:Hpark.
  assert (Hv1 : x v1 = x v0 /\ y v1 = y v0 /\ angle v1 = angle v0 /\
                trajectory v1 = trajectory v0 /\ sensor_depth v1 = sensor_depth v0 /\
                is_colliding v1 = is_colliding v0 /\
                (is_parked_now = true -> is_parked v1 = true)).
  { unfold check_parked in Hpark.
    destruct (_ && _ && _ && _ && _) in Hpark.
    - destruct (Qlt_le_dec 1 (parking_time v0 + dt)); injection Hpark as <- <-;
        repeat split; intros; discriminate.
    - injection Hpark as <- <-. repeat split. intros; discriminate. }
  destruct Hv1 as [Hx1 [Hy1 [Ha1 [Ht1 [Hd1 [Hc1 Hp1]]]]]].
  destruct is_parked_now.
  { intros H. injection H as <- <-. cbn [time_elapsed vehicle set_vehicle].
    split; [reflexivity |]. split; [reflexivity |].
    split.
    - intros _. rewrite Hx1, Hy1, Ha1, Ht1, Hx, Hy, Ha, Htraj0.
      repeat (split; [reflexivity |]). right. split; [reflexivity | apply Hp1; reflexivity].
    - intros _. right. split; [reflexivity | apply Hp1; reflexivity]. }
  destruct (is_colliding v1).
  { intros H. injection H as <- <-.
    cbn [time_elapsed vehicle set_vehicle set_control x y angle trajectory velocity].
    split; [reflexivity |]. split; [reflexivity |].
    split.
    - intros _. rewrite Hx1, Hy1, Ha1, Ht1, Hx, Hy, Ha, Htraj0.
      repeat (split; [reflexivity |]). left. reflexivity.
    - intros _. left. lra. }
  destruct (Fuzzy.infer (fuzzy_system self) _) as [[fuzzy_outputs fis] |]; [| discriminate].
  cbn [Py.bind].
  set (adjusted := if Qle_bool 60 (sensor_depth v1) && Qle_bool (sensor_depth v1) 90
                   then _ else _).
  destruct adjusted as [outputs |] eqn:Hadj; [| discriminate].
  cbn [Py.bind].
  destruct (dict_item "angulo_direcao" outputs) as [steering |] eqn:Hs; [| discriminate].
  cbn [Py.bind].
  destruct (dict_item "velocidade" outputs) as [speed |] eqn:Hv; [| discriminate].
  cbn [Py.bind].
  destruct (update_kinematics math_cos math_sin math_tan math_radians math_degrees
              (set_control v1 steering speed) dt) as [v2 |] eqn:Hstep; [| discriminate].
  cbn [Py.bind]. intros H. injection H as <- <-.
  cbn [time_elapsed vehicle set_vehicle].
  split; [reflexivity |].
  split; [intros Hlate; destruct (Qlt_le_dec 30 (time_elapsed self + dt)); [reflexivity | lra] |].
  destruct (kinematic_step_keeps_speed (set_control v1 steering speed) v2 dt Hstep)
    as [Hslow Hvel].
  cbn [velocity set_control] in Hslow, Hvel.
  split.
  - intros [Hlo Hhi].
    assert (Hdv : sensor_depth v1 == x (vehicle self) - spot_x (parking_spot self)).
    { rewrite Hd1, Hdepth by lra. apply Q.min_l. lra. }
    assert (Hband : Qle_bool 60 (sensor_depth v1) && Qle_bool (sensor_depth v1) 90 = true).
    { apply andb_true_iff. split; apply Qle_bool_iff; lra. }
    assert (Hcentre : Qle_bool (Qabs (sensor_depth v1 - 75)) 10 = true).
    { apply Qle_bool_iff. apply Qabs_Qle_condition. lra. }
    unfold adjusted in Hadj. cbv zeta in Hadj. rewrite Hband, Hcentre in Hadj.
    injection Hadj as <-.
    unfold dict_item in Hs, Hv.
    rewrite DictFacts.dict_get_set_same in Hs. injection Hs as <-.
    rewrite DictFacts.dict_get_set_other in Hv by discriminate.
    rewrite DictFacts.dict_get_set_same in Hv. injection Hv as <-.
    assert (Hstill : v2 = set_control v1 0 0).
    { apply Hslow. vm_compute. reflexivity. }
    rewrite Hstill. cbn [x y angle trajectory velocity set_control].
    rewrite Hx1, Hy1, Ha1, Ht1, Hx, Hy, Ha, Htraj0.
    repeat (split; [reflexivity |]). left. reflexivity.
  - intros [Hlo Hhi]. left.
    assert (Hdv : sensor_depth v1 == x (vehicle self) - spot_x (parking_spot self)).
    { rewrite Hd1, Hdepth by lra. apply Q.min_l. lra. }
    assert (Hband : Qle_bool 60 (sensor_depth v1) && Qle_bool (sensor_depth v1) 90 = true).
    { apply andb_true_iff. split; apply Qle_bool_iff; lra. }
    assert (Hspeed : speed <= 5).
    { unfold adjusted in Hadj. cbv zeta in Hadj. rewrite Hband in Hadj.
      destruct (Qle_bool (Qabs (sensor_depth v1 - 75)) 10).
      - injection Hadj as <-. unfold dict_item in Hv.
        rewrite DictFacts.dict_get_set_other in Hv by discriminate.
        rewrite DictFacts.dict_get_set_same in Hv. injection Hv as <-. lra.
      - destruct (dict_item "velocidade" fuzzy_outputs) as [speed0 |]; [| discriminate].
        simpl in Hadj. injection Hadj as <-. unfold dict_item in Hv.
        rewrite DictFacts.dict_get_set_same in Hv. injection Hv as <-.
        apply Q.le_min_r. }
    rewrite Hvel. exact Hspeed.
Qed.

End WithMath.

Lemma update_kinematics_effect_witness :
  exists self',
    update_kinematics Scenario.level_cos Scenario.level_sin Scenario.small_angle_tan
      Scenario.coarse_radians Scenario.coarse_degrees Scenario.cruising_vehicle 1
    = Ok self' /\
    -180 <= angle self' <= 180.
Proof.
  destruct (update_kinematics Scenario.level_cos Scenario.level_sin Scenario.small_angle_tan
              Scenario.coarse_radians Scenario.coarse_degrees Scenario.cruising_vehicle 1)
    as [self' |] eqn:E; [| vm_compute in E; discriminate E].
  exists self'. split; [reflexivity |].
  destruct (update_kinematics_effect Scenario.level_cos Scenario.level_sin
              Scenario.small_angle_tan Scenario.coarse_radians Scenario.coarse_degrees
              Scenario.cruising_vehicle self' 1 E) as [_ Hfast].
  apply Hfast. vm_compute. discriminate.
Defined.

Lemma update_holds_in_centre_witness :
  exists continue self',
    update Scenario.level_cos Scenario.level_sin Scenario.small_angle_tan
      Scenario.coarse_radians Scenario.coarse_degrees Scenario.centred_simulation (1 # 10)
    = Ok (continue, self') /\
    x (vehicle self') = 675 /\ y (vehicle self') = 290.
Proof.
  destruct (update Scenario.level_cos Scenario.level_sin Scenario.small_angle_tan
              Scenario.coarse_radians Scenario.coarse_degrees Scenario.centred_simulation
              (1 # 10)) as [[continue self'] |] eqn:E; [| vm_compute in E; discriminate E].
  exists continue, self'. split; [reflexivity |].
  destruct (update_holds_in_centre Scenario.level_cos Scenario.level_sin
              Scenario.small_angle_tan Scenario.coarse_radians Scenario.coarse_degrees
              Scenario.centred_simulation self' (1 # 10) continue E)
    as [_ [_ [Hcentre _]]].
  destruct Hcentre as [Hx [Hy _]]; [vm_compute; split; discriminate |].
  split; [exact Hx | exact Hy].
Defined.

(** X30.  The collision check of the optimizer against the rectangle test of the
    obstacles: with no obstacle no path collides, and a path with a pose
    whose position lies in the rectangle of an obstacle is always reported
    as colliding, as long as the vehicle dimensions in effect give a
    detection radius that is not negative. *)
Theorem path_check_covers_obstacle_hits :
  forall (self : GA.GeneticAlgorithm) (path : list GA.pose),
    (GA.obstacles self = [] -> GA._check_collision self path = false) /\
    (forall px py heading obstacle,
        In (px, py, heading) path ->
        In obstacle (GA.obstacles self) ->
        0 <= py_max (GA.dict_get_default "length" (GA.vehicle_params self) 50)
                    (GA.dict_get_default "width" (GA.vehicle_params self) 25) ->
        check_collision obstacle [(px, py)] = true ->
        GA._check_collision self path = true).
Proof.
  intros self path. unfold GA._check_collision. split.
  - intros Hnone. rewrite Hnone. induction path as [| [[px py] h] rest IH]; simpl;
      [reflexivity | exact IH].
  - intros px py heading obstacle Hpose Hobs Hradius Hhit.
    apply check_collision_iff in Hhit.
    destruct Hhit as [qx [qy [[Hq | []] [Hbx Hby]]]]. injection Hq as <- <-.
    cbv zeta. set (radius := py_max _ _ / 2) in *.
    assert (Hr : 0 <= radius).
    { unfold radius. apply Qle_shift_div_l; lra. }
    apply existsb_exists. exists (px, py, heading). split; [exact Hpose |].
    apply existsb_exists. exists obstacle. split; [exact Hobs |].
    unfold GA.get_bounds. apply in_box_iff. lra.
Qed.

Lemma path_check_covers_obstacle_hits_witness :
  GA._check_collision Scenario.coarse_optimizer [(650, 175, 0)] = true.
Proof.
  apply (proj2 (path_check_covers_obstacle_hits Scenario.coarse_optimizer [(650, 175, 0)])
           650 175 0 (GA.mkObstacle 600 170 150 10)).
  - left. reflexivity.
  - left. reflexivity.
  - vm_compute. discriminate.
  - vm_compute. reflexivity.
Defined.

End SimulationFacts.
